(** * sourcebit-source-filesystem: the models matcher

    A shallow embedding of [models-matcher.js] (matchObjectsToModels,
    addMetadata, mapObjectField, urlPathFromFilePath, mergeDataObjects)
    and of [transform] and [convertPathToPosix] of [index.js], together
    with the parts of lodash and of Node's [path] module that these
    functions call, and the properties of the design document, followed
    by further properties of the code, stated and proved over that
    embedding. *)

From Stdlib Require Import ZArith String Ascii List Lia Bool DecimalString Decimal.
From stdpp Require Import base tactics option list.
Import ListNotations.
Local Open Scope string_scope.
Local Open Scope list_scope.

(** ** JavaScript values

    Parsed content, models and field declarations are all plain
    JavaScript data.  Numbers are modelled by integers.  An object is the
    list of its own enumerable properties in insertion order. *)

Unset Elimination Schemes.
Inductive value : Type :=
| VUndefined
| VNull
| VBool (b : bool)
| VNum (n : Z)
| VStr (s : string)
| VArr (items : list value)
| VObj (props : list (string * value)).
Set Elimination Schemes.

Section ValueInduction.
Variable P : value -> Prop.
Hypothesis Hundef : P VUndefined.
Hypothesis Hnull : P VNull.
Hypothesis Hbool : forall b, P (VBool b).
Hypothesis Hnum : forall n, P (VNum n).
Hypothesis Hstr : forall s, P (VStr s).
Hypothesis Harr : forall items, Forall P items -> P (VArr items).
Hypothesis Hobj : forall props, Forall (fun kv => P (snd kv)) props -> P (VObj props).

Fixpoint value_ind (v : value) : P v :=
  match v with
  | VUndefined => Hundef
  | VNull => Hnull
  | VBool b => Hbool b
  | VNum n => Hnum n
  | VStr s => Hstr s
  | VArr items =>
      Harr items
        ((fix all (l : list value) : Forall P l :=
            match l with
            | [] => @List.Forall_nil value P
            | x :: r => @List.Forall_cons value P x r (value_ind x) (all r)
            end) items)
  | VObj props =>
      Hobj props
        ((fix all (l : list (string * value)) : Forall (fun kv => P (snd kv)) l :=
            match l with
            | [] => @List.Forall_nil _ _
            | kv :: r => @List.Forall_cons _ _ kv r (value_ind (snd kv)) (all r)
            end) props)
  end.
End ValueInduction.

(** Strict equality with a string literal: [v === 'lit']. *)
Definition isStr (v : value) (lit : string) : bool :=
  match v with
  | VStr s => String.eqb s lit
  | _ => false
  end.

(** [!v] is [negb (truthy v)]. *)
Definition truthy (v : value) : bool :=
  match v with
  | VUndefined | VNull => false
  | VBool b => b
  | VNum n => negb (Z.eqb n 0)
  | VStr s => negb (String.eqb s "")
  | VArr _ | VObj _ => true
  end.

(** [_.isNil]: [null] or [undefined]. *)
Definition isNil (v : value) : bool :=
  match v with
  | VUndefined | VNull => true
  | _ => false
  end.

Definition isArray (v : value) : bool :=
  match v with VArr _ => true | _ => false end.

(** [_.isPlainObject]: every [VObj] stands for an object literal. *)
Definition isPlainObject (v : value) : bool :=
  match v with VObj _ => true | _ => false end.

(** lodash's [isObject]: arrays and objects (there are no functions here). *)
Definition isObject (v : value) : bool :=
  match v with VArr _ | VObj _ => true | _ => false end.

(** ** Strings *)

Definition stringOfZ (n : Z) : string := NilZero.string_of_int (Z.to_int n).
Definition stringOfNat (n : nat) : string := NilZero.string_of_uint (Nat.to_uint n).

Fixpoint join (sep : string) (parts : list string) : string :=
  match parts with
  | [] => ""
  | [p] => p
  | p :: rest => p ++ sep ++ join sep rest
  end.

(** [s.split(c)] for a one-character separator. *)
Fixpoint split (sep : ascii) (s : string) : list string :=
  match s with
  | EmptyString => [""]
  | String c s' =>
      if Ascii.eqb c sep then "" :: split sep s'
      else match split sep s' with
           | h :: t => String c h :: t
           | [] => [String c ""]
           end
  end.

Definition lowerAscii (c : ascii) : ascii :=
  let n := nat_of_ascii c in
  if (65 <=? n)%nat && (n <=? 90)%nat then ascii_of_nat (n + 32) else c.

(** The letters [A] to [Z] of [s] lowered, every other character kept. *)
Fixpoint lowerAsciiString (s : string) : string :=
  match s with
  | EmptyString => EmptyString
  | String c s' => String (lowerAscii c) (lowerAsciiString s')
  end.

(** Every character of [s] is an ASCII character. *)
Fixpoint isAscii (s : string) : bool :=
  match s with
  | EmptyString => true
  | String c s' => (nat_of_ascii c <? 128)%nat && isAscii s'
  end.

(** [s.toLowerCase()] applies the Unicode case mapping to the text of
    [s]: it lowers letters outside ASCII too, and the mapping of one
    character may depend on its neighbours.  The strings here are
    sequences of bytes, so the method is a parameter; what is known of
    it is its result on a string of ASCII characters, where it lowers
    the letters [A] to [Z] and nothing else. *)
Class LowerCase := {
  toLowerCase : string -> string;
  toLowerCase_ascii :
    forall s, isAscii s = true -> toLowerCase s = lowerAsciiString s
}.

(** The method on ASCII text, for the examples. *)
Definition asciiLowerCase : LowerCase :=
  {| toLowerCase := lowerAsciiString;
     toLowerCase_ascii := fun s _ => eq_refl |}.

(** The ECMAScript [ToString] conversion, as used for property keys and
    by [Array.prototype.join]. *)
Fixpoint toString (v : value) : string :=
  match v with
  | VUndefined => "undefined"
  | VNull => "null"
  | VBool true => "true"
  | VBool false => "false"
  | VNum n => stringOfZ n
  | VStr s => s
  | VArr items =>
      join "," (map (fun x => if isNil x then "" else toString x) items)
  | VObj _ => "[object Object]"
  end.

(** [toKey]: the property key a value denotes. *)
Definition toKey (v : value) : string := toString v.

(** A canonical array index: the decimal numeral of some [n < 2^32 - 1]. *)
Definition parseUint (k : string) : option N :=
  match NilZero.uint_of_string k with
  | Some u =>
      let n := N.of_uint u in
      if String.eqb (NilZero.string_of_uint (N.to_uint n)) k then Some n else None
  | None => None
  end.

Definition arrayIndex (k : string) : option nat :=
  match parseUint k with
  | Some n => if (n <? 4294967295)%N then Some (N.to_nat n) else None
  | None => None
  end.

(** lodash's [isIndex]: an unsigned decimal below [MAX_SAFE_INTEGER]. *)
Definition isIndex (k : string) : bool :=
  match parseUint k with
  | Some n => (n <? 9007199254740991)%N
  | None => false
  end.

(** ** Own properties *)

Fixpoint lookup (k : string) (props : list (string * value)) : option value :=
  match props with
  | [] => None
  | (k', v) :: rest => if String.eqb k' k then Some v else lookup k rest
  end.

(** [obj[k] = v] on an object: an existing key keeps its place. *)
Fixpoint assignKey (k : string) (v : value) (props : list (string * value))
  : list (string * value) :=
  match props with
  | [] => [(k, v)]
  | (k', v') :: rest =>
      if String.eqb k' k then (k', v) :: rest else (k', v') :: assignKey k v rest
  end.

(** [v[k]] for a [v] that is neither [null] nor [undefined].  Arrays and
    strings answer their indices and [length]; inherited properties of
    the built-in prototypes are not modelled. *)
Definition getProp (v : value) (k : string) : value :=
  match v with
  | VObj props => default VUndefined (lookup k props)
  | VArr items =>
      if String.eqb k "length" then VNum (Z.of_nat (length items))
      else match arrayIndex k with
           | Some n => nth n items VUndefined
           | None => VUndefined
           end
  | VStr s =>
      if String.eqb k "length" then VNum (Z.of_nat (String.length s))
      else match arrayIndex k with
           | Some n => match String.get n s with
                       | Some c => VStr (String c "")
                       | None => VUndefined
                       end
           | None => VUndefined
           end
  | _ => VUndefined
  end.

(** [hasOwnProperty.call(v, k)] *)
Definition hasOwn (v : value) (k : string) : bool :=
  match v with
  | VObj props => bool_decide (is_Some (lookup k props))
  | VArr items =>
      String.eqb k "length" ||
      match arrayIndex k with Some n => (n <? length items)%nat | None => false end
  | VStr s =>
      String.eqb k "length" ||
      match arrayIndex k with Some n => (n <? String.length s)%nat | None => false end
  | _ => false
  end.

(** ** lodash: property paths

    [_.get] and [_.has] accept a property path.  A string that lodash's
    regular expressions classify as a deep path (it contains a dot or a
    bracket group, and is not an own property of the object at hand) is
    split by lodash's [stringToPath]; any other string is a single key.
    The two regular-expression functions are a parameter of the
    development, so that every statement below holds for whatever they
    compute. *)

Class PathSyntax := {
  isDeepProp : string -> bool;
  stringToPath : string -> list string
}.

(** The path syntax restricted to strings without brackets, where a deep
    path is a string with a dot and its keys are the dot-separated parts. *)
Definition hasDot (s : string) : bool :=
  existsb (fun c => Ascii.eqb c ".") (list_ascii_of_string s).

Definition dotSyntax : PathSyntax :=
  {| isDeepProp := hasDot; stringToPath := split "." |}.

Section Lodash.
Context `{PathSyntax}.

(** [isKey(value, object)] for a string. *)
Definition isKey (s : string) (object : value) : bool :=
  negb (isDeepProp s) || (negb (isNil object) && hasOwn object s).

(** [castPath(path, object)] followed by [toKey] on every element. *)
Definition castPath (path : value) (object : value) : list string :=
  match path with
  | VArr items => map toKey items
  | VStr s => if isKey s object then [s] else stringToPath s
  | VObj _ => if isKey (toString path) object then [toString path]
              else stringToPath (toString path)
  | _ => [toKey path]
  end.

(** The loop of [baseGet]: stop at [null] or [undefined]. *)
Fixpoint walk (v : value) (keys : list string) : value :=
  match keys with
  | [] => v
  | k :: rest => if isNil v then VUndefined else walk (getProp v k) rest
  end.

Definition baseGet (object : value) (keys : list string) : value :=
  match keys with
  | [] => VUndefined
  | _ => walk object keys
  end.

(** [_.get(object, path, defaultValue)] *)
Definition get (object path defaultValue : value) : value :=
  let r := if isNil object then VUndefined
           else baseGet object (castPath path object) in
  match r with
  | VUndefined => defaultValue
  | _ => r
  end.

Fixpoint hasPath (v : value) (keys : list string) : bool :=
  match keys with
  | [] => false
  | k :: rest =>
      negb (isNil v) && hasOwn v k &&
      match rest with
      | [] => true
      | _ => hasPath (getProp v k) rest
      end
  end.

(** [_.has(object, path)] *)
Definition has (object path : value) : bool :=
  negb (isNil object) && hasPath object (castPath path object).
End Lodash.

(** A literal key made of word characters ([name], [type], [fields], ...)
    is a property name and never a path. *)
Definition getKey (object : value) (k : string) (defaultValue : value) : value :=
  let r := if isNil object then VUndefined else getProp object k in
  match r with
  | VUndefined => defaultValue
  | _ => r
  end.

Definition hasKey (object : value) (k : string) : bool :=
  negb (isNil object) && hasOwn object k.

(** ** lodash: collections *)

Fixpoint charsOf (s : string) : list value :=
  match s with
  | EmptyString => []
  | String c s' => VStr (String c "") :: charsOf s'
  end.

(** The elements that [_.filter], [_.find], [_.keyBy] and [_.map] visit. *)
Definition elements (collection : value) : list value :=
  match collection with
  | VArr items => items
  | VObj props => map snd props
  | VStr s => charsOf s
  | _ => []
  end.

Fixpoint indexed (i : nat) (l : list value) : list (string * value) :=
  match l with
  | [] => []
  | x :: r => (stringOfNat i, x) :: indexed (S i) r
  end.

(** The own enumerable properties that [_.assign] copies from a source. *)
Definition ownProps (source : value) : list (string * value) :=
  match source with
  | VObj props => props
  | VArr items => indexed 0 items
  | VStr s => indexed 0 (charsOf s)
  | _ => []
  end.

(** [_.assign(target, source)] on the properties of the target. *)
Definition assign (target : list (string * value)) (source : value)
  : list (string * value) :=
  fold_left (fun acc kv => assignKey (fst kv) (snd kv) acc) (ownProps source) target.

(** [_.omitBy(object, _.isNil)] *)
Definition omitNil (props : list (string * value)) : list (string * value) :=
  List.filter (fun kv => negb (isNil (snd kv))) props.

(** [_.matches({name: fieldName})] and [_.matches({type: 'page'})]: the
    element has the property, strictly equal to the string. *)
Definition matchesProp (k lit : string) (element : value) : bool :=
  negb (isNil element) && isStr (getProp element k) lit.

(** [_.find(collection, {name: fieldName})]; [None] is [undefined]. *)
Definition findByName (collection : value) (fieldName : string) : option value :=
  List.find (matchesProp "name" fieldName) (elements collection).

(** [_.filter(models, _.matches({type: t}))] *)
Definition filterByType (models : value) (t : string) : list value :=
  List.filter (matchesProp "type" t) (elements models).

(** [_.keyBy(models, 'name')] *)
Definition keyBy (models : value) (k : string) : list (string * value) :=
  fold_left (fun acc m => assignKey (toKey (getKey m k VUndefined)) m acc)
            (elements models) [].

(** [_.matches({__metadata: {modelType: 'data'}})]: a partial deep
    comparison, so [__metadata] must itself be an object. *)
Definition isDataObject (object : value) : bool :=
  match object with
  | VObj props =>
      match lookup "__metadata" props with
      | Some (VObj meta) =>
          match lookup "modelType" meta with
          | Some t => isStr t "data"
          | None => false
          end
      | _ => false
      end
  | _ => false
  end.

(** [_.size] *)
Definition size (v : value) : nat :=
  match v with
  | VStr s => String.length s
  | VArr items => length items
  | VObj props => length props
  | _ => 0
  end.

(** [_.maxBy(array, _.size)]: the first element of greatest size. *)
Fixpoint maxBySizeFrom (best : value) (l : list value) : value :=
  match l with
  | [] => best
  | x :: r => if (size best <? size x)%nat then maxBySizeFrom x r
              else maxBySizeFrom best r
  end.

Definition maxBySize (l : list value) : value :=
  match l with
  | [] => VUndefined
  | x :: r => maxBySizeFrom x r
  end.

(** [_.compact] on an array of strings drops the empty ones. *)
Definition compact (parts : list string) : list string :=
  List.filter (fun s => negb (String.eqb s "")) parts.

(** Structural equality of values.  On primitives this is the
    [SameValueZero] comparison of [_.uniq]. *)
Fixpoint valueEqb (a b : value) : bool :=
  match a, b with
  | VUndefined, VUndefined => true
  | VNull, VNull => true
  | VBool x, VBool y => Bool.eqb x y
  | VNum x, VNum y => Z.eqb x y
  | VStr x, VStr y => String.eqb x y
  | VArr xs, VArr ys =>
      (fix go (l1 l2 : list value) : bool :=
         match l1, l2 with
         | [], [] => true
         | x :: r1, y :: r2 => valueEqb x y && go r1 r2
         | _, _ => false
         end) xs ys
  | VObj xs, VObj ys =>
      (fix go (l1 l2 : list (string * value)) : bool :=
         match l1, l2 with
         | [], [] => true
         | (k1, x) :: r1, (k2, y) :: r2 => String.eqb k1 k2 && valueEqb x y && go r1 r2
         | _, _ => false
         end) xs ys
  | _, _ => false
  end.

(** [_.uniq]: keep the first occurrence of every value. *)
Fixpoint uniqFrom (seen : list value) (l : list value) : list value :=
  match l with
  | [] => []
  | x :: r => if existsb (valueEqb x) seen then uniqFrom seen r
              else x :: uniqFrom (x :: seen) r
  end.

Definition uniq (l : list value) : list value := uniqFrom [] l.

(** ** lodash: [_.sortBy] on string keys

    [_.sortBy] is a stable sort; on strings its comparison is the
    code-unit order of [<].  A stable sort has one possible result, which
    insertion from the right computes. *)
Section SortBy.
Context {A : Type}.
Variable key : A -> string.

Fixpoint insertBy (x : A) (l : list A) : list A :=
  match l with
  | [] => [x]
  | y :: r => if String.leb (key x) (key y) then x :: y :: r
              else y :: insertBy x r
  end.

Definition sortBy (l : list A) : list A := fold_right insertBy [] l.
End SortBy.

(** ** lodash: [_.set]

    [baseSet] walks the path, keeps every intermediate value that is an
    object or an array, replaces any other by a fresh array (when the next
    key is an index) or a fresh object, and assigns the value at the last
    key.  It stops, leaving what it has done so far, at the keys
    [__proto__], [constructor] and [prototype]. *)
Definition forbiddenKey (k : string) : bool :=
  String.eqb k "__proto__" || String.eqb k "constructor" || String.eqb k "prototype".

(** The names of the members of [Object.prototype].  For such a name
    [k], [object[k]] and [_.get(object, k)] answer the inherited member
    when the object has no property [k] of its own, and [_.set] follows
    it; [getProp] answers own properties only, so what is stated of a
    lookup by a key that may be any string leaves these names out. *)
Definition inheritedKey (k : string) : bool :=
  existsb (String.eqb k)
    ["constructor"; "__defineGetter__"; "__defineSetter__"; "hasOwnProperty";
     "__lookupGetter__"; "__lookupSetter__"; "isPrototypeOf";
     "propertyIsEnumerable"; "toString"; "valueOf"; "__proto__";
     "toLocaleString"].

(** [arr[n] = v]: the array grows, with [undefined] in the gap. *)
Fixpoint assignIndex (n : nat) (v : value) (items : list value) : list value :=
  match n, items with
  | O, [] => [v]
  | O, _ :: r => v :: r
  | S m, [] => VUndefined :: assignIndex m v []
  | S m, x :: r => x :: assignIndex m v r
  end.

(** [nested[k] = v].  An array that would acquire a property other than
    an index is not a value of this development: [None]. *)
Definition assignProp (nested : value) (k : string) (v : value) : option value :=
  match nested with
  | VObj props => Some (VObj (assignKey k v props))
  | VArr items =>
      match arrayIndex k with
      | Some n => Some (VArr (assignIndex n v items))
      | None => None
      end
  | _ => Some nested
  end.

Fixpoint baseSet (nested : value) (path : list string) (v : value) : option value :=
  match path with
  | [] => Some nested
  | k :: rest =>
      if forbiddenKey k then Some nested
      else match rest with
           | [] => assignProp nested k v
           | k2 :: _ =>
               let objValue := getProp nested k in
               let child := if isObject objValue then objValue
                            else if isIndex k2 then VArr [] else VObj [] in
               match baseSet child rest v with
               | Some child' => assignProp nested k child'
               | None => None
               end
           end
  end.

(** [_.set(object, path, value)] for a path given as an array of strings. *)
Definition set (object : value) (path : list string) (v : value) : option value :=
  if isObject object then baseSet object path v else Some object.

(** ** Runs: diagnostics and exceptions

    [log] and [logError] write lines to the console; a property access
    on [null] or [undefined], and [path.parse] on a value that is not a
    string, raise a [TypeError].  A run yields the lines written and one
    of: a result, an exception, or [Unmodelled] when [_.set] produced an
    array with a named property (see [assignProp]). *)

Record location := {
  locFile : value;             (* ${filePath} *)
  locData : list value;        (* dataFieldPath *)
  locModel : list value        (* modelFieldPath *)
}.

Inductive diag : Type :=
| Info (text : string)
| InfoMatched (matched total : nat)
| InfoModels (rows : list (value * string))
| Error (text : string)
| ErrorAt (text : string) (loc : location).

Inductive exn : Type :=
| TypeError (what : string).

Inductive outcome (A : Type) : Type :=
| Ok (a : A)
| Throw (e : exn)
| Unmodelled.
Arguments Ok {A} a.
Arguments Throw {A} e.
Arguments Unmodelled {A}.

Definition M (A : Type) : Type := (list diag * outcome A)%type.

Definition ret {A} (a : A) : M A := ([], Ok a).

Definition bind {A B} (m : M A) (f : A -> M B) : M B :=
  match m with
  | (l1, Ok a) => let '(l2, r) := f a in (l1 ++ l2, r)
  | (l1, Throw e) => (l1, Throw e)
  | (l1, Unmodelled) => (l1, Unmodelled)
  end.

#[export] Instance M_ret : MRet M := @ret.
#[export] Instance M_bind : MBind M := fun A B f m => bind m f.

Definition throw {A} (e : exn) : M A := ([], Throw e).
Definition unmodelled {A} : M A := ([], Unmodelled).

Definition log (text : string) : M unit := ([Info text], Ok tt).
Definition logError (text : string) : M unit := ([Error text], Ok tt).
Definition logErrorAt (text : string) (loc : location) : M unit :=
  ([ErrorAt text loc], Ok tt).

(** [v.k] in JavaScript: a [TypeError] on [null] and [undefined]. *)
Definition prop (v : value) (k : string) : M value :=
  if isNil v then throw (TypeError ("Cannot read property '" ++ k ++ "'"))
  else mret (getProp v k).

Section MapM.
Variable f : string -> value -> M value.

(** [_.mapValues(object, f)], running [f] on the values in order. *)
Fixpoint mapValuesM (props : list (string * value)) : M (list (string * value)) :=
  match props with
  | [] => mret []
  | (k, v) :: rest =>
      v' ← f k v;
      rest' ← mapValuesM rest;
      mret ((k, v') :: rest')
  end.
End MapM.

Section MapItemsM.
Variable f : nat -> value -> M value.

(** [_.map(array, f)] with the index, in order. *)
Fixpoint mapItemsM (idx : nat) (items : list value) : M (list value) :=
  match items with
  | [] => mret []
  | x :: rest =>
      x' ← f idx x;
      rest' ← mapItemsM (S idx) rest;
      mret (x' :: rest')
  end.
End MapItemsM.

(** ** Node: [path.parse] (POSIX)

    Only [dir] and [name] are used.  The scan runs from the last
    character down to [start], as the loop of [path.parse] does. *)

Record scanState := {
  startDot : option nat;
  startPart : nat;
  endIdx : option nat;
  matchedSlash : bool;
  preDotState : Z
}.

Definition scanInit : scanState :=
  {| startDot := None; startPart := 0; endIdx := None;
     matchedSlash := true; preDotState := 0 |}.

(** One character that is not a separator, at index [i]. *)
Definition scanChar (code : ascii) (i : nat) (st : scanState) : scanState :=
  let st1 :=
    match endIdx st with
    | None => {| startDot := startDot st; startPart := startPart st;
                 endIdx := Some (i + 1); matchedSlash := false;
                 preDotState := preDotState st |}
    | Some _ => st
    end in
  if Ascii.eqb code "." then
    match startDot st1 with
    | None => {| startDot := Some i; startPart := startPart st1;
                 endIdx := endIdx st1; matchedSlash := matchedSlash st1;
                 preDotState := preDotState st1 |}
    | Some _ => {| startDot := startDot st1; startPart := startPart st1;
                   endIdx := endIdx st1; matchedSlash := matchedSlash st1;
                   preDotState := 1 |}
    end
  else
    match startDot st1 with
    | Some _ => {| startDot := startDot st1; startPart := startPart st1;
                   endIdx := endIdx st1; matchedSlash := matchedSlash st1;
                   preDotState := (-1) |}
    | None => st1
    end.

(** The loop [for (; i >= start; --i)], entered with [i = k - 1]. *)
Fixpoint scan (path : string) (start k : nat) (st : scanState) : scanState :=
  match k with
  | O => st
  | S i =>
      if (i <? start)%nat then st
      else match String.get i path with
           | None => st
           | Some code =>
               if Ascii.eqb code "/" then
                 if matchedSlash st then scan path start i st
                 else {| startDot := startDot st; startPart := i + 1;
                         endIdx := endIdx st; matchedSlash := matchedSlash st;
                         preDotState := preDotState st |}
               else scan path start i (scanChar code i st)
           end
  end.

Definition slice (s : string) (a b : nat) : string := substring a (b - a) s.

Record pathObject := { dir : string; name : string }.

(** [path.parse] on a string that is not empty. *)
Definition parseNonEmpty (path : string) (isAbsolute : bool) : pathObject :=
  let start := if isAbsolute then 1 else 0 in
  let st := scan path start (String.length path) scanInit in
  let nm :=
    match endIdx st with
    | None => ""
    | Some e =>
        let from := if (startPart st =? 0)%nat && isAbsolute then 1
                    else startPart st in
        match startDot st with
        | None => slice path from e
        | Some d =>
            if (preDotState st =? 0)%Z
               || ((preDotState st =? 1)%Z && (d =? e - 1)%nat
                   && (d =? startPart st + 1)%nat)
            then slice path from e
            else slice path from d
        end
    end in
  let dr :=
    if (0 <? startPart st)%nat then slice path 0 (startPart st - 1)
    else if isAbsolute then "/" else "" in
  {| dir := dr; name := nm |}.

Definition parseString (path : string) : pathObject :=
  match path with
  | EmptyString => {| dir := ""; name := "" |}
  | String c0 _ => parseNonEmpty path (Ascii.eqb c0 "/")
  end.

(** [path.parse(p)]: [validateString] rejects every value but a string. *)
Definition pathParse (p : value) : M pathObject :=
  match p with
  | VStr s => mret (parseString s)
  | _ => throw (TypeError "The 'path' argument must be of type string")
  end.

(** ** The models matcher *)

(** [urlPathFromFilePath] *)
Definition urlPathFromFilePath `{LowerCase} (filePath : value) : M string :=
  pathObject ← pathParse filePath;
  let parts := compact (split "/" (dir pathObject)) in
  let parts := if negb (String.eqb (name pathObject) "index")
               then parts ++ [name pathObject] else parts in
  let urlPath := toLowerCase (join "/" parts) in
  mret ("/" ++ urlPath)%string.

(** The options object that [addMetadata] and [mapObjectField] pass on. *)
Record context := {
  filePath : value;
  modelsByName : list (string * value);
  dataFieldPath : list value;
  modelFieldPath : list value
}.

Definition errNotObject : string := "value must be an object".
Definition errModelsProperty : string :=
  "field of type 'model' must have 'models' property with array having at least one model name".
Definition errModelsUnknown : string :=
  "the 'models' array of the field of type 'model' must include the names of existing models".
Definition errTypeMissing : string :=
  "object referenced by a field of type 'model' having more than one model in 'models' array, must have 'type' property specifying the name of the object's model".
Definition errTypeUnknown : string :=
  "the value of the 'type' property of the object referenced by a field of type 'model' must be the name of an existing model".
Definition errNotArray : string :=
  "the value referenced by a field of type 'list' must be an array".

Definition locationOf (c : context) (modelPath : list value) : location :=
  {| locFile := filePath c; locData := dataFieldPath c; locModel := modelPath |}.

(** The object literal handed to [_.omitBy(..., _.isNil)]. *)
Definition computedMetadata (model modelType urlPath : value) : list (string * value) :=
  omitNil [("modelType", modelType);
           ("modelName", getKey model "name" VNull);
           ("modelLabel", getKey model "label" VNull);
           ("urlPath", urlPath)].

(** [_.assign({}, data, {__metadata: _.assign({}, _.get(data, '__metadata'), computed)})] *)
Definition attachMetadata (props computed : list (string * value)) : value :=
  let existing := getKey (VObj props) "__metadata" VUndefined in
  let metadata := assign (assign [] existing) (VObj computed) in
  VObj (assign (assign [] (VObj props)) (VObj [("__metadata", VObj metadata)])).

(** The options for a model resolved by name: [modelFieldPath: []]. *)
Definition restart (c : context) : context :=
  {| filePath := filePath c; modelsByName := modelsByName c;
     dataFieldPath := dataFieldPath c; modelFieldPath := [] |}.

(** The options for the field [fieldName] of an object. *)
Definition fieldContext (c : context) (modelPath : list value) (fieldName : string)
  : context :=
  {| filePath := filePath c; modelsByName := modelsByName c;
     dataFieldPath := dataFieldPath c ++ [VStr fieldName];
     modelFieldPath := modelPath ++ [VStr "fields"; VStr fieldName] |}.

(** The options for the item at [idx] of a list. *)
Definition itemContext (c : context) (idx : nat) : context :=
  {| filePath := filePath c; modelsByName := modelsByName c;
     dataFieldPath := dataFieldPath c ++ [VNum (Z.of_nat idx)];
     modelFieldPath := modelFieldPath c ++ [VStr "items"] |}.

(** [_.get(fieldModel, 'items', {type: 'string'})] *)
Definition itemModelOf (fieldModel : value) : value :=
  getKey fieldModel "items" (VObj [("type", VStr "string")]).

(** [modelFieldPath], or [[model.name]] when it is empty. *)
Definition modelPathOf (model : value) (c : context) : M (list value) :=
  match modelFieldPath c with
  | [] => n ← prop model "name"; mret [n]
  | p => mret p
  end.

(** The value of [urlPath] in the computed metadata. *)
Definition urlPathOf `{LowerCase} (modelType : value) (c : context) : M value :=
  if isStr modelType "page"
  then u ← urlPathFromFilePath (filePath c); mret (VStr u)
  else mret VNull.

Section Annotate.
Context `{PathSyntax} `{LowerCase}.

(** The function that [addMetadata] maps over the values of [data]. *)
Definition processField
    (mapField : value -> value -> context -> M value)
    (fields : value) (c : context) (modelPath : list value)
    (fieldName : string) (fieldValue : value) : M value :=
  match findByName fields fieldName with
  | None => mret fieldValue
  | Some fieldModel =>
      mapField fieldValue fieldModel (fieldContext c modelPath fieldName)
  end.

(** The body of [addMetadata], with [mapObjectField] as a parameter. *)
Definition addMetadataWith
    (mapField : value -> value -> context -> M value)
    (data model : value) (c : context) : M value :=
  let fields := getKey model "fields" (VObj []) in
  modelPath ← modelPathOf model c;
  match data with
  | VObj props =>
      props' ← mapValuesM (processField mapField fields c modelPath) props;
      modelType ← prop model "type";
      urlPath ← urlPathOf modelType c;
      mret (attachMetadata props' (computedMetadata model modelType urlPath))
  | _ =>
      logErrorAt errNotObject (locationOf c modelPath);;
      mret data
  end.

(** [mapObjectField] *)
Fixpoint mapObjectField (fieldValue fieldModel : value) (c : context)
    {struct fieldValue} : M value :=
  let loc := locationOf c (modelFieldPath c) in
  type ← prop fieldModel "type";
  if isStr type "object" then
    addMetadataWith mapObjectField fieldValue fieldModel c
  else if isStr type "model" then
    let models := getProp fieldModel "models" in
    if negb (hasKey fieldModel "models") || negb (isArray models)
       || (size models <? 1)%nat
    then logErrorAt errModelsProperty loc;; mret fieldValue
    else if (size models =? 1)%nat then
      let modelName := hd VUndefined (elements models) in
      if negb (has (VObj (modelsByName c)) modelName)
      then logErrorAt errModelsUnknown loc;; mret fieldValue
      else addMetadataWith mapObjectField fieldValue
             (getProp (VObj (modelsByName c)) (toKey modelName)) (restart c)
    else
      if negb (hasKey fieldValue "type")
      then logErrorAt errTypeMissing loc;; mret fieldValue
      else
        let modelName := getProp fieldValue "type" in
        if negb (has (VObj (modelsByName c)) modelName)
        then logErrorAt errTypeUnknown loc;; mret fieldValue
        else addMetadataWith mapObjectField fieldValue
               (getProp (VObj (modelsByName c)) (toKey modelName)) (restart c)
  else if isStr type "reference" then
    if hasKey fieldValue "type"
       && has (VObj (modelsByName c)) (getProp fieldValue "type")
    then addMetadataWith mapObjectField fieldValue
           (getProp (VObj (modelsByName c)) (toKey (getProp fieldValue "type")))
           (restart c)
    else mret fieldValue
  else if isStr type "list" then
    match fieldValue with
    | VArr items =>
        let itemModel := itemModelOf fieldModel in
        items' ← mapItemsM
          (fun idx item => mapObjectField item itemModel (itemContext c idx))
          0 items;
        mret (VArr items')
    | _ => logErrorAt errNotArray loc;; mret fieldValue
    end
  else mret fieldValue.

(** [addMetadata] *)
Definition addMetadata (data model : value) (c : context) : M value :=
  addMetadataWith mapObjectField data model c.
End Annotate.

(** ** Merging data objects

    [_.set] stores the object itself in the accumulator, so a later
    [_.set] whose path runs through an object placed earlier adds a
    property to that very object.  The merge therefore returns, with the
    merged object, the objects as the call leaves them.  The objects of
    the list are taken to be distinct objects. *)

Fixpoint isPrefix (p q : list string) : bool :=
  match p, q with
  | [], _ => true
  | a :: p', b :: q' => String.eqb a b && isPrefix p' q'
  | _ :: _, [] => false
  end.

(** Does [_.set] reach its final assignment on this path? *)
Definition reachesEnd (path : list string) : bool :=
  match path with
  | [] => false
  | _ => negb (existsb forbiddenKey path)
  end.

Record mergeState := {
  accum : value;                          (* the accumulator of [_.reduce] *)
  attached : list (nat * list string);    (* objects that are part of it, and where *)
  detached : list (nat * value)           (* objects no longer part of it, as they were left *)
}.

(** [_.set(accum, propPath, object)] for the object at position [i]. *)
Definition place (st : mergeState) (i : nat) (object : value)
    (propPath : list string) : option mergeState :=
  match set (accum st) propPath object with
  | None => None
  | Some accum' =>
      if reachesEnd propPath then
        let gone := List.filter (fun jp => isPrefix propPath (snd jp)) (attached st) in
        let kept := List.filter (fun jp => negb (isPrefix propPath (snd jp))) (attached st) in
        Some {| accum := accum';
                attached := kept ++ [(i, propPath)];
                detached := detached st
                            ++ map (fun jp => (fst jp, walk (accum st) (snd jp))) gone |}
      else
        Some {| accum := accum'; attached := attached st;
                detached := detached st ++ [(i, object)] |}
  end.

Fixpoint assocNat {A} (i : nat) (l : list (nat * A)) : option A :=
  match l with
  | [] => None
  | (j, a) :: rest => if Nat.eqb j i then Some a else assocNat i rest
  end.

(** The object at position [i] once the merge is over. *)
Definition finalObject (st : mergeState) (i : nat) (object : value) : value :=
  match assocNat i (detached st) with
  | Some v => v
  | None =>
      match assocNat i (attached st) with
      | Some p => walk (accum st) p
      | None => object
      end
  end.

Fixpoint number {A} (i : nat) (l : list A) : list (nat * A) :=
  match l with
  | [] => []
  | x :: r => (i, x) :: number (S i) r
  end.

Definition isString (v : value) : bool :=
  match v with VStr _ => true | _ => false end.

Definition stringOf (v : value) : string :=
  match v with VStr s => s | _ => "" end.

(** [_.compact(pathObject.dir.split(path.sep).concat(pathObject.name))] *)
Definition propPathOf (p : pathObject) : list string :=
  compact (split "/" (dir p) ++ [name p]).

Section Merge.
Context `{PathSyntax}.

Definition seed (source : value) : value :=
  VObj [("__metadata",
         VObj [("id", VStr (toString source ++ ":data")); ("source", source)])].

(** [_.get(object, objectFileKeyPath)]: the file path of an object. *)
Definition fileOf (objectFileKeyPath : string) (object : value) : value :=
  get object (VStr objectFileKeyPath) VUndefined.

(** The sort key of [_.sortBy(objects, objectFileKeyPath)], on strings. *)
Definition fileKey (objectFileKeyPath : string) (object : value) : string :=
  stringOf (fileOf objectFileKeyPath object).

(** The key path under which an object with a string file path is stored. *)
Definition keyPathOf (objectFileKeyPath : string) (object : value) : list string :=
  propPathOf (parseString (fileKey objectFileKeyPath object)).

(** The [_.reduce] of [mergeDataObjects] over the sorted objects. *)
Fixpoint mergeFold (objectFileKeyPath : string) (st : mergeState)
    (sorted : list (nat * value)) : M mergeState :=
  match sorted with
  | [] => mret st
  | (i, object) :: rest =>
      let filePath := fileOf objectFileKeyPath object in
      pathObject ← pathParse filePath;
      match place st i object (propPathOf pathObject) with
      | Some st' => mergeFold objectFileKeyPath st' rest
      | None => unmodelled
      end
  end.

(** [mergeDataObjects]: the merged object, and the objects afterwards.
    When some file path is not a string, [path.parse] raises on it
    wherever the sort has put it; the sort itself is then left out. *)
Definition mergeDataObjects (objects : list value)
    (objectFileKeyPath : string) (source : value) : M (value * list value) :=
  if forallb (fun object => isString (fileOf objectFileKeyPath object)) objects then
    let sorted := sortBy (fun io => fileKey objectFileKeyPath (snd io))
                         (number 0 objects) in
    st ← mergeFold objectFileKeyPath
           {| accum := seed source; attached := []; detached := [] |} sorted;
    mret (accum st, map (fun io => finalObject st (fst io) (snd io)) (number 0 objects))
  else
    throw (TypeError "The 'path' argument must be of type string").
End Merge.

(** ** [matchObjectsToModels] *)

(** The query handed to [getModelByQuery] of [@stackbit/sdk]. *)
Record query := {
  queryFilePath : value;
  queryType : value;
  modelTypeKeyPath : string
}.

(** Its answer [{model, error}]: a model, or an error with a message. *)
Inductive queryResult : Type :=
| Matched (model : value)
| NoMatch (message : string).

(** [getModelByQuery] belongs to [@stackbit/sdk]; it is a parameter. *)
Class Sdk := {
  getModelByQuery : query -> list value -> queryResult
}.

(** The options of [matchObjectsToModels].  [objectFileKeyPath] is a
    string, as [index.js] passes it: [_.sortBy] would read an array as a
    list of sort keys, where [_.get] reads it as one path. *)
Record options := {
  pageObjectsPredicate : value -> bool;
  dataObjectsPredicate : value -> bool;
  pageLayoutKey : value;
  dataTypeKey : value;
  objectIdKeyPath : value;
  objectFileKeyPath : string;
  source : value;
  mergeDataModels : bool;
  logMatchedModels : bool
}.

(** Put the objects that the merge has left changed back in their places. *)
Fixpoint patch (objects after : list value) : list value :=
  match objects with
  | [] => []
  | object :: rest =>
      if isDataObject object then
        match after with
        | object' :: after' => object' :: patch rest after'
        | [] => object :: patch rest []
        end
      else object :: patch rest after
  end.

Section Matcher.
Context `{PathSyntax} `{LowerCase} `{Sdk}.
Variable o : options.

(** One step of the [_.reduce] that builds [modelsByObjectIds]. *)
Definition matchStep (pageModels dataModels : list value)
    (byId : list (string * value)) (object : value) : M (list (string * value)) :=
  if pageObjectsPredicate o object then
    match getModelByQuery
            {| queryFilePath := get object (VStr (objectFileKeyPath o)) VUndefined;
               queryType := get object (pageLayoutKey o) VUndefined;
               modelTypeKeyPath := "layout" |} pageModels with
    | NoMatch message => logError message;; mret byId
    | Matched model =>
        let objectId := get object (objectIdKeyPath o) VUndefined in
        mret (assignKey (toKey objectId) model byId)
    end
  else if dataObjectsPredicate o object then
    match getModelByQuery
            {| queryFilePath := get object (VStr (objectFileKeyPath o)) VUndefined;
               queryType := get object (dataTypeKey o) VUndefined;
               modelTypeKeyPath := "name" |} dataModels with
    | NoMatch message => logError message;; mret byId
    | Matched model =>
        let objectId := get object (objectIdKeyPath o) VUndefined in
        mret (assignKey (toKey objectId) model byId)
    end
  else mret byId.

Fixpoint matchPhase (pageModels dataModels : list value)
    (byId : list (string * value)) (objects : list value)
    : M (list (string * value)) :=
  match objects with
  | [] => mret byId
  | object :: rest =>
      byId' ← matchStep pageModels dataModels byId object;
      matchPhase pageModels dataModels byId' rest
  end.

(** The rows of the 'matched models:' line: [model.name] and
    [longestModelName.length] are read once per matched object. *)
Fixpoint matchedRows (longestModelName : value) (byId : list (string * value))
    : M (list (value * string)) :=
  match byId with
  | [] => mret []
  | (objectId, model) :: rest =>
      n ← prop model "name";
      _ ← prop longestModelName "length";
      rows ← matchedRows longestModelName rest;
      mret ((n, objectId) :: rows)
  end.

Definition logMatched (byId : list (string * value)) : M unit :=
  let modelNames := uniq (map (fun kv => getKey (snd kv) "name" VUndefined) byId) in
  let longestModelName := maxBySize modelNames in
  rows ← matchedRows longestModelName byId;
  ([InfoModels rows], Ok tt).

(** The function mapped over the objects once the models are known. *)
Definition annotateObject (byName byId : list (string * value))
    (object : value) : M value :=
  let objectId := get object (objectIdKeyPath o) VUndefined in
  let model := get (VObj byId) objectId VUndefined in
  if negb (truthy model) then mret object
  else
    let filePath := get object (VStr (objectFileKeyPath o)) VUndefined in
    addMetadata object model
      {| filePath := filePath; modelsByName := byName;
         dataFieldPath := []; modelFieldPath := [] |}.

Definition annotatePhase (byName byId : list (string * value))
    (objects : list value) : M (list value) :=
  mapItemsM (fun _ object => annotateObject byName byId object) 0 objects.

Definition matchObjectsToModels (objects : list value) (models : value)
    : M (list value) :=
  let byName := keyBy models "name" in
  let pageModels := filterByType models "page" in
  let dataModels := filterByType models "data" in
  log "matching files to models...";;
  byId ← matchPhase pageModels dataModels [] objects;
  ([InfoMatched (length byId) (length objects)], Ok tt);;
  (if logMatchedModels o then logMatched byId else mret tt);;
  objects ← annotatePhase byName byId objects;
  if mergeDataModels o then
    let dataObjects := List.filter isDataObject objects in
    '(mergedDataObject, dataObjects') ←
      mergeDataObjects dataObjects (objectFileKeyPath o) (source o);
    mret (patch objects dataObjects' ++ [mergedDataObject])
  else mret objects.
End Matcher.

(** ** Instances used to run the functions on concrete inputs *)

(** A stand-in for [getModelByQuery], after the resolution policy of the
    design document (4.2): when the query has a type, the candidates
    whose attribute at [modelTypeKeyPath] equals it; when it has none,
    all the candidates; exactly one must remain. *)
Definition sampleQuery (q : query) (candidates : list value) : queryResult :=
  let fitting :=
    if isNil (queryType q) then candidates
    else List.filter
           (fun m => valueEqb (getProp m (modelTypeKeyPath q)) (queryType q))
           candidates in
  match fitting with
  | [m] => Matched m
  | _ => NoMatch ("no single model for " ++ toString (queryFilePath q))
  end.

Definition sampleSdk : Sdk := {| getModelByQuery := sampleQuery |}.

(** The options that [index.js] passes, for the default keys. *)
Definition sampleOptions (merge logMatched : bool) : options :=
  {| pageObjectsPredicate :=
       fun v => isStr (getProp (getProp v "__metadata") "sourceName") "pages";
     dataObjectsPredicate :=
       fun v => isStr (getProp (getProp v "__metadata") "sourceName") "data";
     pageLayoutKey := VArr [VStr "frontmatter"; VStr "layout"];
     dataTypeKey := VStr "type";
     objectIdKeyPath := VStr "__metadata.id";
     objectFileKeyPath := "__metadata.relSourcePath";
     source := VStr "sourcebit-source-filesystem";
     mergeDataModels := merge;
     logMatchedModels := logMatched |}.

(** A parsed file as [readFiles] of [index.js] builds it. *)
Definition fileObject (sourceName id relSourcePath : string)
    (body : list (string * value)) : value :=
  VObj (("__metadata",
         VObj [("id", VStr id); ("source", VStr "sourcebit-source-filesystem");
               ("sourceName", VStr sourceName);
               ("relSourcePath", VStr relSourcePath)]) :: body).

(** ** Auxiliary notions for the proofs *)

(** The character [c] does not occur in [s]. *)
Fixpoint freeOf (c : ascii) (s : string) : bool :=
  match s with
  | EmptyString => true
  | String x s' => negb (Ascii.eqb x c) && freeOf c s'
  end.

(** The scan of [path.parse] over a stretch without separators that
    begins at index [base]: its characters are visited last to first. *)
Fixpoint scanSeg (base : nat) (s : string) (st : scanState) : scanState :=
  match s with
  | EmptyString => st
  | String c s' => scanChar c base (scanSeg (S base) s' st)
  end.

(** A path segment: not empty, without separator. *)
Definition segment (s : string) : Prop := s <> "" /\ freeOf "/" s = true.

(** A relative path: its first character is not the separator. *)
Definition relative (s : string) : Prop :=
  match s with
  | EmptyString => False
  | String c _ => Ascii.eqb c "/" = false
  end.

(** The segments of the URL path: the directories and, unless it is
    [index], the name. *)
Definition urlSegments (p : pathObject) : list string :=
  compact (split "/" (dir p))
  ++ (if String.eqb (name p) "index" then [] else [name p]).

(** ** Inputs of the examples *)

Definition heroModel : value :=
  VObj [("name", VStr "hero"); ("type", VStr "object"); ("label", VStr "Hero")].
Definition ctaModel : value :=
  VObj [("name", VStr "cta"); ("type", VStr "object")].
Definition footerModel : value :=
  VObj [("name", VStr "footer"); ("type", VStr "object")].

(** A field of type [model] with [models: ["hero", "cta"]]. *)
Definition sectionField : value :=
  VObj [("name", VStr "section"); ("type", VStr "model");
        ("models", VArr [VStr "hero"; VStr "cta"])].

Definition sectionContext : context :=
  {| filePath := VStr "index.md";
     modelsByName := keyBy (VArr [heroModel; ctaModel; footerModel]) "name";
     dataFieldPath := [VStr "section"];
     modelFieldPath := [VStr "page"; VStr "fields"; VStr "section"] |}.

(** A file [post.md] whose [__metadata] already has a [modelName]. *)
Definition staleObject : value :=
  VObj [("title", VStr "a");
        ("__metadata", VObj [("id", VStr "post.md"); ("modelName", VStr "old")])].

Definition postModel : value :=
  VObj [("name", VStr "post"); ("type", VStr "data")].

Definition rootContext (file : string) (byName : list (string * value)) : context :=
  {| filePath := VStr file; modelsByName := byName;
     dataFieldPath := []; modelFieldPath := [] |}.

(** ** Auxiliary notions for the merge *)

Definition mapOutcome {A B} (f : A -> B) (m : M A) : M B :=
  match m with
  | (l, Ok a) => (l, Ok (f a))
  | (l, Throw e) => (l, Throw e)
  | (l, Unmodelled) => (l, Unmodelled)
  end.

Section MergeNotions.
Context `{PathSyntax}.

(** The accumulator of the fold alone: [_.set] for each object in turn. *)
Fixpoint foldSet (objectFileKeyPath : string) (tree : value) (objects : list value)
  : M value :=
  match objects with
  | [] => mret tree
  | object :: rest =>
      pathObject ← pathParse (fileOf objectFileKeyPath object);
      match set tree (propPathOf pathObject) object with
      | Some tree' => foldSet objectFileKeyPath tree' rest
      | None => unmodelled
      end
  end.
End MergeNotions.

(** Two key paths part ways: neither is a prefix of the other. *)
Fixpoint diverges (p q : list string) : bool :=
  match p, q with
  | a :: p', b :: q' => if String.eqb a b then diverges p' q' else true
  | _, _ => false
  end.


(** The metadata that [mergeDataObjects] seeds the accumulator with. *)
Definition seedMetadata (source : value) : value :=
  VObj [("id", VStr (toString source ++ ":data")); ("source", source)].

(** A data file named [__metadata.yaml], annotated as data. *)
Definition reservedNameObject : value :=
  VObj [("__metadata",
         VObj [("id", VStr "data/__metadata.yaml"); ("sourceName", VStr "data");
               ("relSourcePath", VStr "__metadata.yaml");
               ("modelType", VStr "data")]);
        ("title", VStr "t")].

Definition relSourcePathKey : string := "__metadata.relSourcePath".
Definition sourceName : value := VStr "sourcebit-source-filesystem".




Definition aliceYaml : value :=
  VObj [("__metadata",
         VObj [("id", VStr "data/team/alice.yaml"); ("sourceName", VStr "data");
               ("relSourcePath", VStr "team/alice.yaml");
               ("modelType", VStr "data")]);
        ("n", VNum 2)].

(** ** Auxiliary notions for the matcher *)

Section MatcherNotions.
Context `{PathSyntax} `{LowerCase} `{Sdk}.
Variable o : options.

Definition idOf (object : value) : value :=
  get object (objectIdKeyPath o) VUndefined.

(** The answer of [getModelByQuery] for an object, if it is queried. *)
Definition queryFor (pageModels dataModels : list value) (object : value)
  : option queryResult :=
  if pageObjectsPredicate o object then
    Some (getModelByQuery
            {| queryFilePath := get object (VStr (objectFileKeyPath o)) VUndefined;
               queryType := get object (pageLayoutKey o) VUndefined;
               modelTypeKeyPath := "layout" |} pageModels)
  else if dataObjectsPredicate o object then
    Some (getModelByQuery
            {| queryFilePath := get object (VStr (objectFileKeyPath o)) VUndefined;
               queryType := get object (dataTypeKey o) VUndefined;
               modelTypeKeyPath := "name" |} dataModels)
  else None.

(** What the match phase records for an object: its id key and model. *)
Definition resolve (pageModels dataModels : list value) (object : value)
  : option (string * value) :=
  match queryFor pageModels dataModels object with
  | Some (Matched model) => Some (toKey (idOf object), model)
  | _ => None
  end.

Fixpoint resolved (pageModels dataModels : list value) (objects : list value)
  : list (string * value) :=
  match objects with
  | [] => []
  | object :: rest =>
      match resolve pageModels dataModels object with
      | Some kv => kv :: resolved pageModels dataModels rest
      | None => resolved pageModels dataModels rest
      end
  end.

(** [modelsByObjectIds] as the match phase leaves it. *)
Definition recorded (pageModels dataModels : list value) (objects : list value)
  : list (string * value) :=
  fold_left (fun acc kv => assignKey (fst kv) (snd kv) acc)
            (resolved pageModels dataModels objects) [].

(** [_.get(modelsByObjectIds, objectId)] *)
Definition modelFor (byId : list (string * value)) (object : value) : value :=
  get (VObj byId) (idOf object) VUndefined.

(** The options [addMetadata] is called with for a file. *)
Definition fileContext (byName : list (string * value)) (object : value) : context :=
  {| filePath := get object (VStr (objectFileKeyPath o)) VUndefined;
     modelsByName := byName; dataFieldPath := []; modelFieldPath := [] |}.
End MatcherNotions.

(** The path that lodash derives from an id that is not itself a key. *)
Definition idPath `{PathSyntax} (objectId : value) : list string :=
  castPath objectId (VObj []).

(** The first key of that path is not the name of an inherited member:
    looking the id up in a map that has no such key finds nothing. *)
Definition plainId `{PathSyntax} (objectId : value) : bool :=
  match idPath objectId with
  | k :: _ => negb (inheritedKey k)
  | [] => true
  end.

(** The errors that the match phase logs, in order. *)
Definition matchLog `{PathSyntax} `{Sdk} (o : options)
    (pageModels dataModels : list value) (objects : list value) : list diag :=
  flat_map (fun object =>
              match queryFor o pageModels dataModels object with
              | Some (NoMatch message) => [Error message]
              | _ => []
              end) objects.

(** ** Inputs of the matcher examples *)

(** A page model with a [reference] field, and a data model. *)
Definition pagePostModel : value :=
  VObj [("name", VStr "post"); ("type", VStr "page"); ("layout", VStr "post");
        ("fields", VArr [VObj [("name", VStr "author"); ("type", VStr "reference")]])].

Definition personModel : value :=
  VObj [("name", VStr "person"); ("type", VStr "data")].

Definition sampleModels : value := VArr [pagePostModel; personModel].

(** A schema without a data model: no data file can get a model. *)
Definition pageModelsOnly : value := VArr [pagePostModel].

(** The file [content/a.md] read once from a source named [data], where
    its type [unknown] is the name of no data model, and once from a
    source named [pages]. *)
Definition sharedAsData : value :=
  fileObject "data" "content/a.md" "a.md"
    [("frontmatter", VObj [("layout", VStr "post")]); ("type", VStr "unknown");
     ("title", VStr "A")].

Definition sharedAsPage : value :=
  fileObject "pages" "content/a.md" "a.md"
    [("frontmatter", VObj [("layout", VStr "post")]); ("title", VStr "A")].

(** A page whose [author] reference carries the type ["post.name"]. *)
Definition dottedTypePage : value :=
  fileObject "pages" "content/b.md" "b.md"
    [("frontmatter", VObj [("layout", VStr "post")]);
     ("author", VObj [("type", VStr "post.name")])].

(** A data file that fits no model. *)
Definition strayData : value :=
  fileObject "data" "data/stray.yaml" "stray.yaml" [("type", VStr "unknown")].

(** The same file, read from [data] where the model [person] fits it. *)
Definition sharedAsPerson : value :=
  fileObject "data" "content/a.md" "a.md"
    [("frontmatter", VObj [("layout", VStr "post")]); ("type", VStr "person")].

(** [sharedAsPerson] annotated with the page model [post]. *)
Definition sharedAsPersonAnnotated : value :=
  VObj [("__metadata",
         VObj [("id", VStr "content/a.md");
               ("source", VStr "sourcebit-source-filesystem");
               ("sourceName", VStr "data"); ("relSourcePath", VStr "a.md");
               ("modelType", VStr "page"); ("modelName", VStr "post");
               ("urlPath", VStr "/a")]);
        ("frontmatter", VObj [("layout", VStr "post")]);
        ("type", VStr "person")].

(** [sharedAsPage] annotated with the page model [post]. *)
Definition sharedAsPageAnnotated : value :=
  VObj [("__metadata",
         VObj [("id", VStr "content/a.md");
               ("source", VStr "sourcebit-source-filesystem");
               ("sourceName", VStr "pages"); ("relSourcePath", VStr "a.md");
               ("modelType", VStr "page"); ("modelName", VStr "post");
               ("urlPath", VStr "/a")]);
        ("frontmatter", VObj [("layout", VStr "post")]);
        ("title", VStr "A")].

(** [sharedAsData] annotated with the page model [post]. *)
Definition sharedAsDataAnnotated : value :=
  VObj [("__metadata",
         VObj [("id", VStr "content/a.md");
               ("source", VStr "sourcebit-source-filesystem");
               ("sourceName", VStr "data"); ("relSourcePath", VStr "a.md");
               ("modelType", VStr "page"); ("modelName", VStr "post");
               ("urlPath", VStr "/a")]);
        ("frontmatter", VObj [("layout", VStr "post")]);
        ("type", VStr "unknown");
        ("title", VStr "A")].

(** ** Auxiliary notions for idempotence *)

Fixpoint distinct (keys : list string) : bool :=
  match keys with
  | [] => true
  | k :: rest => negb (existsb (String.eqb k) rest) && distinct rest
  end.

(** The invariant of the representation: the keys of an object are
    distinct, here and in everything below. *)
Fixpoint wellFormed (v : value) : bool :=
  match v with
  | VArr items => forallb wellFormed items
  | VObj props =>
      distinct (map fst props) && forallb (fun kv => wellFormed (snd kv)) props
  | _ => true
  end.

(** Somewhere in [v] there is an object whose [name] is ["__metadata"]:
    for a model or a schema index, a field declaration of that name. *)
Fixpoint declaresMetadata (v : value) : bool :=
  match v with
  | VArr items => existsb declaresMetadata items
  | VObj props =>
      matchesProp "name" "__metadata" v
      || existsb (fun kv => declaresMetadata (snd kv)) props
  | _ => false
  end.

(** Two values that [toString], [castPath] and the tests on [null] and
    [undefined] cannot tell apart. *)
Definition keyLike (v v' : value) : Prop :=
  match v, v' with
  | VArr xs, VArr ys =>
      Forall2 (fun x y => toString x = toString y /\ isNil x = isNil y) xs ys
  | VObj _, VObj _ => True
  | VArr _, _ | _, VArr _ | VObj _, _ | _, VObj _ => False
  | _, _ => v = v'
  end.

Definition akin (v v' : value) : Prop :=
  toString v = toString v' /\ isNil v = isNil v' /\ keyLike v v'.

(** A model with a field named [__metadata], and an object without one. *)
Definition metadataFieldModel : value :=
  VObj [("name", VStr "m"); ("type", VStr "object");
        ("fields", VArr [VObj [("name", VStr "__metadata"); ("type", VStr "object")]])].

Section Stable.
Context `{PathSyntax} `{LowerCase}.

(** Dispatching a field declaration on the result of dispatching it
    gives that result again. *)
Definition fieldStable (v : value) : Prop :=
  wellFormed v = true ->
  forall fieldModel c log r,
    declaresMetadata fieldModel = false ->
    declaresMetadata (VObj (modelsByName c)) = false ->
    mapObjectField v fieldModel c = (log, Ok r) ->
    akin v r /\ exists log', mapObjectField r fieldModel c = (log', Ok r).

(** Annotating the result of an annotation gives that result again. *)
Definition objectStable (v : value) : Prop :=
  wellFormed v = true ->
  forall model c log r,
    declaresMetadata model = false ->
    declaresMetadata (VObj (modelsByName c)) = false ->
    addMetadata v model c = (log, Ok r) ->
    akin v r /\ exists log', addMetadata r model c = (log', Ok r).
End Stable.

(** ** [index.js]

    [transform] hands the files of the plugin context to
    [matchObjectsToModels] when a configuration was loaded, and appends
    what comes back to the objects of [data].  [convertPathToPosix] is
    modelled with the separator of the platform ([path.sep]) as a
    parameter.  [bootstrap], [readFiles] and [loadStackbitYaml] read the
    file system and are left out. *)

Definition SOURCE : string := "sourcebit-source-filesystem".

(** [convertPathToPosix]: [p.split] exists on strings only. *)
Definition convertPathToPosix (sep : ascii) (p : value) : M value :=
  if Ascii.eqb sep "/" then mret p
  else if negb (truthy p) then mret p
  else match p with
       | VStr s => mret (VStr (join "/" (split sep s)))
       | _ => throw (TypeError "p.split is not a function")
       end.

(** [_.matches({__metadata: {k: lit}})]: a partial deep comparison, so
    [__metadata] must itself be an object. *)
Definition matchesMetadata (k lit : string) (object : value) : bool :=
  match object with
  | VObj props =>
      match lookup "__metadata" props with
      | Some (VObj meta) =>
          match lookup k meta with
          | Some t => isStr t lit
          | None => false
          end
      | _ => false
      end
  | _ => false
  end.

(** The options object that [transform] builds. *)
Definition transformOptions (config pluginOptions : value) : options :=
  {| pageObjectsPredicate := matchesMetadata "sourceName" "pages";
     dataObjectsPredicate := matchesMetadata "sourceName" "data";
     pageLayoutKey :=
       VArr [VStr "frontmatter"; getKey config "pageLayoutKey" (VStr "layout")];
     dataTypeKey := getKey config "objectTypeKey" (VStr "type");
     objectIdKeyPath := VStr "__metadata.id";
     objectFileKeyPath := "__metadata.relSourcePath";
     source := VStr SOURCE;
     mergeDataModels := truthy (getKey pluginOptions "mergeDataModels" (VBool true));
     logMatchedModels := truthy (getKey pluginOptions "logMatchedModels" (VBool false)) |}.

(** What [Array.prototype.concat] appends for an argument: the elements
    of an array, and any other value as one element. *)
Definition spread (arg : value) : list value :=
  match arg with
  | VArr ys => ys
  | _ => [arg]
  end.

(** [receiver.concat(arg)]: the method of arrays and of strings. *)
Definition objectsConcat (receiver arg : value) : M value :=
  match receiver with
  | VArr xs => mret (VArr (xs ++ spread arg))
  | VStr s => mret (VStr (s ++ toString arg))
  | VUndefined | VNull => throw (TypeError "Cannot read property 'concat'")
  | _ => throw (TypeError "data.objects.concat is not a function")
  end.

Section Transform.
Context `{PathSyntax} `{LowerCase} `{Sdk}.

(** The objects that [transform] appends: the files, matched to the
    models when [context.config] is set.  The plugin context is read
    and not given back: what the merge writes into values that the
    objects share with [context.files] shows in the objects returned,
    not in a later reading of the context. *)
Definition transformed (context pluginOptions : value) : M value :=
  files ← prop context "files";
  config ← prop context "config";
  if truthy config then
    models ← prop config "models";
    objects ← matchObjectsToModels (transformOptions config pluginOptions)
                (elements files) models;
    mret (VArr objects)
  else mret files.

(** [transform] *)
Definition transform (data context pluginOptions : value) : M value :=
  objects ← transformed context pluginOptions;
  existing ← prop data "objects";
  all ← objectsConcat existing objects;
  mret (VObj (assign (assign [] data) (VObj [("objects", all)]))).
End Transform.

(** ** Auxiliary notions for the further properties *)

(** [v] without its [__metadata] properties, at every depth. *)
Fixpoint withoutMetadata (v : value) : value :=
  match v with
  | VArr items => VArr (map withoutMetadata items)
  | VObj props =>
      VObj (List.filter (fun kv => negb (String.eqb (fst kv) "__metadata"))
              (map (fun kv => (fst kv, withoutMetadata (snd kv))) props))
  | _ => v
  end.

(** A run that ends in an exception. *)
Definition raises {A} (m : M A) : Prop := exists l e, m = (l, Throw e).

(** A run all of whose steps are modelled. *)
Definition modelled {A} (m : M A) : Prop := snd m <> Unmodelled.

(** A key path that [_.set] does not follow: the empty path, and a path
    whose first key is [__proto__], [constructor] or [prototype]. *)
Definition leftOut (path : list string) : bool :=
  match path with
  | [] => true
  | k :: _ => forbiddenKey k
  end.

(** [s] with every [a] replaced by [b]. *)
Fixpoint replaceChar (a b : ascii) (s : string) : string :=
  match s with
  | EmptyString => EmptyString
  | String c s' => String (if Ascii.eqb c a then b else c) (replaceChar a b s')
  end.

(** A diagnostic of the annotation run with the options [c]: an error
    with a location that names the file of [c] and a data path that
    begins with the data path of [c]. *)
Definition located (c : context) (d : diag) : Prop :=
  match d with
  | ErrorAt _ loc => locFile loc = filePath c /\ dataFieldPath c `prefix_of` locData loc
  | _ => False
  end.

(** ** Inputs of the further examples *)

(** A page read from [pages] whose [__metadata] has no [relSourcePath]. *)
Definition pathlessPage : value :=
  VObj [("__metadata", VObj [("id", VStr "content/c.md"); ("sourceName", VStr "pages")]);
        ("frontmatter", VObj [("layout", VStr "post")])].


(** A field of type [model] that lists the one model [hero]. *)
Definition heroField : value :=
  VObj [("name", VStr "banner"); ("type", VStr "model"); ("models", VArr [VStr "hero"])].

Definition authorField : value :=
  VObj [("name", VStr "author"); ("type", VStr "reference")].

(** Data files named [constructor.yaml], [items/2.yaml] and [team.yaml]. *)
Definition constructorFile : value :=
  fileObject "data" "data/constructor.yaml" "constructor.yaml" [("title", VStr "c")].

Definition numberedFile : value :=
  fileObject "data" "data/items/2.yaml" "items/2.yaml" [("title", VStr "third")].

Definition teamProps : list (string * value) :=
  [("__metadata",
    VObj [("id", VStr "data/team.yaml"); ("sourceName", VStr "data");
          ("relSourcePath", VStr "team.yaml"); ("modelType", VStr "data")]);
   ("title", VStr "Team")].

(** The data and the plugin context of a call of [transform]. *)
Definition pluginData : list (string * value) :=
  [("objects", VArr [VStr "earlier"]); ("models", VArr [])].

Definition pluginContext : value :=
  VObj [("files", VArr [sharedAsPage]); ("config", VObj [("models", sampleModels)])].

(** What [transform] returns for them, with no plugin options. *)
Definition pluginResult : value :=
  VObj [("objects", VArr [VStr "earlier"; sharedAsPageAnnotated; seed sourceName]);
        ("models", VArr [])].

(** What it returns with the option [mergeDataModels: false]. *)
Definition pluginResultUnmerged : value :=
  VObj [("objects", VArr [VStr "earlier"; sharedAsPageAnnotated]);
        ("models", VArr [])].

(** What holds of the state of the merge once the objects [done] are in:
    every object still part of the accumulator is found at its key
    path, and every object no longer part of it was put aside as it is. *)
Definition settled `{PathSyntax} (kp : string) (done : list (nat * value))
    (st : mergeState) : Prop :=
  isObject (accum st) = true
  /\ (forall i p, In (i, p) (attached st) ->
        reachesEnd p = true
        /\ exists object, In (i, object) done /\ p = keyPathOf kp object
                          /\ walk (accum st) p = object)
  /\ (forall i v, In (i, v) (detached st) -> In (i, v) done).

(** * Properties *)

(** ** Runs *)

Lemma bind_ok {A B} (m : M A) (f : A -> M B) l b :
  bind m f = (l, Ok b) ->
  exists l1 a l2, m = (l1, Ok a) /\ f a = (l2, Ok b) /\ l = l1 ++ l2.
Proof.
  destruct m as [l1 [a | e |]]; simpl; try congruence.
  destruct (f a) as [l2 r] eqn:Hf. intros [= <- ->]. eauto 6.
Qed.

Lemma bind_ret_l {A B} (a : A) (f : A -> M B) : bind (ret a) f = f a.
Proof. unfold ret, bind. destruct (f a); reflexivity. Qed.

(** ** Strings *)

Lemma append_nil_r (s : string) : (s ++ "")%string = s.
Proof. induction s; simpl; congruence. Qed.

Lemma append_assoc (a b c : string) : ((a ++ b) ++ c)%string = (a ++ b ++ c)%string.
Proof. induction a; simpl; congruence. Qed.

Lemma length_append (a b : string) :
  String.length (a ++ b) = String.length a + String.length b.
Proof. induction a; simpl; congruence. Qed.

Lemma get_append_here (a : string) (c : ascii) (b : string) :
  String.get (String.length a) (a ++ String c b) = Some c.
Proof. induction a; simpl; auto. Qed.

Lemma substring_append_skip (a b : string) (n : nat) :
  substring (String.length a) n (a ++ b) = substring 0 n b.
Proof. induction a; simpl; auto. Qed.

Lemma substring_append_take (a b : string) :
  substring 0 (String.length a) (a ++ b) = a.
Proof.
  induction a; simpl.
  - destruct b; reflexivity.
  - congruence.
Qed.

Lemma slice_middle (a b c : string) :
  slice (a ++ b ++ c) (String.length a) (String.length a + String.length b) = b.
Proof.
  unfold slice. replace (String.length a + String.length b - String.length a)
    with (String.length b) by lia.
  rewrite substring_append_skip. apply substring_append_take.
Qed.

Lemma slice_front (a c : string) : slice (a ++ c) 0 (String.length a) = a.
Proof.
  unfold slice. rewrite Nat.sub_0_r. apply substring_append_take.
Qed.

Lemma freeOf_append c a b :
  freeOf c (a ++ b) = freeOf c a && freeOf c b.
Proof. induction a; simpl; [reflexivity|]. rewrite IHa. apply andb_assoc. Qed.

Lemma split_free c s : freeOf c s = true -> split c s = [s].
Proof.
  induction s as [|x s IH]; simpl; [reflexivity|].
  intros [Hx Hs]%andb_true_iff. apply negb_true_iff in Hx. rewrite Hx.
  rewrite (IH Hs). reflexivity.
Qed.

Lemma split_append c a b :
  freeOf c a = true ->
  split c (a ++ String c b) = a :: split c b.
Proof.
  induction a as [|x a IH]; simpl.
  - rewrite Ascii.eqb_refl. reflexivity.
  - intros [Hx Ha]%andb_true_iff. apply negb_true_iff in Hx. rewrite Hx.
    rewrite (IH Ha). reflexivity.
Qed.

Lemma join_cons sep p q rest :
  join sep (p :: q :: rest) = (p ++ sep ++ join sep (q :: rest))%string.
Proof. reflexivity. Qed.

Lemma split_join (segs : list string) :
  segs <> [] -> Forall (fun s => freeOf "/" s = true) segs ->
  split "/" (join "/" segs) = segs.
Proof.
  induction segs as [|p [|q rest] IH]; intros Hne Hall; [congruence| |].
  - simpl. apply split_free. by inversion Hall.
  - rewrite join_cons. inversion Hall as [|? ? Hp Hrest]; subst.
    change ("/" ++ join "/" (q :: rest))%string
      with (String "/" (join "/" (q :: rest))).
    rewrite split_append by assumption. f_equal. apply IH; [congruence|assumption].
Qed.

Lemma join_snoc (segs : list string) (b : string) :
  segs <> [] ->
  join "/" (segs ++ [b]) = (join "/" segs ++ "/" ++ b)%string.
Proof.
  induction segs as [|p [|q rest] IH]; intros Hne; [congruence| |].
  - reflexivity.
  - change ((p :: q :: rest) ++ [b]) with (p :: q :: (rest ++ [b])).
    rewrite !join_cons. rewrite append_assoc. f_equal.
    change ("/" ++ join "/" (q :: rest ++ [b]))%string
      with (String "/" (join "/" ((q :: rest) ++ [b]))).
    rewrite IH by congruence. simpl. reflexivity.
Qed.

Lemma compact_segments (segs : list string) :
  Forall (fun s => s <> "") segs -> compact segs = segs.
Proof.
  induction 1 as [|s segs Hs _ IH]; [reflexivity|].
  unfold compact in *. simpl. apply String.eqb_neq in Hs. rewrite Hs. simpl.
  by rewrite IH.
Qed.

Lemma compact_app (a b : list string) : compact (a ++ b) = compact a ++ compact b.
Proof. unfold compact. apply List.filter_app. Qed.

(** ** [path.parse] *)

Lemma scan_segment (seg pre rest : string) (st : scanState) (start : nat) :
  freeOf "/" seg = true -> start <= String.length pre ->
  scan (pre ++ seg ++ rest) start (String.length pre + String.length seg) st
  = scan (pre ++ seg ++ rest) start (String.length pre)
         (scanSeg (String.length pre) seg st).
Proof.
  revert pre st. induction seg as [|c seg IH]; intros pre st Hfree Hstart.
  - simpl. by rewrite Nat.add_0_r.
  - simpl in Hfree. apply andb_true_iff in Hfree as [Hc Hseg].
    apply negb_true_iff in Hc.
    assert (Hpath : (pre ++ String c seg ++ rest)%string
                    = ((pre ++ String c "") ++ seg ++ rest)%string).
    { rewrite append_assoc. reflexivity. }
    assert (Hlen : String.length (pre ++ String c "") = S (String.length pre)).
    { rewrite length_append. simpl. lia. }
    replace (String.length pre + String.length (String c seg))
      with (String.length (pre ++ String c "") + String.length seg)
      by (rewrite Hlen; simpl; lia).
    rewrite Hpath, IH by (auto; lia). rewrite Hlen. rewrite <- Hpath.
    cbn [scan]. replace (String.length pre <? start)%nat with false
      by (symmetry; apply Nat.ltb_ge; lia).
    change (String c seg ++ rest)%string with (String c (seg ++ rest)).
    rewrite get_append_here, Hc. reflexivity.
Qed.

Lemma scan_whole (s : string) (st : scanState) :
  freeOf "/" s = true -> scan s 0 (String.length s) st = scanSeg 0 s st.
Proof.
  intros Hfree.
  pose proof (scan_segment s "" "" st 0 Hfree (Nat.le_0_l _)) as Hs.
  simpl in Hs. rewrite append_nil_r in Hs. exact Hs.
Qed.

Lemma scanSeg_app (a b : string) (base : nat) (st : scanState) :
  scanSeg base (a ++ b) st
  = scanSeg base a (scanSeg (base + String.length a) b st).
Proof.
  revert base. induction a as [|c a IH]; intros base; simpl.
  - by rewrite Nat.add_0_r.
  - rewrite IH. do 3 f_equal. lia.
Qed.

(** The extension: no dot, so only the end of the base name is recorded. *)
Lemma scanSeg_extension (e : string) (base : nat) :
  e <> "" -> freeOf "." e = true ->
  scanSeg base e scanInit
  = {| startDot := None; startPart := 0;
       endIdx := Some (base + String.length e);
       matchedSlash := false; preDotState := 0 |}.
Proof.
  revert base. induction e as [|c e IH]; intros base Hne Hfree; [congruence|].
  simpl in Hfree. apply andb_true_iff in Hfree as [Hc He].
  apply negb_true_iff in Hc. simpl.
  destruct e as [|c' e'].
  - simpl. unfold scanChar. simpl. rewrite Hc. reflexivity.
  - rewrite IH by (auto; congruence). unfold scanChar. simpl. rewrite Hc.
    simpl. f_equal; try (f_equal; lia).
Qed.

(** What lies left of the last dot leaves all but [preDotState] alone. *)
Lemma scanSeg_before_dot (n : string) (base : nat) (st : scanState) d e :
  startDot st = Some d -> endIdx st = Some e ->
  let st' := scanSeg base n st in
  startDot st' = Some d /\ endIdx st' = Some e
  /\ startPart st' = startPart st /\ matchedSlash st' = matchedSlash st
  /\ (n <> "" -> preDotState st' <> 0%Z).
Proof.
  intros Hd He. revert base. induction n as [|c n IH]; intros base; simpl.
  - repeat split; auto; congruence.
  - destruct (IH (S base)) as (Hd' & He' & Hp' & Hm' & _).
    unfold scanChar. rewrite He'.
    destruct (Ascii.eqb c "."); rewrite Hd'; simpl; repeat split; auto; lia.
Qed.

(** A base name [n.e]: the name is [n]. *)
Lemma scanSeg_base (n e : string) (base : nat) :
  n <> "" -> e <> "" -> freeOf "." e = true ->
  let st := scanSeg base (n ++ "." ++ e) scanInit in
  startDot st = Some (base + String.length n)
  /\ endIdx st = Some (base + String.length n + 1 + String.length e)
  /\ startPart st = 0 /\ matchedSlash st = false /\ preDotState st <> 0%Z.
Proof.
  intros Hn He Hfree. cbn zeta. rewrite scanSeg_app.
  change ("." ++ e)%string with (String "." e). cbn [scanSeg].
  rewrite scanSeg_extension by assumption.
  match goal with |- context [scanSeg base n ?s] => set (st0 := s) end.
  destruct (scanSeg_before_dot n base st0 (base + String.length n)
              (base + String.length n + 1 + String.length e))
    as (Hd & Hend & Hp & Hm & Hpre).
  - reflexivity.
  - unfold st0, scanChar. simpl. f_equal. lia.
  - repeat split; auto.
Qed.

Lemma segment_relative (n : string) : segment n -> relative n.
Proof.
  intros [Hne Hfree]. destruct n as [|c n]; [congruence|]. simpl in *.
  apply andb_true_iff in Hfree as [Hc _]. by apply negb_true_iff in Hc.
Qed.

Lemma parseString_relative (path : string) :
  relative path -> parseString path = parseNonEmpty path false.
Proof. destruct path as [|c0 tail]; [contradiction|]. simpl. by intros ->. Qed.

Lemma relative_append (a b : string) : relative a -> relative (a ++ b).
Proof. destruct a; [contradiction|]. simpl. auto. Qed.

Lemma extension_not_last (n e : string) (base : nat) :
  e <> "" ->
  (base + String.length n =? base + String.length n + 1 + String.length e - 1)%nat
  = false.
Proof. intros He. apply Nat.eqb_neq. destruct e; [congruence|]. simpl. lia. Qed.

Lemma parse_base (n e : string) :
  segment n -> e <> "" -> freeOf "/" e = true -> freeOf "." e = true ->
  parseString (n ++ "." ++ e) = {| dir := ""; name := n |}.
Proof.
  intros Hseg He Hslash Hdot. pose proof (segment_relative n Hseg) as Hrel.
  destruct Hseg as [Hn Hfree].
  assert (Hpath : freeOf "/" (n ++ "." ++ e) = true).
  { rewrite freeOf_append, Hfree. simpl. exact Hslash. }
  destruct (scanSeg_base n e 0 Hn He Hdot) as (Hd & Hend & Hp & Hm & Hpre).
  rewrite parseString_relative by (by apply relative_append).
  unfold parseNonEmpty. rewrite scan_whole by assumption.
  cbn zeta. rewrite Hd, Hend, Hp. apply Z.eqb_neq in Hpre. rewrite Hpre.
  rewrite extension_not_last by assumption.
  rewrite andb_false_r, andb_false_l. simpl. f_equal. apply slice_front.
Qed.

Lemma parse_dir (d n e : string) :
  relative d -> segment n -> e <> "" ->
  freeOf "/" e = true -> freeOf "." e = true ->
  parseString (d ++ "/" ++ n ++ "." ++ e) = {| dir := d; name := n |}.
Proof.
  intros Hrel Hseg He Hslash Hdot. destruct Hseg as [Hn Hfree].
  rewrite parseString_relative by (by apply relative_append).
  set (pre := (d ++ "/")%string). set (base := (n ++ "." ++ e)%string).
  assert (Hbase : freeOf "/" base = true).
  { unfold base. rewrite freeOf_append, Hfree. simpl. exact Hslash. }
  assert (Hpre : String.length pre = S (String.length d)).
  { unfold pre. rewrite length_append. simpl. lia. }
  assert (Hpath : (d ++ "/" ++ base)%string = (pre ++ base ++ "")%string).
  { unfold pre. rewrite append_nil_r, append_assoc. reflexivity. }
  destruct (scanSeg_base n e (String.length pre) Hn He Hdot)
    as (Hd & Hend & Hp & Hm & Hpd).
  fold base in Hd, Hend, Hp, Hm, Hpd.
  assert (Hscan : scan (d ++ "/" ++ base) 0 (String.length (d ++ "/" ++ base)) scanInit
                  = {| startDot := Some (String.length pre + String.length n);
                       startPart := String.length d + 1;
                       endIdx := Some (String.length pre + String.length n + 1
                                       + String.length e);
                       matchedSlash := false;
                       preDotState := preDotState (scanSeg (String.length pre) base scanInit) |}).
  { rewrite Hpath at 2. rewrite !length_append. simpl String.length at 3.
    rewrite Nat.add_0_r. rewrite Hpath.
    rewrite scan_segment by (auto; lia). rewrite Hpre. cbn [scan]. simpl "<?".
    rewrite <- Hpath. change ("/" ++ base)%string with (String "/" base).
    rewrite get_append_here. simpl Ascii.eqb. cbn iota.
    rewrite <- Hpre, Hm, Hd, Hend. reflexivity. }
  unfold parseNonEmpty. rewrite Hscan. cbn zeta.
  cbn [startDot endIdx startPart preDotState].
  apply Z.eqb_neq in Hpd. rewrite Hpd.
  rewrite extension_not_last by assumption.
  rewrite andb_false_r, andb_false_l.
  replace (String.length d + 1 =? 0)%nat with false
    by (symmetry; apply Nat.eqb_neq; lia).
  replace (0 <? String.length d + 1)%nat with true
    by (symmetry; apply Nat.ltb_lt; lia).
  simpl. f_equal.
  - replace (String.length d + 1 - 1) with (String.length d) by lia.
    apply slice_front.
  - replace (String.length d + 1) with (String.length pre) by lia.
    change (d ++ String "/" base)%string with (d ++ "/" ++ base)%string.
    rewrite Hpath, append_nil_r. unfold base. apply slice_middle.
Qed.

Lemma join_relative (dirs : list string) :
  dirs <> [] -> Forall segment dirs -> relative (join "/" dirs).
Proof.
  destruct dirs as [|p [|q rest]]; intros Hne Hall; [congruence| |].
  - simpl. apply segment_relative. by inversion Hall.
  - rewrite join_cons. apply relative_append, segment_relative. by inversion Hall.
Qed.

(** The parse of [dirs/n.e]. *)
Lemma parse_segments (dirs : list string) (n e : string) :
  Forall segment dirs -> segment n -> e <> "" ->
  freeOf "/" e = true -> freeOf "." e = true ->
  let p := parseString (join "/" (dirs ++ [(n ++ "." ++ e)%string])) in
  compact (split "/" (dir p)) = dirs /\ name p = n.
Proof.
  intros Hdirs Hn He Hslash Hdot. cbn zeta.
  destruct dirs as [|d0 dirs'].
  - change (join "/" ([] ++ [(n ++ "." ++ e)%string])) with (n ++ "." ++ e)%string.
    rewrite parse_base by assumption. simpl. auto.
  - rewrite join_snoc by congruence.
    rewrite parse_dir by (auto using join_relative). cbn [dir name].
    split; [|reflexivity].
    rewrite split_join; [|congruence|].
    + apply compact_segments. eapply Forall_impl; [exact Hdirs|].
      by intros s [Hs _].
    + eapply Forall_impl; [exact Hdirs|]. by intros s [_ Hs].
Qed.

Section UrlPath.
Context `{LowerCase}.

Lemma urlPathFromFilePath_string (p : string) :
  urlPathFromFilePath (VStr p)
  = ([], Ok ("/" ++ toLowerCase (join "/" (urlSegments (parseString p))))%string).
Proof.
  unfold urlPathFromFilePath, urlSegments. simpl.
  destruct (String.eqb (name (parseString p)) "index"); simpl;
    [rewrite app_nil_r|]; reflexivity.
Qed.

(** C5.  The URL path of a file path is always produced (no exception,
    nothing logged): it is ["/"] followed by the lower-cased ["/"]-join of
    the directory segments and of the extension-stripped base name, the
    latter left out when it is [index].  For a relative path [dirs/n.e]
    these segments are [dirs] and [n]; the three paths of the design
    document give ["/blog/post-1"], ["/about"] and ["/"]. *)
Theorem urlPathFromFilePath_derivation :
  (forall p : string,
     urlPathFromFilePath (VStr p)
     = ([], Ok ("/" ++ toLowerCase (join "/" (urlSegments (parseString p))))%string))
  /\ (forall (dirs : list string) (n e : string),
        Forall segment dirs -> segment n -> e <> "" ->
        freeOf "/" e = true -> freeOf "." e = true ->
        urlPathFromFilePath (VStr (join "/" (dirs ++ [(n ++ "." ++ e)%string])))
        = ([], Ok ("/" ++ toLowerCase
                     (join "/" (dirs ++ if String.eqb n "index" then [] else [n])))%string))
  /\ urlPathFromFilePath (VStr "blog/post-1/index.md") = ([], Ok "/blog/post-1")
  /\ urlPathFromFilePath (VStr "about.md") = ([], Ok "/about")
  /\ urlPathFromFilePath (VStr "index.md") = ([], Ok "/").
Proof.
  split; [exact urlPathFromFilePath_string|].
  split;
    [|repeat split; rewrite urlPathFromFilePath_string;
      rewrite toLowerCase_ascii by reflexivity; reflexivity].
  intros dirs n e Hdirs Hn He Hslash Hdot.
  rewrite urlPathFromFilePath_string. unfold urlSegments.
  destruct (parse_segments dirs n e Hdirs Hn He Hslash Hdot) as [-> ->].
  reflexivity.
Qed.

End UrlPath.

Lemma urlPathFromFilePath_derivation_witness :
  @urlPathFromFilePath asciiLowerCase
    (VStr (join "/" (["Docs"; "Guide"] ++ [("Intro" ++ "." ++ "md")%string])))
  = ([], Ok "/docs/guide/intro").
Proof.
  destruct (@urlPathFromFilePath_derivation asciiLowerCase) as (_ & Hsegs & _).
  rewrite (Hsegs ["Docs"; "Guide"] "Intro" "md").
  - reflexivity.
  - repeat constructor; discriminate.
  - split; [discriminate|reflexivity].
  - discriminate.
  - reflexivity.
  - reflexivity.
Defined.

(** ** Runs, continued *)

Lemma mret_bind {A B} (a : A) (f : A -> M B) : (mret a ≫= f) = f a.
Proof. apply bind_ret_l. Qed.

Lemma mbind_ok {A B} (m : M A) (f : A -> M B) l b :
  (m ≫= f) = (l, Ok b) ->
  exists l1 a l2, m = (l1, Ok a) /\ f a = (l2, Ok b) /\ l = l1 ++ l2.
Proof. apply bind_ok. Qed.

Lemma mbind_run {A B} (m : M A) (f : A -> M B) l1 a :
  m = (l1, Ok a) -> (m ≫= f) = (l1 ++ fst (f a), snd (f a)).
Proof.
  intros ->. unfold mbind, M_bind, bind. by destruct (f a).
Qed.

Lemma log_then {B} (d : diag) (b : B) :
  ((([d], Ok tt) : M unit) ≫= λ _, mret b) = ([d], Ok b).
Proof. reflexivity. Qed.

Lemma getProp_nil v k : isNil v = true -> getProp v k = VUndefined.
Proof. by destruct v. Qed.

Lemma prop_defined v k : isNil v = false -> prop v k = mret (getProp v k).
Proof. unfold prop. by intros ->. Qed.

Lemma prop_type fm t : getProp fm "type" = VStr t -> prop fm "type" = mret (VStr t).
Proof.
  intros Ht. destruct (isNil fm) eqn:Hn.
  - rewrite getProp_nil in Ht by done. discriminate.
  - rewrite prop_defined by done. by rewrite Ht.
Qed.

Lemma mapItemsM_ok (f : nat -> value -> M value) items idx log items' :
  mapItemsM f idx items = (log, Ok items') ->
  length items' = length items
  /\ forall i item, items !! i = Some item ->
       exists l item', f (idx + i) item = (l, Ok item') /\ items' !! i = Some item'.
Proof.
  revert idx log items'. induction items as [|x items IH]; intros idx log items'.
  - intros [= _ <-]. split; [reflexivity|]. intros i item Hi. discriminate.
  - cbn [mapItemsM]. intros Hrun.
    apply mbind_ok in Hrun as (l1 & x' & l2 & Hx & Hrun & _).
    apply mbind_ok in Hrun as (l3 & rest' & l4 & Hrest & Hret & _).
    injection Hret as _ <-.
    destruct (IH _ _ _ Hrest) as [Hlen Hitems].
    split; [simpl; congruence|].
    intros [|i] item Hi; simpl in Hi.
    + injection Hi as <-. rewrite Nat.add_0_r. eauto.
    + destruct (Hitems i item Hi) as (l & item' & Hf & Hi').
      exists l, item'. split; [|exact Hi'].
      by replace (idx + S i) with (S idx + i) by lia.
Qed.

Lemma mapItemsM_ext (f g : nat -> value -> M value) items idx :
  (forall i item, items !! i = Some item -> f (idx + i) item = g (idx + i) item) ->
  mapItemsM f idx items = mapItemsM g idx items.
Proof.
  revert idx. induction items as [|x items IH]; intros idx Hfg; [reflexivity|].
  cbn [mapItemsM]. pose proof (Hfg 0 x eq_refl) as H0.
  rewrite Nat.add_0_r in H0. rewrite H0. f_equal.
  rewrite IH; [reflexivity|]. intros i item Hi.
  replace (S idx + i) with (idx + S i) by lia. by apply Hfg.
Qed.

Lemma mapItemsM_ret items idx :
  mapItemsM (fun _ item => mret item) idx items = mret items.
Proof.
  revert idx. induction items as [|x items IH]; intros idx; [reflexivity|].
  cbn [mapItemsM]. rewrite mret_bind, IH, mret_bind. reflexivity.
Qed.

(** ** [mapObjectField], branch by branch *)

Section Dispatch.
Context `{PathSyntax} `{LowerCase}.

Lemma mapObjectField_nil fv fm c :
  isNil fm = true ->
  mapObjectField fv fm c = throw (TypeError "Cannot read property 'type'").
Proof.
  intros Hn. destruct fv; cbn [mapObjectField]; unfold prop; rewrite Hn; reflexivity.
Qed.

Lemma mapObjectField_object fv fm c :
  getProp fm "type" = VStr "object" ->
  mapObjectField fv fm c = addMetadata fv fm c.
Proof.
  intros Ht.
  destruct fv; cbn [mapObjectField]; rewrite (prop_type _ _ Ht), mret_bind;
    reflexivity.
Qed.

Lemma mapObjectField_list fv fm c :
  getProp fm "type" = VStr "list" ->
  mapObjectField fv fm c
  = match fv with
    | VArr items =>
        items' ← mapItemsM
          (fun idx item => mapObjectField item (itemModelOf fm) (itemContext c idx))
          0 items;
        mret (VArr items')
    | _ => logErrorAt errNotArray (locationOf c (modelFieldPath c));; mret fv
    end.
Proof.
  intros Ht.
  destruct fv; cbn [mapObjectField]; rewrite (prop_type _ _ Ht), mret_bind;
    reflexivity.
Qed.

Lemma mapObjectField_reference fv fm c :
  getProp fm "type" = VStr "reference" ->
  mapObjectField fv fm c
  = if hasKey fv "type" && has (VObj (modelsByName c)) (getProp fv "type")
    then addMetadata fv
           (getProp (VObj (modelsByName c)) (toKey (getProp fv "type"))) (restart c)
    else mret fv.
Proof.
  intros Ht.
  destruct fv; cbn [mapObjectField]; rewrite (prop_type _ _ Ht), mret_bind;
    reflexivity.
Qed.

Lemma mapObjectField_model fv fm c :
  getProp fm "type" = VStr "model" ->
  mapObjectField fv fm c
  = let loc := locationOf c (modelFieldPath c) in
    let models := getProp fm "models" in
    if negb (hasKey fm "models") || negb (isArray models) || (size models <? 1)%nat
    then logErrorAt errModelsProperty loc;; mret fv
    else if (size models =? 1)%nat then
      let modelName := hd VUndefined (elements models) in
      if negb (has (VObj (modelsByName c)) modelName)
      then logErrorAt errModelsUnknown loc;; mret fv
      else addMetadata fv (getProp (VObj (modelsByName c)) (toKey modelName)) (restart c)
    else
      if negb (hasKey fv "type")
      then logErrorAt errTypeMissing loc;; mret fv
      else
        let modelName := getProp fv "type" in
        if negb (has (VObj (modelsByName c)) modelName)
        then logErrorAt errTypeUnknown loc;; mret fv
        else addMetadata fv (getProp (VObj (modelsByName c)) (toKey modelName))
               (restart c).
Proof.
  intros Ht.
  destruct fv; cbn [mapObjectField]; rewrite (prop_type _ _ Ht), mret_bind;
    reflexivity.
Qed.

Lemma mapObjectField_scalar fv fm c :
  isNil fm = false ->
  isStr (getProp fm "type") "object" = false ->
  isStr (getProp fm "type") "model" = false ->
  isStr (getProp fm "type") "reference" = false ->
  isStr (getProp fm "type") "list" = false ->
  mapObjectField fv fm c = mret fv.
Proof.
  intros Hn H1 H2 H3 H4.
  destruct fv; cbn [mapObjectField]; rewrite (prop_defined _ _ Hn), mret_bind;
    rewrite H1, H2, H3, H4; reflexivity.
Qed.

Lemma addMetadata_not_object data model c :
  isPlainObject data = false ->
  addMetadata data model c
  = (modelPath ← modelPathOf model c;
     logErrorAt errNotObject (locationOf c modelPath);; mret data).
Proof.
  intros Hd. unfold addMetadata, addMetadataWith. by destruct data.
Qed.

End Dispatch.

Lemma mapItemsM_all_ok (f : nat -> value -> M value) items idx :
  (forall i item, items !! i = Some item ->
     exists l item', f (idx + i) item = (l, Ok item')) ->
  exists log items', mapItemsM f idx items = (log, Ok items').
Proof.
  revert idx. induction items as [|x items IH]; intros idx Hall.
  - by exists [], [].
  - destruct (Hall 0 x eq_refl) as (l & x' & Hx). rewrite Nat.add_0_r in Hx.
    destruct (IH (S idx)) as (log & items' & Hrest).
    { intros i item Hi. replace (S idx + i) with (idx + S i) by lia. by apply Hall. }
    exists (l ++ (log ++ [])), (x' :: items'). cbn [mapItemsM].
    rewrite (mbind_run _ _ _ _ Hx). rewrite (mbind_run _ _ _ _ Hrest). reflexivity.
Qed.

Section ListField.
Context `{PathSyntax} `{LowerCase}.

(** C7.  For a field of type [list]: a value that is not an array is
    reported ("must be an array") and returned unchanged; on an array
    the item declaration ([items], or [{type: 'string'}] when the field
    declares none) is dispatched onto the elements in order, the result
    being the array of the element results, and it is produced whenever
    every element dispatch returns.  With object-typed items the value
    [[{title: "a"}, {title: "b"}]] yields two objects whose [__metadata]
    is [{modelType: "object"}]: no [urlPath]. *)
Theorem list_field_dispatch :
  (forall fieldValue fieldModel c,
     getProp fieldModel "type" = VStr "list" ->
     (isArray fieldValue = false ->
      mapObjectField fieldValue fieldModel c
      = ([ErrorAt errNotArray (locationOf c (modelFieldPath c))], Ok fieldValue))
     /\ (forall items,
           fieldValue = VArr items ->
           mapObjectField fieldValue fieldModel c
           = (items' ← mapItemsM
                (fun idx item =>
                   mapObjectField item (itemModelOf fieldModel) (itemContext c idx))
                0 items;
              mret (VArr items'))
           /\ ((forall i item, items !! i = Some item ->
                  exists l item',
                    mapObjectField item (itemModelOf fieldModel) (itemContext c i)
                    = (l, Ok item')) ->
               exists log items',
                 mapObjectField fieldValue fieldModel c = (log, Ok (VArr items')))
           /\ (forall log r,
                 mapObjectField fieldValue fieldModel c = (log, Ok r) ->
                 exists items',
                   r = VArr items' /\ length items' = length items
                   /\ forall i item, items !! i = Some item ->
                        exists l item',
                          mapObjectField item (itemModelOf fieldModel) (itemContext c i)
                          = (l, Ok item')
                          /\ items' !! i = Some item'))
     /\ (getProp fieldModel "items" = VUndefined ->
         itemModelOf fieldModel = VObj [("type", VStr "string")]
         /\ forall items,
              fieldValue = VArr items ->
              mapObjectField fieldValue fieldModel c = ([], Ok (VArr items))))
  /\ (forall c,
        mapObjectField
          (VArr [VObj [("title", VStr "a")]; VObj [("title", VStr "b")]])
          (VObj [("type", VStr "list");
                 ("items", VObj [("type", VStr "object");
                                 ("fields", VArr [VObj [("name", VStr "title");
                                                        ("type", VStr "string")]])])])
          c
        = ([], Ok (VArr [VObj [("title", VStr "a");
                               ("__metadata", VObj [("modelType", VStr "object")])];
                         VObj [("title", VStr "b");
                               ("__metadata", VObj [("modelType", VStr "object")])]]))).
Proof.
  split; [|intros [fp byName dataPath [|m modelPath]]; reflexivity].
  intros fieldValue fieldModel c Ht. split; [|split].
  - intros Harr. rewrite (mapObjectField_list _ _ _ Ht).
    destruct fieldValue; try discriminate; reflexivity.
  - intros items ->. rewrite (mapObjectField_list _ _ _ Ht). split; [reflexivity|].
    split.
    + intros Hall.
      destruct (mapItemsM_all_ok
                  (fun idx item =>
                     mapObjectField item (itemModelOf fieldModel) (itemContext c idx))
                  items 0 Hall) as (log & items' & Hrun).
      exists (log ++ []), items'. by rewrite (mbind_run _ _ _ _ Hrun).
    + intros log r Hrun.
      apply mbind_ok in Hrun as (l1 & items' & l2 & Hitems & Hret & _).
      injection Hret as _ <-. exists items'. split; [reflexivity|].
      by apply mapItemsM_ok in Hitems.
  - intros Hitems.
    assert (Hmodel : itemModelOf fieldModel = VObj [("type", VStr "string")]).
    { unfold itemModelOf, getKey. rewrite Hitems. by destruct (isNil fieldModel). }
    split; [exact Hmodel|]. intros items ->.
    rewrite (mapObjectField_list _ _ _ Ht), Hmodel.
    rewrite (mapItemsM_ext _ (fun _ item => mret item)).
    + by rewrite mapItemsM_ret.
    + intros i item _. by apply mapObjectField_scalar.
Qed.

End ListField.

Lemma list_field_dispatch_witness :
  @mapObjectField dotSyntax asciiLowerCase
    (VStr "not a list") (VObj [("name", VStr "tags"); ("type", VStr "list")])
    {| filePath := VStr "post.md"; modelsByName := [];
       dataFieldPath := [VStr "tags"];
       modelFieldPath := [VStr "post"; VStr "fields"; VStr "tags"] |}
  = ([ErrorAt errNotArray
        {| locFile := VStr "post.md"; locData := [VStr "tags"];
           locModel := [VStr "post"; VStr "fields"; VStr "tags"] |}],
     Ok (VStr "not a list")).
Proof.
  destruct (@list_field_dispatch dotSyntax asciiLowerCase) as [Hlist _].
  destruct (Hlist (VStr "not a list")
                  (VObj [("name", VStr "tags"); ("type", VStr "list")])
                  {| filePath := VStr "post.md"; modelsByName := [];
                     dataFieldPath := [VStr "tags"];
                     modelFieldPath := [VStr "post"; VStr "fields"; VStr "tags"] |}
                  eq_refl) as [Hnot _].
  exact (Hnot eq_refl).
Defined.

(** ** Polymorphic [model] fields *)

Lemma getProp_models_hasKey fm :
  isArray (getProp fm "models") = true -> hasKey fm "models" = true.
Proof.
  unfold hasKey. destruct fm as [| | | |s|items|props]; try discriminate.
  simpl. destruct (lookup "models" props) eqn:Hl; [|discriminate].
  intros _. apply bool_decide_eq_true. eauto.
Qed.

(** The claim C1 as written fails: with [models: ["hero", "cta"]], the
    value [{type: "footer", text: "Go"}] names a model that exists but is
    not listed; nothing is reported and the value comes back annotated
    as a [footer]. *)
Lemma model_field_discriminator_counterexample :
  existsb (valueEqb (VStr "footer")) (elements (getProp sectionField "models")) = false
  /\ @mapObjectField dotSyntax asciiLowerCase
       (VObj [("type", VStr "footer"); ("text", VStr "Go")])
       sectionField sectionContext
     = ([], Ok (VObj [("type", VStr "footer"); ("text", VStr "Go");
                      ("__metadata", VObj [("modelType", VStr "object");
                                           ("modelName", VStr "footer")])])).
Proof. split; reflexivity. Qed.

Section ModelField.
Context `{PathSyntax} `{LowerCase}.

(** C1, amended.  For a field of type [model] whose [models] array lists
    more than one name: a value without an own [type] property, and a
    value whose [type] does not name a model of the schema index (by
    [_.has] on [modelsByName]), is reported and returned unchanged; in
    the remaining case the value is annotated with the model stored
    under that name.  Membership of the name in the field's own [models]
    array is not checked.  With [models: ["hero", "cta"]] the value
    [{type: "cta", text: "Go"}] gets [modelName: "cta"], and
    [{text: "Go"}] is reported and returned unchanged. *)
Theorem model_field_discriminator :
  (forall fieldValue fieldModel c,
     getProp fieldModel "type" = VStr "model" ->
     isArray (getProp fieldModel "models") = true ->
     1 < size (getProp fieldModel "models") ->
     let loc := locationOf c (modelFieldPath c) in
     let byName := VObj (modelsByName c) in
     (hasKey fieldValue "type" = false ->
      mapObjectField fieldValue fieldModel c
      = ([ErrorAt errTypeMissing loc], Ok fieldValue))
     /\ (hasKey fieldValue "type" = true ->
         has byName (getProp fieldValue "type") = false ->
         mapObjectField fieldValue fieldModel c
         = ([ErrorAt errTypeUnknown loc], Ok fieldValue))
     /\ (hasKey fieldValue "type" = true ->
         has byName (getProp fieldValue "type") = true ->
         mapObjectField fieldValue fieldModel c
         = addMetadata fieldValue
             (getProp byName (toKey (getProp fieldValue "type"))) (restart c)))
  /\ mapObjectField (VObj [("type", VStr "cta"); ("text", VStr "Go")])
       sectionField sectionContext
     = ([], Ok (VObj [("type", VStr "cta"); ("text", VStr "Go");
                      ("__metadata", VObj [("modelType", VStr "object");
                                           ("modelName", VStr "cta")])]))
  /\ mapObjectField (VObj [("text", VStr "Go")]) sectionField sectionContext
     = ([ErrorAt errTypeMissing
           (locationOf sectionContext (modelFieldPath sectionContext))],
        Ok (VObj [("text", VStr "Go")])).
Proof.
  split.
  - intros fieldValue fieldModel c Ht Harr Hsize loc byName.
    rewrite (mapObjectField_model _ _ _ Ht). cbn zeta.
    rewrite (getProp_models_hasKey _ Harr), Harr.
    replace (size (getProp fieldModel "models") <? 1)%nat with false
      by (symmetry; apply Nat.ltb_ge; lia).
    replace (size (getProp fieldModel "models") =? 1)%nat with false
      by (symmetry; apply Nat.eqb_neq; lia).
    cbn [negb orb]. repeat split.
    + by intros ->.
    + intros -> Hhas. fold byName. by rewrite Hhas.
    + intros -> Hhas. fold byName. by rewrite Hhas.
  - split.
    + rewrite (mapObjectField_model _ sectionField _ eq_refl). cbn zeta.
      replace (has (VObj (modelsByName sectionContext))
                   (getProp (VObj [("type", VStr "cta"); ("text", VStr "Go")]) "type"))
        with true.
      * reflexivity.
      * unfold has, castPath, isKey. simpl. by rewrite orb_true_r.
    + reflexivity.
Qed.

End ModelField.

Lemma model_field_discriminator_witness :
  @mapObjectField dotSyntax asciiLowerCase (VObj [("type", VStr "banner")]) sectionField sectionContext
  = ([ErrorAt errTypeUnknown
        (locationOf sectionContext (modelFieldPath sectionContext))],
     Ok (VObj [("type", VStr "banner")])).
Proof.
  destruct (@model_field_discriminator dotSyntax asciiLowerCase) as [Hfield _].
  destruct (Hfield (VObj [("type", VStr "banner")]) sectionField sectionContext
                   eq_refl eq_refl) as (_ & Hunknown & _).
  - simpl. lia.
  - apply Hunknown; reflexivity.
Defined.

(** ** Objects as property lists *)

Lemma lookup_assignKey k k' v props :
  lookup k (assignKey k' v props)
  = if String.eqb k' k then Some v else lookup k props.
Proof.
  induction props as [|[k0 v0] props IH]; simpl.
  - reflexivity.
  - destruct (String.eqb k0 k') eqn:Hk0; simpl.
    + apply String.eqb_eq in Hk0 as ->. by destruct (String.eqb k' k).
    + destruct (String.eqb k0 k) eqn:Hk; [|exact IH].
      apply String.eqb_eq in Hk as ->.
      by rewrite String.eqb_sym, Hk0.
Qed.

Lemma lookup_app k (a b : list (string * value)) :
  lookup k (a ++ b) = match lookup k a with Some v => Some v | None => lookup k b end.
Proof.
  induction a as [|[k0 v0] a IH]; simpl; [reflexivity|].
  by destruct (String.eqb k0 k).
Qed.

Lemma lookup_fold_assignKey k (source target : list (string * value)) :
  lookup k (fold_left (fun acc kv => assignKey (fst kv) (snd kv) acc) source target)
  = match lookup k (rev source) with
    | Some v => Some v
    | None => lookup k target
    end.
Proof.
  revert target. induction source as [|[k1 v1] source IH]; intros target; simpl.
  - reflexivity.
  - rewrite IH, lookup_app, lookup_assignKey. simpl.
    destruct (lookup k (rev source)); [reflexivity|].
    by destruct (String.eqb k1 k).
Qed.

Lemma lookup_assign k target source :
  lookup k (assign target source)
  = match lookup k (rev (ownProps source)) with
    | Some v => Some v
    | None => lookup k target
    end.
Proof. apply lookup_fold_assignKey. Qed.

Lemma lookup_not_in k (props : list (string * value)) :
  ~ In k (map fst props) -> lookup k props = None.
Proof.
  induction props as [|[k0 v0] props IH]; simpl; [reflexivity|].
  intros Hnot. destruct (String.eqb_spec k0 k) as [->|Hne]; [tauto|].
  apply IH. tauto.
Qed.

Lemma lookup_in k v (props : list (string * value)) :
  lookup k props = Some v -> In (k, v) props.
Proof.
  induction props as [|[k0 v0] props IH]; simpl; [discriminate|].
  destruct (String.eqb_spec k0 k) as [->|Hne].
  - intros [= ->]. by left.
  - intros Hl. right. by apply IH.
Qed.

Lemma lookup_rev_NoDup k (props : list (string * value)) :
  List.NoDup (map fst props) -> lookup k (rev props) = lookup k props.
Proof.
  induction props as [|[k0 v0] props IH]; simpl; [reflexivity|].
  intros Hnd. inversion Hnd as [|? ? Hnot Hnd']; subst.
  rewrite lookup_app, (IH Hnd'). simpl.
  destruct (String.eqb_spec k0 k) as [->|Hne].
  - by rewrite (lookup_not_in _ _ Hnot).
  - by destruct (lookup k props).
Qed.

Lemma omitNil_keys_NoDup (props : list (string * value)) :
  List.NoDup (map fst props) -> List.NoDup (map fst (omitNil props)).
Proof.
  induction props as [|[k0 v0] props IH]; simpl; [constructor|].
  intros Hnd. inversion Hnd as [|? ? Hnot Hnd']; subst.
  destruct (negb (isNil v0)); [|by apply IH].
  simpl. constructor; [|by apply IH].
  intros Hin. apply Hnot. unfold omitNil in Hin.
  apply in_map_iff in Hin as ([k v] & <- & Hin).
  apply List.filter_In in Hin as [Hin _]. apply in_map_iff. by exists (k, v).
Qed.

Lemma lookup_omitNil k (props : list (string * value)) v :
  lookup k (omitNil props) = Some v -> isNil v = false.
Proof.
  intros Hl. apply lookup_in in Hl. unfold omitNil in Hl.
  apply List.filter_In in Hl as [_ Hn]. simpl in Hn. by apply negb_true_iff in Hn.
Qed.

Lemma computedMetadata_NoDup model modelType urlPath :
  List.NoDup (map fst (computedMetadata model modelType urlPath)).
Proof.
  apply omitNil_keys_NoDup. simpl.
  repeat constructor; simpl; intuition discriminate.
Qed.

Lemma mapValuesM_lookup (f : string -> value -> M value) props log props' k :
  mapValuesM f props = (log, Ok props') ->
  match lookup k props with
  | Some v => exists l v', f k v = (l, Ok v') /\ lookup k props' = Some v'
  | None => lookup k props' = None
  end.
Proof.
  revert log props'. induction props as [|[k0 v0] props IH]; intros log props'.
  - intros [= _ <-]. reflexivity.
  - cbn [mapValuesM]. intros Hrun.
    apply mbind_ok in Hrun as (l1 & v' & l2 & Hv & Hrun & _).
    apply mbind_ok in Hrun as (l3 & rest' & l4 & Hrest & Hret & _).
    injection Hret as _ <-. simpl.
    destruct (String.eqb_spec k0 k) as [->|Hne]; [eauto|].
    by apply IH in Hrest.
Qed.

(** ** [addMetadata] on an object *)

Lemma prop_ok v k l r : prop v k = (l, Ok r) -> isNil v = false /\ r = getProp v k /\ l = [].
Proof.
  unfold prop. destruct (isNil v); [discriminate|]. by intros [= <- <-].
Qed.

Lemma urlPathOf_ok `{LowerCase} t c l u : urlPathOf t c = (l, Ok u) -> l = [].
Proof.
  unfold urlPathOf. destruct (isStr t "page"); [|by intros [= <- _]].
  unfold urlPathFromFilePath, pathParse. destruct (filePath c); try discriminate.
  rewrite !mret_bind. by intros [= <- _].
Qed.

Lemma getKey_object props k :
  getKey (VObj props) k VUndefined = default VUndefined (lookup k props).
Proof. unfold getKey. simpl. by destruct (lookup k props) as [[]|]. Qed.

Section AddMetadata.
Context `{PathSyntax} `{LowerCase}.

Lemma addMetadata_object_ok props model c log r :
  addMetadata (VObj props) model c = (log, Ok r) ->
  exists l0 modelPath l1 props' u,
    modelPathOf model c = (l0, Ok modelPath)
    /\ mapValuesM (processField mapObjectField (getKey model "fields" (VObj []))
                     c modelPath) props = (l1, Ok props')
    /\ isNil model = false
    /\ urlPathOf (getProp model "type") c = ([], Ok u)
    /\ r = attachMetadata props' (computedMetadata model (getProp model "type") u)
    /\ log = l0 ++ l1.
Proof.
  unfold addMetadata, addMetadataWith. intros Hrun.
  apply mbind_ok in Hrun as (l0 & modelPath & l' & Hpath & Hrun & ->).
  apply mbind_ok in Hrun as (l1 & props' & l'' & Hprops & Hrun & ->).
  apply mbind_ok in Hrun as (l2 & t & l3 & Ht & Hrun & ->).
  apply prop_ok in Ht as (Hn & -> & ->).
  apply mbind_ok in Hrun as (l4 & u & l5 & Hu & Hret & ->).
  injection Hret as <- <-. pose proof (urlPathOf_ok _ _ _ _ Hu) as ->.
  exists l0, modelPath, l1, props', u. repeat split; auto.
  by rewrite !app_nil_r.
Qed.

Lemma attachMetadata_metadata props computed :
  exists meta,
    getProp (attachMetadata props computed) "__metadata" = VObj meta
    /\ forall k,
         lookup k meta
         = match lookup k (rev computed) with
           | Some v => Some v
           | None => lookup k (assign [] (getKey (VObj props) "__metadata" VUndefined))
           end.
Proof.
  unfold attachMetadata. eexists. split.
  - simpl getProp. rewrite lookup_assign. simpl. reflexivity.
  - intros k. by rewrite lookup_assign.
Qed.

End AddMetadata.

(** The claim C2 as written fails: the existing key [modelName: "old"] is
    overwritten by the computed [modelName: "post"]. *)
Lemma metadata_merge_counterexample :
  getProp (getProp staleObject "__metadata") "modelName" = VStr "old"
  /\ exists r,
       @addMetadata dotSyntax asciiLowerCase staleObject postModel (rootContext "post.md" []) = ([], Ok r)
       /\ getProp (getProp r "__metadata") "modelName" = VStr "post".
Proof. split; [reflexivity|]. eexists. split; reflexivity. Qed.

Section MetadataMerge.
Context `{PathSyntax} `{LowerCase}.

(** C2, amended.  When [addMetadata] returns for a plain object, the
    [__metadata] of the result is the [__metadata] the object has once
    its declared fields are processed (the one of the input, unless the
    model declares a field of that name), extended by the computed keys:
    a computed key ([modelType], [modelName], [modelLabel], [urlPath])
    whose value is not nil is written and replaces an existing key of
    the same name; one whose value is nil is left out, so that an
    existing value stays; every other existing key is kept. *)
Theorem metadata_merge props model c log r :
  addMetadata (VObj props) model c = (log, Ok r) ->
  exists existing u meta,
    urlPathOf (getProp model "type") c = ([], Ok u)
    /\ getProp r "__metadata" = VObj meta
    /\ let computed := computedMetadata model (getProp model "type") u in
       (forall k,
          lookup k meta
          = match lookup k computed with
            | Some v => Some v
            | None => lookup k (assign [] existing)
            end)
       /\ (forall k v, lookup k computed = Some v -> isNil v = false)
       /\ (isNil (getProp model "type") = true -> lookup "modelType" computed = None)
       /\ (isNil (getKey model "name" VNull) = true -> lookup "modelName" computed = None)
       /\ (isNil (getKey model "label" VNull) = true -> lookup "modelLabel" computed = None)
       /\ (isNil u = true -> lookup "urlPath" computed = None)
       /\ match findByName (getKey model "fields" (VObj [])) "__metadata" with
          | None => existing = getKey (VObj props) "__metadata" VUndefined
          | Some fieldModel =>
              match lookup "__metadata" props with
              | Some before =>
                  exists l0 modelPath l,
                    modelPathOf model c = (l0, Ok modelPath)
                    /\ mapObjectField before fieldModel
                         (fieldContext c modelPath "__metadata") = (l, Ok existing)
              | None => existing = VUndefined
              end
          end.
Proof.
  intros Hrun.
  apply addMetadata_object_ok in Hrun
    as (l0 & modelPath & l1 & props' & u & Hpath & Hprops & Hn & Hu & -> & _).
  destruct (attachMetadata_metadata props'
              (computedMetadata model (getProp model "type") u))
    as (meta & Hmeta & Hlookup).
  exists (getKey (VObj props') "__metadata" VUndefined), u, meta.
  split; [exact Hu|]. split; [exact Hmeta|]. cbn zeta.
  split; [|split; [|split; [|split; [|split; [|split]]]]].
  - intros k. rewrite Hlookup.
    by rewrite lookup_rev_NoDup by apply computedMetadata_NoDup.
  - intros k v. apply lookup_omitNil.
  - intros Hnil. unfold computedMetadata, omitNil. simpl. rewrite Hnil. simpl.
    destruct (isNil (getKey model "name" VNull)), (isNil (getKey model "label" VNull)),
      (isNil u); reflexivity.
  - intros Hnil. unfold computedMetadata, omitNil. simpl. rewrite Hnil. simpl.
    destruct (isNil (getProp model "type")), (isNil (getKey model "label" VNull)),
      (isNil u); reflexivity.
  - intros Hnil. unfold computedMetadata, omitNil. simpl. rewrite Hnil. simpl.
    destruct (isNil (getProp model "type")), (isNil (getKey model "name" VNull)),
      (isNil u); reflexivity.
  - intros Hnil. unfold computedMetadata, omitNil. simpl. rewrite Hnil. simpl.
    destruct (isNil (getProp model "type")), (isNil (getKey model "name" VNull)),
      (isNil (getKey model "label" VNull)); reflexivity.
  - pose proof (mapValuesM_lookup _ _ _ _ "__metadata" Hprops) as Hl.
    unfold processField in Hl at 1.
    destruct (findByName (getKey model "fields" (VObj [])) "__metadata")
      as [fieldModel|] eqn:Hfind.
    + destruct (lookup "__metadata" props) as [before|] eqn:Hbefore.
      * destruct Hl as (l & v' & Hv & Hl'). exists l0, modelPath, l.
        split; [exact Hpath|]. by rewrite getKey_object, Hl'.
      * by rewrite getKey_object, Hl.
    + rewrite !getKey_object.
      destruct (lookup "__metadata" props) as [before|] eqn:Hbefore.
      * destruct Hl as (l & v' & [= _ <-] & ->). reflexivity.
      * by rewrite Hl.
Qed.

End MetadataMerge.

Lemma metadata_merge_witness :
  exists meta,
    getProp (VObj [("title", VStr "a");
                   ("__metadata", VObj [("id", VStr "post.md");
                                        ("modelName", VStr "post");
                                        ("modelType", VStr "data")])])
            "__metadata" = VObj meta
    /\ lookup "id" meta = Some (VStr "post.md")
    /\ lookup "modelName" meta = Some (VStr "post")
    /\ lookup "modelLabel" meta = None.
Proof.
  destruct (@metadata_merge dotSyntax asciiLowerCase
              [("title", VStr "a");
               ("__metadata", VObj [("id", VStr "post.md"); ("modelName", VStr "old")])]
              postModel (rootContext "post.md" []) [] _ eq_refl)
    as (existing & u & meta & Hu & Hmeta & Hkeys & _ & _ & _ & _ & _ & Hexisting).
  exists meta. split; [exact Hmeta|]. simpl in Hexisting. subst existing.
  injection Hu as <-.
  split; [|split]; rewrite Hkeys; reflexivity.
Defined.

(** ** [_.sortBy] *)

Section SortFacts.
Context {A : Type} (key : A -> string).

Lemma insertBy_Permutation x l : Permutation (insertBy key x l) (x :: l).
Proof.
  induction l as [|y l IH]; simpl; [reflexivity|].
  destruct (String.leb (key x) (key y)); [reflexivity|].
  rewrite IH. apply perm_swap.
Qed.

Lemma sortBy_Permutation l : Permutation (sortBy key l) l.
Proof.
  induction l as [|x l IH]; simpl; [reflexivity|].
  rewrite insertBy_Permutation. by constructor.
Qed.







End SortFacts.

Lemma insertBy_map_snd {A} (key : A -> string) (x : nat * A) l :
  map snd (insertBy (fun io => key (snd io)) x l) = insertBy key (snd x) (map snd l).
Proof.
  induction l as [|y l IH]; simpl; [reflexivity|].
  destruct (String.leb (key (snd x)) (key (snd y))); simpl; [reflexivity|].
  by rewrite IH.
Qed.

Lemma sortBy_map_snd {A} (key : A -> string) (l : list (nat * A)) :
  map snd (sortBy (fun io => key (snd io)) l) = sortBy key (map snd l).
Proof.
  induction l as [|x l IH]; simpl; [reflexivity|].
  by rewrite insertBy_map_snd, IH.
Qed.

Lemma number_map_snd {A} i (l : list A) : map snd (number i l) = l.
Proof. revert i. induction l as [|x l IH]; intros i; simpl; [|rewrite IH]; reflexivity. Qed.

(** ** [_.set] *)

Lemma assignProp_object props k v :
  assignProp (VObj props) k v = Some (VObj (assignKey k v props)).
Proof. reflexivity. Qed.

(** On an object, [_.set] touches only the property named by the first key. *)
Lemma baseSet_object_top props p v t :
  baseSet (VObj props) p v = Some t ->
  exists props', t = VObj props'
    /\ forall k, hd_error p <> Some k -> lookup k props' = lookup k props.
Proof.
  destruct p as [|k0 rest]; simpl.
  - intros [= <-]. eauto.
  - destruct (forbiddenKey k0); [intros [= <-]; eauto|].
    assert (Hkeep : forall x, exists props', Some (VObj (assignKey k0 x props)) = Some (VObj props')
              /\ forall k, Some k0 <> Some k -> lookup k props' = lookup k props).
    { intros x. eexists. split; [reflexivity|]. intros k Hk.
      rewrite lookup_assignKey. destruct (String.eqb_spec k0 k); congruence. }
    destruct rest as [|k2 rest].
    + intros [= <-]. destruct (Hkeep v) as (props' & [= <-] & Hl). eauto.
    + match goal with |- context [baseSet ?child _ _] => destruct (baseSet child (k2 :: rest) v) as [child'|] end;
        [|discriminate].
      intros [= <-]. destruct (Hkeep child') as (props' & [= <-] & Hl). eauto.
Qed.

Section MergeFacts.
Context `{PathSyntax}.

Lemma pathParse_ok v l p : pathParse v = (l, Ok p) -> exists s, v = VStr s /\ p = parseString s /\ l = [].
Proof. destruct v; try discriminate. intros [= <- <-]. eauto. Qed.

Lemma foldSet_cons kp tree object rest l t :
  foldSet kp tree (object :: rest) = (l, Ok t) ->
  exists tree1,
    isString (fileOf kp object) = true
    /\ set tree (keyPathOf kp object) object = Some tree1
    /\ foldSet kp tree1 rest = (l, Ok t).
Proof.
  cbn [foldSet]. intros Hrun.
  apply mbind_ok in Hrun as (l1 & p & l2 & Hp & Hrun & ->).
  apply pathParse_ok in Hp as (s & Hs & -> & ->).
  unfold keyPathOf, fileKey. rewrite Hs. simpl stringOf.
  destruct (set tree (propPathOf (parseString s)) object) as [tree1|]; [|discriminate].
  exists tree1. by rewrite app_nil_l.
Qed.

Lemma foldSet_log kp tree objects l r : foldSet kp tree objects = (l, r) -> l = [].
Proof.
  revert tree. induction objects as [|object rest IH]; intros tree; cbn [foldSet].
  - by intros [= <- _].
  - unfold pathParse. destruct (fileOf kp object); try by intros [= <- _].
    rewrite mret_bind.
    destruct (set tree _ object) as [tree1|]; [apply IH|by intros [= <- _]].
Qed.

(** The accumulator of [mergeFold] is the fold of [_.set]. *)
Lemma mergeFold_accum kp st sorted :
  mapOutcome accum (mergeFold kp st sorted) = foldSet kp (accum st) (map snd sorted).
Proof.
  revert st. induction sorted as [|[i object] rest IH]; intros st; [reflexivity|].
  cbn [mergeFold foldSet map snd]. unfold pathParse.
  destruct (fileOf kp object); try reflexivity.
  rewrite !mret_bind. unfold place.
  destruct (set (accum st) (propPathOf (parseString s)) object) as [tree1|];
    [|reflexivity].
  destruct (reachesEnd (propPathOf (parseString s))); rewrite IH; reflexivity.
Qed.

(** [mergeDataObjects] sorts, then folds [_.set] over the sorted objects. *)
Lemma mergeDataObjects_tree objects kp source :
  forallb (fun object => isString (fileOf kp object)) objects = true ->
  mapOutcome fst (mergeDataObjects objects kp source)
  = foldSet kp (seed source) (sortBy (fileKey kp) objects).
Proof.
  intros Hall. unfold mergeDataObjects. rewrite Hall.
  rewrite <- (number_map_snd 0 objects) at 2.
  rewrite <- (sortBy_map_snd (fileKey kp)).
  rewrite <- (mergeFold_accum kp {| accum := seed source; attached := []; detached := [] |}).
  match goal with |- context [mergeFold kp ?s ?l] => destruct (mergeFold kp s l) as [l0 [st|e|]] end;
    try reflexivity.
  simpl. by rewrite app_nil_r.
Qed.

Lemma mergeDataObjects_throw objects kp source :
  forallb (fun object => isString (fileOf kp object)) objects = false ->
  mergeDataObjects objects kp source
  = throw (TypeError "The 'path' argument must be of type string").
Proof.
  intros Hall. unfold mergeDataObjects. by rewrite Hall.
Qed.

Lemma mergeDataObjects_ok objects kp source log merged after :
  mergeDataObjects objects kp source = (log, Ok (merged, after)) ->
  forallb (fun object => isString (fileOf kp object)) objects = true
  /\ foldSet kp (seed source) (sortBy (fileKey kp) objects) = ([], Ok merged)
  /\ log = [].
Proof.
  intros Hrun.
  destruct (forallb (fun object => isString (fileOf kp object)) objects) eqn:Hall.
  - pose proof (mergeDataObjects_tree objects kp source Hall) as Htree.
    rewrite Hrun in Htree. simpl in Htree.
    pose proof (foldSet_log _ _ _ _ _ (eq_sym Htree)) as ->. auto.
  - rewrite mergeDataObjects_throw in Hrun by done. discriminate.
Qed.

End MergeFacts.

(** ** The seeded [__metadata] of the merged object *)

Section SeededMetadata.
Context `{PathSyntax}.

Lemma foldSet_keeps_top kp props objects l t (k : string) :
  foldSet kp (VObj props) objects = (l, Ok t) ->
  Forall (fun object => hd_error (keyPathOf kp object) <> Some k) objects ->
  exists props', t = VObj props' /\ lookup k props' = lookup k props.
Proof.
  revert props. induction objects as [|object rest IH]; intros props Hrun Hall.
  - injection Hrun as _ <-. eauto.
  - apply foldSet_cons in Hrun as (tree1 & _ & Hset & Hrun).
    inversion Hall as [|? ? Hhd Hrest]; subst.
    unfold set in Hset. simpl isObject in Hset. cbn iota in Hset.
    apply baseSet_object_top in Hset as (props1 & -> & Hkeep).
    destruct (IH props1 Hrun Hrest) as (props' & -> & Hl).
    exists props'. split; [reflexivity|]. rewrite Hl. by apply Hkeep.
Qed.

(** C9, amended.  The accumulator starts as
    [{__metadata: {id: "<source>:data", source}}]; when no object is
    stored under a key path that begins with [__metadata], the merged
    object that [mergeDataObjects] returns still has exactly this
    [__metadata]. *)
Theorem seeded_metadata_kept :
  (forall kp source,
     mergeDataObjects [] kp source = ([], Ok (seed source, []))
     /\ getProp (seed source) "__metadata" = seedMetadata source)
  /\ (forall objects kp source log merged after,
        mergeDataObjects objects kp source = (log, Ok (merged, after)) ->
        Forall (fun object => hd_error (keyPathOf kp object) <> Some "__metadata")
               objects ->
        getProp merged "__metadata" = seedMetadata source).
Proof.
  split; [intros kp source; split; reflexivity|].
  intros objects kp source log merged after Hrun Hall.
  apply mergeDataObjects_ok in Hrun as (_ & Hfold & _).
  apply (foldSet_keeps_top _ _ _ _ _ "__metadata") in Hfold as (props' & -> & Hl).
  - simpl. rewrite Hl. reflexivity.
  - apply Forall_forall. intros object Hin.
    rewrite Forall_forall in Hall. apply Hall.
    apply list_elem_of_In. apply list_elem_of_In in Hin.
    by rewrite (sortBy_Permutation (fileKey kp) objects) in Hin.
Qed.

End SeededMetadata.

(** The claim C9 as written fails: a data file named [__metadata.yaml]
    is stored under the key [__metadata] and replaces the seeded
    mapping. *)
Lemma seeded_metadata_counterexample :
  @mergeDataObjects dotSyntax [reservedNameObject] relSourcePathKey sourceName
  = ([], Ok (VObj [("__metadata", reservedNameObject)], [reservedNameObject]))
  /\ getProp (VObj [("__metadata", reservedNameObject)]) "__metadata"
     <> seedMetadata sourceName.
Proof. split; [vm_compute; reflexivity|vm_compute; discriminate]. Qed.

Lemma seeded_metadata_kept_witness :
  getProp
    (VObj [("__metadata", seedMetadata sourceName);
           ("team",
            VObj [("alice",
                   fileObject "data" "data/team/alice.yaml" "team/alice.yaml"
                     [("modelType", VStr "data")])])])
    "__metadata"
  = seedMetadata sourceName.
Proof.
  destruct (@seeded_metadata_kept dotSyntax) as [_ Hkept].
  apply (Hkept [fileObject "data" "data/team/alice.yaml" "team/alice.yaml"
                  [("modelType", VStr "data")]]
               relSourcePathKey sourceName []
               _
               [fileObject "data" "data/team/alice.yaml" "team/alice.yaml"
                  [("modelType", VStr "data")]]).
  - vm_compute. reflexivity.
  - constructor; [|constructor]. vm_compute. discriminate.
Defined.

(** ** Reading back what [_.set] has written *)

Lemma parseUint_canonical k n :
  parseUint k = Some n -> NilZero.string_of_uint (N.to_uint n) = k.
Proof.
  unfold parseUint. destruct (NilZero.uint_of_string k) as [u|]; [|discriminate].
  destruct (String.eqb_spec (NilZero.string_of_uint (N.to_uint (N.of_uint u))) k);
    [|discriminate].
  by intros [= <-].
Qed.

Lemma arrayIndex_inj a b n :
  arrayIndex a = Some n -> arrayIndex b = Some n -> a = b.
Proof.
  unfold arrayIndex.
  destruct (parseUint a) as [na|] eqn:Ha; [|discriminate].
  destruct (parseUint b) as [nb|] eqn:Hb; [|discriminate].
  destruct (na <? 4294967295)%N; [|discriminate].
  destruct (nb <? 4294967295)%N; [|discriminate].
  intros [= <-] [= Hn]. apply N2Nat.inj in Hn as ->.
  apply parseUint_canonical in Ha, Hb. congruence.
Qed.

Lemma arrayIndex_not_length k n : arrayIndex k = Some n -> String.eqb k "length" = false.
Proof.
  intros Hk. destruct (String.eqb_spec k "length") as [->|]; [|reflexivity].
  vm_compute in Hk. discriminate.
Qed.

Lemma nth_assignIndex_same n v items : nth n (assignIndex n v items) VUndefined = v.
Proof.
  revert items. induction n as [|n IH]; intros [|x items]; simpl; auto.
Qed.

Lemma nth_assignIndex_other m n v items :
  m <> n -> nth m (assignIndex n v items) VUndefined = nth m items VUndefined.
Proof.
  revert m items. induction n as [|n IH]; intros [|m] [|x items] Hmn; simpl;
    try congruence; try reflexivity.
  - by destruct m.
  - rewrite IH by congruence. by destruct m.
  - apply IH. congruence.
Qed.

Lemma assignProp_isObject t k v t' :
  assignProp t k v = Some t' -> isObject t' = isObject t.
Proof.
  destruct t; simpl; try (by intros [= <-]).
  destruct (arrayIndex k); [|discriminate]. by intros [= <-].
Qed.

Lemma assignProp_same t k v t' :
  assignProp t k v = Some t' -> isObject t = true -> getProp t' k = v.
Proof.
  destruct t as [| | | | |items|props]; try discriminate; simpl.
  - destruct (arrayIndex k) as [n|] eqn:Hk; [|discriminate].
    intros [= <-] _. simpl. rewrite (arrayIndex_not_length _ _ Hk), Hk.
    apply nth_assignIndex_same.
  - intros [= <-] _. simpl. by rewrite lookup_assignKey, String.eqb_refl.
Qed.

Lemma isObject_not_nil t : isObject t = true -> isNil t = false.
Proof. by destruct t. Qed.

Section Walk.
Context `{PathSyntax}.

Lemma walk_cons t k rest :
  isNil t = false -> walk t (k :: rest) = walk (getProp t k) rest.
Proof. simpl. by intros ->. Qed.

Lemma walk_nil_value t p : isNil t = true -> p <> [] -> walk t p = VUndefined.
Proof. destruct p; [congruence|]. simpl. by intros ->. Qed.

(** Below a value that is neither an object nor an array there is no object. *)
Lemma walk_scalar p t : isObject t = false -> isPlainObject (walk t p) = false.
Proof.
  revert t. induction p as [|k p IH]; intros t Ht; simpl.
  - by destruct t.
  - destruct (isNil t) eqn:Hn; [reflexivity|]. apply IH.
    destruct t as [| | | |s| |]; try discriminate; try reflexivity.
    simpl. destruct (String.eqb k "length"); [reflexivity|].
    destruct (arrayIndex k); [|reflexivity]. by destruct (String.get n s).
Qed.

Lemma walk_object_container p t :
  p <> [] -> isPlainObject (walk t p) = true -> isObject t = true.
Proof.
  intros _ Hw. destruct (isObject t) eqn:Ht; [reflexivity|].
  by rewrite walk_scalar in Hw.
Qed.

Lemma baseSet_isObject p t v t' :
  baseSet t p v = Some t' -> isObject t' = isObject t.
Proof.
  revert t t'. induction p as [|k rest IH]; intros t t'; simpl.
  - by intros [= <-].
  - destruct (forbiddenKey k); [by intros [= <-]|].
    destruct rest as [|k2 rest]; [apply assignProp_isObject|].
    match goal with |- context [baseSet ?c _ _] => destruct (baseSet c (k2 :: rest) v) end;
      [apply assignProp_isObject|discriminate].
Qed.

Lemma set_isObject p t v t' : set t p v = Some t' -> isObject t' = isObject t.
Proof.
  unfold set. destruct (isObject t) eqn:Ht.
  - intros Hs. apply baseSet_isObject in Hs. congruence.
  - intros [= <-]. exact Ht.
Qed.

(** Each placement overwrites: the value is found at the path. *)
Lemma walk_baseSet_same p t v t' :
  baseSet t p v = Some t' -> isObject t = true -> reachesEnd p = true ->
  walk t' p = v.
Proof.
  revert t t'. induction p as [|k rest IH]; intros t t' Hset Ht Hend; [discriminate|].
  simpl in Hend. apply negb_true_iff, orb_false_iff in Hend as [Hk Hrest].
  simpl in Hset. rewrite Hk in Hset.
  destruct rest as [|k2 rest].
  - rewrite walk_cons.
    + simpl. by apply (assignProp_same t).
    + apply isObject_not_nil. by rewrite (assignProp_isObject _ _ _ _ Hset).
  - match type of Hset with context [baseSet ?c _ _] => set (child := c) in * end.
    destruct (baseSet child (k2 :: rest) v) as [child'|] eqn:Hchild; [|discriminate].
    assert (Hc : isObject child = true).
    { unfold child. destruct (isObject (getProp t k)) eqn:Ho; [exact Ho|].
      by destruct (isIndex k2). }
    rewrite walk_cons.
    + rewrite (assignProp_same _ _ _ _ Hset Ht). apply (IH child); auto.
      unfold reachesEnd. by rewrite Hrest.
    + apply isObject_not_nil. by rewrite (assignProp_isObject _ _ _ _ Hset).
Qed.

End Walk.

Lemma assignProp_isNil t k v t' : assignProp t k v = Some t' -> isNil t' = isNil t.
Proof.
  destruct t; simpl; try (by intros [= <-]).
  destruct (arrayIndex k); [|discriminate]. by intros [= <-].
Qed.

Lemma getProp_container t a : isObject (getProp t a) = true -> isObject t = true.
Proof.
  destruct t as [| | | |s| |]; try discriminate; try reflexivity.
  simpl. destruct (String.eqb a "length"); [discriminate|].
  destruct (arrayIndex a); [|discriminate]. by destruct (String.get n s).
Qed.

Section Frame.
Context `{PathSyntax}.

Lemma assignProp_other t b x t' a p' :
  assignProp t b x = Some t' -> String.eqb a b = false ->
  isPlainObject (walk (getProp t a) p') = true ->
  getProp t' a = getProp t a.
Proof.
  intros Hset Hab Hw. destruct t as [| | | | |items|props]; simpl in Hset;
    try (by injection Hset as <-).
  - destruct (arrayIndex b) as [n|] eqn:Hb; [|discriminate]. injection Hset as <-.
    simpl in *. destruct (String.eqb a "length").
    + by rewrite walk_scalar in Hw.
    + destruct (arrayIndex a) as [m|] eqn:Ha; [|reflexivity].
      apply nth_assignIndex_other. intros ->.
      rewrite (arrayIndex_inj _ _ _ Ha Hb), String.eqb_refl in Hab. discriminate.
  - injection Hset as <-. simpl. rewrite lookup_assignKey.
    by rewrite String.eqb_sym, Hab.
Qed.

(** A placement leaves alone what lies on a path that parts ways with its own. *)
Lemma walk_baseSet_diverges p t q v t' :
  baseSet t q v = Some t' -> diverges p q = true ->
  isPlainObject (walk t p) = true ->
  walk t' p = walk t p.
Proof.
  revert t q t'. induction p as [|a p' IH]; intros t q t' Hset Hdiv Hw; [discriminate|].
  destruct q as [|b q']; [discriminate|]. simpl in Hdiv.
  assert (Hnil : isNil t = false).
  { destruct (isNil t) eqn:Hn; [|reflexivity]. simpl in Hw. by rewrite Hn in Hw. }
  rewrite (walk_cons _ _ _ Hnil) in Hw. simpl in Hset.
  destruct (forbiddenKey b); [by injection Hset as <-|].
  destruct (String.eqb a b) eqn:Hab.
  - apply String.eqb_eq in Hab as <-.
    assert (Hp' : p' <> []) by (intros ->; discriminate).
    destruct q' as [|k2 q'']; [by destruct p'|].
    pose proof (walk_object_container _ _ Hp' Hw) as Hobj. rewrite Hobj in Hset.
    destruct (baseSet (getProp t a) (k2 :: q'') v) as [child'|] eqn:Hchild;
      [|discriminate].
    pose proof (getProp_container _ _ Hobj) as Ht.
    rewrite !walk_cons; [|exact Hnil|by rewrite (assignProp_isNil _ _ _ _ Hset)].
    rewrite (assignProp_same _ _ _ _ Hset Ht). by apply (IH _ (k2 :: q'')).
  - assert (Hother : forall x, assignProp t b x = Some t' -> walk t' (a :: p') = walk t (a :: p')).
    { intros x Hx. rewrite !walk_cons;
        [|exact Hnil|by rewrite (assignProp_isNil _ _ _ _ Hx)].
      by rewrite (assignProp_other _ _ _ _ _ _ Hx Hab Hw). }
    destruct q' as [|k2 q'']; [by apply (Hother v)|].
    match type of Hset with context [baseSet ?c _ _] =>
      destruct (baseSet c (k2 :: q'') v) as [child'|]; [|discriminate] end.
    by apply (Hother child').
Qed.

Lemma walk_set_diverges p t q v t' :
  set t q v = Some t' -> diverges p q = true ->
  isPlainObject (walk t p) = true ->
  walk t' p = walk t p.
Proof.
  unfold set. destruct (isObject t); [apply walk_baseSet_diverges|by intros [= <-]].
Qed.

Lemma walk_set_same p t v t' :
  set t p v = Some t' -> isObject t = true -> reachesEnd p = true -> walk t' p = v.
Proof.
  unfold set. intros Hset Ht Hend. rewrite Ht in Hset.
  by apply (walk_baseSet_same p t).
Qed.





End Frame.

(** ** The order of the merge *)

Lemma ltb_leb (a b : string) :
  String.ltb a b = true -> String.leb a b = true /\ String.leb b a = false.
Proof.
  unfold String.ltb, String.leb. rewrite (String.compare_antisym b a).
  destruct (String.compare a b); simpl; auto; discriminate.
Qed.



Section MergeOrder.
Context `{PathSyntax}.

Lemma keyPathOf_segments kp object dirs n e :
  fileOf kp object = VStr (join "/" (dirs ++ [(n ++ "." ++ e)%string])) ->
  Forall segment dirs -> segment n -> e <> "" ->
  freeOf "/" e = true -> freeOf "." e = true ->
  keyPathOf kp object = dirs ++ [n].
Proof.
  intros Hfile Hdirs Hn He Hslash Hdot. unfold keyPathOf, fileKey, propPathOf.
  rewrite Hfile. cbn [stringOf].
  destruct (parse_segments dirs n e Hdirs Hn He Hslash Hdot) as [Hd Hname].
  rewrite compact_app, Hd, Hname. f_equal.
  apply compact_segments. constructor; [by destruct Hn|constructor].
Qed.


End MergeOrder.


(** ** The phases of [matchObjectsToModels] *)

Section MatcherFacts.
Context `{PathSyntax} `{LowerCase} `{Sdk}.
Variable o : options.

Lemma matchStep_run pageModels dataModels byId object :
  matchStep o pageModels dataModels byId object
  = (match queryFor o pageModels dataModels object with
     | Some (NoMatch message) => [Error message]
     | _ => []
     end,
     Ok (match resolve o pageModels dataModels object with
         | Some kv => assignKey (fst kv) (snd kv) byId
         | None => byId
         end)).
Proof.
  unfold matchStep, resolve, queryFor, idOf.
  destruct (pageObjectsPredicate o object).
  - by destruct (getModelByQuery _ pageModels).
  - destruct (dataObjectsPredicate o object); [|reflexivity].
    by destruct (getModelByQuery _ dataModels).
Qed.

(** The match phase always returns; it records the resolved models by id. *)
Lemma matchPhase_run pageModels dataModels objects byId :
  matchPhase o pageModels dataModels byId objects
  = (matchLog o pageModels dataModels objects,
     Ok (fold_left (fun acc kv => assignKey (fst kv) (snd kv) acc)
                   (resolved o pageModels dataModels objects) byId)).
Proof.
  revert byId. induction objects as [|object rest IH]; intros byId; [reflexivity|].
  cbn [matchPhase]. rewrite matchStep_run.
  unfold mbind, M_bind, bind. rewrite IH. cbn [resolved matchLog flat_map].
  by destruct (resolve o pageModels dataModels object).
Qed.

Lemma recorded_lookup pageModels dataModels objects k :
  lookup k (recorded o pageModels dataModels objects)
  = lookup k (rev (resolved o pageModels dataModels objects)).
Proof.
  unfold recorded. rewrite lookup_fold_assignKey.
  by destruct (lookup k (rev (resolved o pageModels dataModels objects))).
Qed.

Lemma resolved_app pageModels dataModels a b :
  resolved o pageModels dataModels (a ++ b)
  = resolved o pageModels dataModels a ++ resolved o pageModels dataModels b.
Proof.
  induction a as [|object a IH]; [reflexivity|]. cbn [app resolved].
  destruct (resolve o pageModels dataModels object); [|exact IH].
  by rewrite IH.
Qed.

Lemma resolved_none pageModels dataModels objects k :
  Forall (fun object => forall m, resolve o pageModels dataModels object <> Some (k, m))
         objects ->
  lookup k (rev (resolved o pageModels dataModels objects)) = None.
Proof.
  induction 1 as [|object rest Hobject _ IH]; [reflexivity|]. cbn [resolved].
  destruct (resolve o pageModels dataModels object) as [[k' m]|] eqn:Hr; [|exact IH].
  cbn [rev]. rewrite lookup_app, IH. simpl.
  destruct (String.eqb_spec k' k) as [->|]; [|reflexivity].
  by destruct (Hobject m).
Qed.

(** The model recorded under an id is that of the last object with this
    id for which a model was resolved. *)
Lemma recorded_last pageModels dataModels before object after k m :
  resolve o pageModels dataModels object = Some (k, m) ->
  Forall (fun later => forall m', resolve o pageModels dataModels later <> Some (k, m'))
         after ->
  lookup k (recorded o pageModels dataModels (before ++ object :: after)) = Some m.
Proof.
  intros Hr Hafter. rewrite recorded_lookup, resolved_app. cbn [resolved].
  rewrite Hr, rev_app_distr. cbn [rev]. rewrite lookup_app, lookup_app.
  rewrite (resolved_none _ _ _ _ Hafter). simpl. by rewrite String.eqb_refl.
Qed.

(** An id that is a recorded key is looked up as that key. *)
Lemma modelFor_recorded byId object s m :
  idOf o object = VStr s -> lookup s byId = Some m ->
  modelFor o byId object = m.
Proof.
  intros Hid Hl. unfold modelFor, get. rewrite Hid. simpl isNil. cbn iota.
  unfold castPath, isKey. simpl hasOwn. rewrite Hl.
  rewrite bool_decide_eq_true_2 by eauto. rewrite orb_true_r.
  simpl. rewrite Hl. simpl. by destruct m.
Qed.

Lemma walk_undefined p : walk VUndefined p = VUndefined.
Proof. by destruct p. Qed.

(** An id none of whose readings is a recorded key yields no model. *)
Lemma modelFor_unrecorded byId object :
  lookup (toKey (idOf o object)) byId = None ->
  (forall k, hd_error (idPath (idOf o object)) = Some k -> lookup k byId = None) ->
  modelFor o byId object = VUndefined.
Proof.
  intros Hkey Hpath. unfold modelFor, get. simpl isNil. cbn iota.
  assert (Hcast : castPath (idOf o object) (VObj byId) = idPath (idOf o object)).
  { unfold idPath, castPath, isKey. unfold toKey in Hkey.
    destruct (idOf o object); try reflexivity; simpl hasOwn; simpl toString in *;
      rewrite Hkey; reflexivity. }
  rewrite Hcast. destruct (idPath (idOf o object)) as [|k rest]; [reflexivity|].
  simpl. rewrite (Hpath k eq_refl). simpl. by rewrite walk_undefined.
Qed.

Lemma annotateObject_unmatched byName byId object :
  truthy (modelFor o byId object) = false ->
  annotateObject o byName byId object = ([], Ok object).
Proof.
  unfold annotateObject, modelFor, idOf. by intros ->.
Qed.

Lemma annotateObject_matched byName byId object :
  truthy (modelFor o byId object) = true ->
  annotateObject o byName byId object
  = addMetadata object (modelFor o byId object) (fileContext o byName object).
Proof.
  unfold annotateObject, modelFor, idOf. by intros ->.
Qed.

End MatcherFacts.

Lemma patch_length objects after : length (patch objects after) = length objects.
Proof.
  revert after. induction objects as [|object rest IH]; intros after; [reflexivity|].
  cbn [patch]. destruct (isDataObject object); [destruct after|]; simpl; by rewrite IH.
Qed.

(** The merge leaves alone the objects that are not tagged as data. *)
Lemma patch_lookup_other objects after i object :
  objects !! i = Some object -> isDataObject object = false ->
  patch objects after !! i = Some object.
Proof.
  revert after i. induction objects as [|x rest IH]; intros after i Hi Hd; [discriminate|].
  cbn [patch]. destruct i as [|i]; simpl in Hi.
  - injection Hi as ->. by rewrite Hd.
  - destruct (isDataObject x); [destruct after|]; simpl; by apply IH.
Qed.

Section MatcherRun.
Context `{PathSyntax} `{LowerCase} `{Sdk}.
Variable o : options.

Lemma matchObjectsToModels_ok objects models log out :
  matchObjectsToModels o objects models = (log, Ok out) ->
  let byName := keyBy models "name" in
  let pageModels := filterByType models "page" in
  let dataModels := filterByType models "data" in
  let byId := recorded o pageModels dataModels objects in
  exists l1 l2 annotated,
    annotatePhase o byName byId objects = (l2, Ok annotated)
    /\ log = [Info "matching files to models..."]
             ++ matchLog o pageModels dataModels objects
             ++ [InfoMatched (length byId) (length objects)] ++ l1 ++ l2
    /\ if mergeDataModels o then
         exists merged after,
           mergeDataObjects (List.filter isDataObject annotated)
             (objectFileKeyPath o) (source o) = ([], Ok (merged, after))
           /\ out = patch annotated after ++ [merged]
       else out = annotated.
Proof.
  intros Hrun byName pageModels dataModels byId. unfold matchObjectsToModels in Hrun.
  apply mbind_ok in Hrun as (l0 & [] & la & Hlog & Hrun & ->).
  injection Hlog as <-.
  rewrite matchPhase_run in Hrun.
  apply mbind_ok in Hrun as (lm & byId' & lb & Hmatch & Hrun & ->).
  injection Hmatch as <- <-. fold pageModels dataModels in Hrun |- *.
  change (fold_left _ (resolved o pageModels dataModels objects) []) with byId in Hrun.
  apply mbind_ok in Hrun as (lc & [] & ld & Hcount & Hrun & ->).
  injection Hcount as <-.
  apply mbind_ok in Hrun as (l1 & [] & le & _ & Hrun & ->).
  apply mbind_ok in Hrun as (l2 & annotated & l3 & Hann & Hrun & ->).
  exists l1, l2, annotated. split; [exact Hann|].
  destruct (mergeDataModels o).
  - apply mbind_ok in Hrun as (l4 & [merged after] & l5 & Hmerge & Hret & ->).
    injection Hret as <- <-.
    pose proof (mergeDataObjects_ok _ _ _ _ _ _ Hmerge) as (_ & _ & ->).
    split; [by rewrite !app_nil_r|]. eauto.
  - injection Hrun as <- <-. by rewrite !app_nil_r.
Qed.

Lemma annotatePhase_ok byName byId objects log annotated :
  annotatePhase o byName byId objects = (log, Ok annotated) ->
  length annotated = length objects
  /\ forall i object, objects !! i = Some object ->
       exists l r, annotateObject o byName byId object = (l, Ok r)
                   /\ annotated !! i = Some r.
Proof.
  unfold annotatePhase. intros Hrun. apply mapItemsM_ok in Hrun as [Hlen Hall].
  split; [exact Hlen|]. intros i object Hi. by apply Hall.
Qed.

End MatcherRun.

(** ** Matching is keyed by the object id *)

Section KeyedById.
Context `{PathSyntax} `{LowerCase} `{Sdk}.
Variable o : options.

(** C10.  The match phase always returns the map from id keys to the
    models resolved, a later object with the same id replacing the model
    of an earlier one; the annotation phase looks the model of every
    object up by its id.  So when [matchObjectsToModels] returns and a
    truthy model [m] is the last one resolved for the id [s], every
    object whose id is the string [s] is annotated with [m], and that
    annotation is its entry in the output (the merge of data objects
    aside). *)
Theorem matching_keyed_by_id objects models log out :
  matchObjectsToModels o objects models = (log, Ok out) ->
  let byName := keyBy models "name" in
  let pageModels := filterByType models "page" in
  let dataModels := filterByType models "data" in
  let byId := recorded o pageModels dataModels objects in
  matchPhase o pageModels dataModels [] objects
  = (matchLog o pageModels dataModels objects, Ok byId)
  /\ (forall i object,
        objects !! i = Some object ->
        exists l r,
          annotateObject o byName byId object = (l, Ok r)
          /\ (mergeDataModels o = false \/ isDataObject r = false -> out !! i = Some r))
  /\ (forall before later after s m i object,
        objects = before ++ later :: after ->
        resolve o pageModels dataModels later = Some (s, m) ->
        Forall (fun x => forall m', resolve o pageModels dataModels x <> Some (s, m'))
               after ->
        truthy m = true ->
        objects !! i = Some object ->
        idOf o object = VStr s ->
        lookup s byId = Some m
        /\ exists l r,
             addMetadata object m (fileContext o byName object) = (l, Ok r)
             /\ (mergeDataModels o = false \/ isDataObject r = false ->
                 out !! i = Some r)).
Proof.
  intros Hrun byName pageModels dataModels byId.
  pose proof (matchObjectsToModels_ok o _ _ _ _ Hrun) as (l1 & l2 & annotated & Hann & _ & Hout).
  fold byName pageModels dataModels byId in Hann.
  pose proof (annotatePhase_ok o _ _ _ _ _ Hann) as [Hlen Hall].
  assert (Hentry : forall i object,
            objects !! i = Some object ->
            exists l r,
              annotateObject o byName byId object = (l, Ok r)
              /\ (mergeDataModels o = false \/ isDataObject r = false ->
                  out !! i = Some r)).
  { intros i object Hi. destruct (Hall i object Hi) as (l & r & Hr & Hi').
    exists l, r. split; [exact Hr|]. intros Hcase.
    destruct (mergeDataModels o).
    - destruct Hout as (merged & after & _ & ->).
      destruct Hcase as [|Hd]; [discriminate|].
      rewrite lookup_app_l by (rewrite patch_length; by eapply lookup_lt_Some).
      by apply patch_lookup_other.
    - by subst out. }
  split; [apply matchPhase_run|]. split; [exact Hentry|].
  intros before later after s m i object Hobjects Hlater Hafter Hm Hi Hid.
  assert (Hl : lookup s byId = Some m).
  { unfold byId. rewrite Hobjects. by apply recorded_last. }
  split; [exact Hl|].
  destruct (Hentry i object Hi) as (l & r & Hr & Hi').
  exists l, r. split; [|exact Hi'].
  rewrite annotateObject_matched in Hr; rewrite (modelFor_recorded o _ _ _ _ Hid Hl) in *;
    auto.
Qed.

End KeyedById.

(** The file [content/a.md] read from two sources: the model [person] is
    resolved for the first reading and the model [post] for the second,
    and both are annotated as a [post]. *)
Lemma matching_keyed_by_id_witness :
  exists l,
    @addMetadata dotSyntax asciiLowerCase sharedAsPerson pagePostModel
      (@fileContext dotSyntax (sampleOptions false false)
         (keyBy sampleModels "name") sharedAsPerson)
    = (l, Ok sharedAsPersonAnnotated).
Proof.
  destruct (@matching_keyed_by_id dotSyntax asciiLowerCase sampleSdk (sampleOptions false false)
              [sharedAsPerson; sharedAsPage] sampleModels
              [Info "matching files to models..."; InfoMatched 1 2]
              [sharedAsPersonAnnotated; sharedAsPageAnnotated])
    as (_ & _ & Hshared).
  - vm_compute. reflexivity.
  - destruct (Hshared [sharedAsPerson] sharedAsPage [] "content/a.md" pagePostModel
                      0 sharedAsPerson)
      as (_ & l & r & Hr & Hout).
    + reflexivity.
    + vm_compute. reflexivity.
    + constructor.
    + reflexivity.
    + reflexivity.
    + vm_compute. reflexivity.
    + exists l. rewrite Hr. f_equal. f_equal.
      specialize (Hout (or_introl eq_refl)). by injection Hout.
Defined.

(** ** Failures are logged and local *)

Lemma patch_no_data objects after :
  List.filter isDataObject objects = [] -> patch objects after = objects.
Proof.
  revert after. induction objects as [|object rest IH]; intros after; [reflexivity|].
  cbn [List.filter patch]. destruct (isDataObject object); [discriminate|].
  intros Hrest. by rewrite IH.
Qed.

Section Failures.
Context `{PathSyntax} `{LowerCase} `{Sdk}.
Variable o : options.

Lemma modelFor_empty object : modelFor o [] object = VUndefined.
Proof.
  unfold modelFor, get. simpl isNil. cbn iota.
  destruct (castPath (idOf o object) (VObj [])) as [|k rest]; [reflexivity|].
  simpl. by rewrite walk_undefined.
Qed.

Lemma matchLog_in pageModels dataModels objects i object message :
  objects !! i = Some object ->
  queryFor o pageModels dataModels object = Some (NoMatch message) ->
  In (Error message) (matchLog o pageModels dataModels objects).
Proof.
  intros Hi Hq. unfold matchLog. apply in_flat_map. exists object.
  split; [apply list_elem_of_In; by eapply list_elem_of_lookup_2|].
  rewrite Hq. by left.
Qed.

Lemma annotatePhase_unmatched byName objects :
  annotatePhase o byName [] objects = ([], Ok objects).
Proof.
  unfold annotatePhase.
  rewrite (mapItemsM_ext _ (fun _ object => mret object)).
  - apply mapItemsM_ret.
  - intros i object _. apply annotateObject_unmatched. by rewrite modelFor_empty.
Qed.

Lemma modelFor_other_ids pageModels dataModels objects object :
  (forall x k m, In x objects -> resolve o pageModels dataModels x = Some (k, m) ->
     k <> toKey (idOf o object) /\ hd_error (idPath (idOf o object)) <> Some k) ->
  modelFor o (recorded o pageModels dataModels objects) object = VUndefined.
Proof.
  intros Hother.
  assert (Hnone : forall k,
            (k = toKey (idOf o object) \/ hd_error (idPath (idOf o object)) = Some k) ->
            lookup k (recorded o pageModels dataModels objects) = None).
  { intros k Hk. rewrite recorded_lookup. apply resolved_none.
    apply Forall_forall. intros x Hx m Hr. apply list_elem_of_In in Hx.
    destruct (Hother x k m Hx Hr) as [Hne Hhd]. destruct Hk; congruence. }
  apply modelFor_unrecorded; auto.
Qed.

End Failures.

Lemma mbind_value {A B} (l : list diag) (a : A) (f : A -> M B) :
  (((l, Ok a) : M A) ≫= f) = (l ++ fst (f a), snd (f a)).
Proof. unfold mbind, M_bind, bind. by destruct (f a). Qed.

Section PassThrough.
Context `{PathSyntax} `{LowerCase} `{Sdk}.
Variable o : options.

(** When no model is resolved for any object, and no input object is
    tagged as data, the transform returns the objects as they are,
    followed by the merged object when the merge is on. *)
Lemma unmatched_passthrough objects models :
  resolved o (filterByType models "page") (filterByType models "data") objects = [] ->
  List.filter isDataObject objects = [] ->
  exists log,
    matchObjectsToModels o objects models
    = (log, Ok (objects ++ if mergeDataModels o then [seed (source o)] else [])).
Proof.
  intros Hres Hdata. unfold matchObjectsToModels, log.
  rewrite matchPhase_run, Hres. cbn [fold_left].
  rewrite !mbind_value. cbn [fst snd].
  assert (Hlog : exists l, (if logMatchedModels o then logMatched [] else mret ())
                           = (l, Ok tt)).
  { destruct (logMatchedModels o); eexists; reflexivity. }
  destruct Hlog as [l ->]. rewrite mbind_value, annotatePhase_unmatched, mbind_value.
  cbn [fst snd]. destruct (mergeDataModels o).
  - rewrite Hdata. eexists. cbn. rewrite (patch_no_data _ _ Hdata). reflexivity.
  - rewrite (app_nil_r objects). eexists. reflexivity.
Qed.

End PassThrough.

(** The claim C3 as written fails.  The schema has the page model
    [post] and no data model.  The file [content/a.md], read from a
    source named [data], declares the type [unknown] and matches no
    model, there being none to choose from; the same file read from a
    source named [pages] matches the model [post] and has the same id.
    The unmatched object comes out annotated as a [post]. *)
Lemma failures_are_local_counterexample :
  @queryFor dotSyntax sampleSdk (sampleOptions false false)
    (filterByType pageModelsOnly "page") (filterByType pageModelsOnly "data")
    sharedAsData
  = Some (NoMatch "no single model for a.md")
  /\ @matchObjectsToModels dotSyntax asciiLowerCase sampleSdk (sampleOptions false false)
       [sharedAsData; sharedAsPage] pageModelsOnly
     = ([Info "matching files to models..."; Error "no single model for a.md";
         InfoMatched 1 2],
        Ok [sharedAsDataAnnotated; sharedAsPageAnnotated])
  /\ sharedAsDataAnnotated <> sharedAsData.
Proof. split; [|split]; [vm_compute; reflexivity..|discriminate]. Qed.

Section FailuresAreLocal.
Context `{PathSyntax} `{LowerCase} `{Sdk}.
Variable o : options.

(** C3, amended.  Every failure is logged and returns normally with the
    value at hand unchanged: a query without a model leaves the id map
    as it is; a value that is not an object, or not an array for a
    [list] field, comes back as it is; so does the value of a [model]
    field whose [models] property is unusable, whose single model is
    unknown, or whose [type] is missing or unknown.  In the whole
    transform, the message of an unmatched object is in the log, and the
    object is in the output unchanged when the lookup of its id in the
    id map finds nothing: neither its id nor the first key of its id
    read as a path is the id of a matched object, that first key is not
    the name of a member that every object inherits, such as
    [constructor], and no matched object has the id [__proto__], which
    would make its model the prototype of the map (and the merge does
    not rewrite the object).  When no object is matched at all and no id
    begins with an inherited name, the transform returns the objects as
    they are. *)
Theorem failures_are_local :
  (forall pageModels dataModels byId object message,
     queryFor o pageModels dataModels object = Some (NoMatch message) ->
     matchStep o pageModels dataModels byId object = ([Error message], Ok byId))
  /\ (forall data model c modelPath,
        isPlainObject data = false ->
        modelPathOf model c = ([], Ok modelPath) ->
        addMetadata data model c
        = ([ErrorAt errNotObject (locationOf c modelPath)], Ok data))
  /\ (forall fieldValue fieldModel c,
        getProp fieldModel "type" = VStr "list" ->
        isArray fieldValue = false ->
        mapObjectField fieldValue fieldModel c
        = ([ErrorAt errNotArray (locationOf c (modelFieldPath c))], Ok fieldValue))
  /\ (forall fieldValue fieldModel c,
        getProp fieldModel "type" = VStr "model" ->
        let loc := locationOf c (modelFieldPath c) in
        let models := getProp fieldModel "models" in
        let byName := VObj (modelsByName c) in
        (hasKey fieldModel "models" = false \/ isArray models = false
         \/ size models = 0 ->
         mapObjectField fieldValue fieldModel c
         = ([ErrorAt errModelsProperty loc], Ok fieldValue))
        /\ (isArray models = true -> size models = 1 ->
            has byName (hd VUndefined (elements models)) = false ->
            mapObjectField fieldValue fieldModel c
            = ([ErrorAt errModelsUnknown loc], Ok fieldValue))
        /\ (isArray models = true -> 1 < size models ->
            hasKey fieldValue "type" = false ->
            mapObjectField fieldValue fieldModel c
            = ([ErrorAt errTypeMissing loc], Ok fieldValue))
        /\ (isArray models = true -> 1 < size models ->
            hasKey fieldValue "type" = true ->
            has byName (getProp fieldValue "type") = false ->
            mapObjectField fieldValue fieldModel c
            = ([ErrorAt errTypeUnknown loc], Ok fieldValue)))
  /\ (forall objects models log out i object message,
        let pageModels := filterByType models "page" in
        let dataModels := filterByType models "data" in
        matchObjectsToModels o objects models = (log, Ok out) ->
        objects !! i = Some object ->
        queryFor o pageModels dataModels object = Some (NoMatch message) ->
        In (Error message) log
        /\ ((forall x k m, In x objects ->
               resolve o pageModels dataModels x = Some (k, m) ->
               k <> toKey (idOf o object)
               /\ hd_error (idPath (idOf o object)) <> Some k
               /\ k <> "__proto__") ->
            plainId (idOf o object) = true ->
            mergeDataModels o = false \/ isDataObject object = false ->
            out !! i = Some object))
  /\ (forall objects models,
        resolved o (filterByType models "page") (filterByType models "data") objects
        = [] ->
        forallb (fun object => plainId (idOf o object)) objects = true ->
        List.filter isDataObject objects = [] ->
        exists log,
          matchObjectsToModels o objects models
          = (log, Ok (objects ++ if mergeDataModels o then [seed (source o)] else []))).
Proof.
  split; [|split; [|split; [|split; [|split]]]].
  - intros pageModels dataModels byId object message Hq.
    rewrite matchStep_run. unfold resolve. by rewrite Hq.
  - intros data model c modelPath Hdata Hpath.
    rewrite addMetadata_not_object by assumption. by rewrite Hpath.
  - intros fieldValue fieldModel c Ht Harr.
    rewrite (mapObjectField_list _ _ _ Ht). by destruct fieldValue.
  - intros fieldValue fieldModel c Ht loc models byName.
    rewrite (mapObjectField_model _ _ _ Ht). cbn zeta. fold models byName loc.
    split; [|split; [|split]].
    + intros [Hk|[Harr|Hsize]].
      * by rewrite Hk.
      * rewrite Harr. by rewrite orb_true_r.
      * rewrite Hsize. by rewrite !orb_true_r.
    + intros Harr Hsize Hhas.
      rewrite (getProp_models_hasKey _ Harr), Harr, Hsize, Hhas. reflexivity.
    + intros Harr Hsize Hk.
      rewrite (getProp_models_hasKey _ Harr), Harr, Hk.
      replace (size models <? 1)%nat with false by (symmetry; apply Nat.ltb_ge; lia).
      replace (size models =? 1)%nat with false by (symmetry; apply Nat.eqb_neq; lia).
      reflexivity.
    + intros Harr Hsize Hk Hhas.
      rewrite (getProp_models_hasKey _ Harr), Harr, Hk, Hhas.
      replace (size models <? 1)%nat with false by (symmetry; apply Nat.ltb_ge; lia).
      replace (size models =? 1)%nat with false by (symmetry; apply Nat.eqb_neq; lia).
      reflexivity.
  - intros objects models log out i object message pageModels dataModels
      Hrun Hi Hq.
    set (byId := recorded o pageModels dataModels objects).
    pose proof (matchObjectsToModels_ok o _ _ _ _ Hrun)
      as (l1 & l2 & annotated & Hann & Hlog & Hout).
    fold pageModels dataModels byId in Hann, Hlog.
    split.
    + rewrite Hlog. apply in_or_app. right. apply in_or_app. left.
      by apply (matchLog_in o _ _ _ i object).
    + intros Hother _ Hcase.
      assert (Hmodel : truthy (modelFor o byId object) = false).
      { unfold byId.
        rewrite (modelFor_other_ids o pageModels dataModels objects object);
          [reflexivity|].
        intros x k m Hx Hr. destruct (Hother x k m Hx Hr) as (Hid & Hhd & _).
        auto. }
      destruct (annotatePhase_ok o _ _ _ _ _ Hann) as [Hlen Hall].
      destruct (Hall i object Hi) as (l & r & Hr & Hi').
      rewrite annotateObject_unmatched in Hr by assumption.
      injection Hr as _ <-.
      destruct (mergeDataModels o).
      * destruct Hout as (merged & after & _ & ->).
        destruct Hcase as [|Hd]; [discriminate|].
        rewrite lookup_app_l by (rewrite patch_length; by eapply lookup_lt_Some).
        by apply patch_lookup_other.
      * by subst out.
  - intros objects models Hnone _. by apply unmatched_passthrough.
Qed.

End FailuresAreLocal.

(** The stray data file [data/stray.yaml] next to a matched page, in a
    schema without a data model: its message is logged and it is
    returned as it is. *)
Lemma failures_are_local_witness :
  In (Error "no single model for stray.yaml")
     [Info "matching files to models..."; Error "no single model for stray.yaml";
      InfoMatched 1 2]
  /\ [strayData; sharedAsPageAnnotated] !! 0 = Some strayData.
Proof.
  destruct (@failures_are_local dotSyntax asciiLowerCase sampleSdk (sampleOptions false false))
    as (_ & _ & _ & _ & Hwhole & _).
  destruct (Hwhole [strayData; sharedAsPage] pageModelsOnly
                   [Info "matching files to models...";
                    Error "no single model for stray.yaml"; InfoMatched 1 2]
                   [strayData; sharedAsPageAnnotated] 0 strayData
                   "no single model for stray.yaml")
    as (Hlog & Hsame).
  - vm_compute. reflexivity.
  - reflexivity.
  - vm_compute. reflexivity.
  - split; [exact Hlog|]. apply Hsame; [|reflexivity|by left].
    intros x k m [<-|[<-|[]]] Hr; vm_compute in Hr.
    + discriminate.
    + injection Hr as <- _. split; [|split]; vm_compute; discriminate.
Defined.

(** ** An exception that escapes the transform *)

Section Raises.
Context `{PathSyntax} `{LowerCase}.

(** [_.has(modelsByName, name)] reads a dotted [name] as a path while
    [modelsByName[name]] reads it as one key; when the first succeeds and
    the second finds nothing, [addMetadata] is entered with [undefined]
    as the model, and [model.name] raises. *)
Lemma undefined_model_raises data model c :
  isNil model = true -> modelFieldPath c = [] ->
  addMetadata data model c = throw (TypeError "Cannot read property 'name'").
Proof.
  intros Hn Hpath. unfold addMetadata, addMetadataWith, modelPathOf, prop.
  by rewrite Hpath, Hn.
Qed.

Lemma reference_field_raises fieldValue fieldModel c :
  getProp fieldModel "type" = VStr "reference" ->
  hasKey fieldValue "type" = true ->
  has (VObj (modelsByName c)) (getProp fieldValue "type") = true ->
  isNil (getProp (VObj (modelsByName c)) (toKey (getProp fieldValue "type"))) = true ->
  mapObjectField fieldValue fieldModel c
  = throw (TypeError "Cannot read property 'name'").
Proof.
  intros Ht Hk Hhas Hn. rewrite (mapObjectField_reference _ _ _ Ht), Hk, Hhas.
  by apply undefined_model_raises.
Qed.

End Raises.

(** C8.  The transform can raise: for the page [content/b.md], matched
    to the model [post], whose [author] reference has the type
    ["post.name"], [matchObjectsToModels] ends in a [TypeError] instead
    of returning an object list. *)
Theorem matchObjectsToModels_raises :
  @matchObjectsToModels dotSyntax asciiLowerCase sampleSdk (sampleOptions true false)
    [dottedTypePage] sampleModels
  = ([Info "matching files to models..."; InfoMatched 1 1],
     Throw (TypeError "Cannot read property 'name'")).
Proof. vm_compute. reflexivity. Qed.

(** ** Idempotence of the annotation: property lists *)

Lemma distinct_NoDup (keys : list string) : distinct keys = true -> List.NoDup keys.
Proof.
  induction keys as [|k rest IH]; simpl; [constructor|].
  intros [Hk Hrest]%andb_true_iff. constructor; [|by apply IH].
  intros Hin. apply negb_true_iff in Hk.
  assert (existsb (String.eqb k) rest = true); [|congruence].
  apply existsb_exists. exists k. split; [exact Hin|apply String.eqb_refl].
Qed.

Lemma assignKey_same k v props : lookup k props = Some v -> assignKey k v props = props.
Proof.
  induction props as [|[k0 v0] props IH]; simpl; [discriminate|].
  destruct (String.eqb_spec k0 k) as [->|Hne].
  - by intros [= ->].
  - intros Hl. by rewrite IH.
Qed.

Lemma assignKey_fresh k v props :
  ~ In k (map fst props) -> assignKey k v props = props ++ [(k, v)].
Proof.
  induction props as [|[k0 v0] props IH]; simpl; [reflexivity|].
  intros Hnot. destruct (String.eqb_spec k0 k) as [->|Hne]; [tauto|].
  rewrite IH by tauto. reflexivity.
Qed.

Lemma assignKey_keys_in k v props x :
  In x (map fst (assignKey k v props)) -> x = k \/ In x (map fst props).
Proof.
  induction props as [|[k0 v0] props IH]; simpl.
  - intros [<-|[]]. by left.
  - destruct (String.eqb k0 k); simpl; [tauto|].
    intros [<-|Hin]; [tauto|]. destruct (IH Hin); tauto.
Qed.

Lemma assignKey_NoDup k v props :
  List.NoDup (map fst props) -> List.NoDup (map fst (assignKey k v props)).
Proof.
  induction props as [|[k0 v0] props IH]; simpl.
  - intros _. repeat constructor. tauto.
  - intros Hnd. inversion Hnd as [|? ? Hnot Hnd']; subst.
    destruct (String.eqb_spec k0 k) as [->|Hne]; simpl; [by constructor|].
    constructor; [|by apply IH].
    intros Hin. apply assignKey_keys_in in Hin as [->|Hin]; tauto.
Qed.

Lemma fold_assignKey_NoDup (source target : list (string * value)) :
  List.NoDup (map fst target) ->
  List.NoDup (map fst (fold_left (fun acc kv => assignKey (fst kv) (snd kv) acc)
                                 source target)).
Proof.
  revert target. induction source as [|[k v] source IH]; intros target Hnd; [exact Hnd|].
  simpl. apply IH. by apply assignKey_NoDup.
Qed.

Lemma assign_NoDup target source :
  List.NoDup (map fst target) -> List.NoDup (map fst (assign target source)).
Proof. apply fold_assignKey_NoDup. Qed.

Lemma fold_assignKey_fresh (source target : list (string * value)) :
  List.NoDup (map fst (target ++ source)) ->
  fold_left (fun acc kv => assignKey (fst kv) (snd kv) acc) source target
  = target ++ source.
Proof.
  revert target. induction source as [|[k v] source IH]; intros target Hnd; simpl.
  - by rewrite app_nil_r.
  - assert (Hfresh : ~ In k (map fst target)).
    { rewrite map_app in Hnd. apply NoDup_ListNoDup, NoDup_app in Hnd as (_ & Hdis & _).
      intros Hin. apply (Hdis k); [by apply list_elem_of_In|]. simpl. left. }
    rewrite assignKey_fresh by assumption. rewrite IH; rewrite <- app_assoc; auto.
Qed.

(** Copying an object gives the object. *)
Lemma assign_copy (props : list (string * value)) :
  List.NoDup (map fst props) -> assign [] (VObj props) = props.
Proof. intros Hnd. unfold assign. simpl. by apply fold_assignKey_fresh. Qed.

Lemma lookup_In_NoDup k v (props : list (string * value)) :
  List.NoDup (map fst props) -> In (k, v) props -> lookup k props = Some v.
Proof.
  induction props as [|[k0 v0] props IH]; simpl; [tauto|].
  intros Hnd [Heq|Hin].
  - injection Heq as -> ->. by rewrite String.eqb_refl.
  - inversion Hnd as [|? ? Hnot Hnd']; subst.
    destruct (String.eqb_spec k0 k) as [->|Hne].
    + exfalso. apply Hnot. apply in_map_iff. by exists (k, v).
    + by apply IH.
Qed.

(** Assigning again what an object already holds changes nothing. *)
Lemma fold_assignKey_held (source target : list (string * value)) :
  (forall k v, In (k, v) source -> lookup k target = Some v) ->
  fold_left (fun acc kv => assignKey (fst kv) (snd kv) acc) source target = target.
Proof.
  induction source as [|[k v] source IH]; intros Hheld; simpl; [reflexivity|].
  rewrite assignKey_same by (apply Hheld; by left).
  apply IH. intros k' v' Hin. apply Hheld. by right.
Qed.

Lemma assign_again target (source : list (string * value)) :
  List.NoDup (map fst source) ->
  assign (assign target (VObj source)) (VObj source) = assign target (VObj source).
Proof.
  intros Hnd. unfold assign at 1. simpl ownProps. apply fold_assignKey_held.
  intros k v Hin. rewrite lookup_assign. simpl ownProps.
  rewrite lookup_rev_NoDup by assumption.
  by rewrite (lookup_In_NoDup _ _ _ Hnd Hin).
Qed.

Lemma assignKey_in k v k0 v0 props :
  In (k, v) (assignKey k0 v0 props) -> (k = k0 /\ v = v0) \/ In (k, v) props.
Proof.
  induction props as [|[k1 v1] props IH]; simpl.
  - intros [[= <- <-]|[]]. by left.
  - destruct (String.eqb_spec k1 k0) as [->|Hne]; simpl.
    + intros [[= <- <-]|Hin]; tauto.
    + intros [Heq|Hin]; [tauto|]. destruct (IH Hin); tauto.
Qed.

(** Annotating the result of [attachMetadata] with the same computed
    metadata gives the same object. *)
Lemma attachMetadata_again props computed :
  List.NoDup (map fst props) -> List.NoDup (map fst computed) ->
  exists result,
    attachMetadata props computed = VObj result
    /\ attachMetadata result computed = VObj result
    /\ List.NoDup (map fst result)
    /\ (forall k v, In (k, v) result -> k = "__metadata" \/ In (k, v) props)
    /\ (forall k, k <> "__metadata" -> lookup k result = lookup k props).
Proof.
  intros Hprops Hcomputed. unfold attachMetadata at 1.
  set (meta := assign (assign [] (getKey (VObj props) "__metadata" VUndefined))
                      (VObj computed)).
  rewrite (assign_copy props Hprops).
  set (result := assign props (VObj [("__metadata", VObj meta)])).
  assert (Hresult : result = assignKey "__metadata" (VObj meta) props) by reflexivity.
  assert (Hl : lookup "__metadata" result = Some (VObj meta)).
  { by rewrite Hresult, lookup_assignKey, String.eqb_refl. }
  assert (Hnd : List.NoDup (map fst result)).
  { rewrite Hresult. by apply assignKey_NoDup. }
  exists result. split; [reflexivity|]. split; [|split; [exact Hnd|split]].
  - unfold attachMetadata. rewrite getKey_object, Hl. cbn [default from_option id].
    rewrite (assign_copy meta) by (unfold meta; apply assign_NoDup, assign_NoDup; constructor).
    unfold meta at 1. rewrite assign_again by assumption. fold meta.
    rewrite (assign_copy result Hnd). unfold assign. simpl.
    by rewrite assignKey_same.
  - intros k v Hin. rewrite Hresult in Hin.
    apply assignKey_in in Hin as [[-> _]|Hin]; auto.
  - intros k Hk. rewrite Hresult, lookup_assignKey.
    destruct (String.eqb_spec "__metadata" k); congruence.
Qed.

(** ** Idempotence of the annotation: traversals *)

Lemma mapValuesM_in (f : string -> value -> M value) props log props' k v' :
  mapValuesM f props = (log, Ok props') -> In (k, v') props' ->
  exists v l, In (k, v) props /\ f k v = (l, Ok v').
Proof.
  revert log props'. induction props as [|[k0 v0] props IH]; intros log props'.
  - intros [= _ <-] [].
  - cbn [mapValuesM]. intros Hrun.
    apply mbind_ok in Hrun as (l1 & v1 & l2 & Hv & Hrun & _).
    apply mbind_ok in Hrun as (l3 & rest' & l4 & Hrest & Hret & _).
    injection Hret as _ <-. intros [[= <- <-]|Hin].
    + exists v0, l1. split; [by left|exact Hv].
    + destruct (IH _ _ Hrest Hin) as (v & l & Hin' & Hf).
      exists v, l. split; [by right|exact Hf].
Qed.

Lemma mapValuesM_keys (f : string -> value -> M value) props log props' :
  mapValuesM f props = (log, Ok props') -> map fst props' = map fst props.
Proof.
  revert log props'. induction props as [|[k0 v0] props IH]; intros log props'.
  - by intros [= _ <-].
  - cbn [mapValuesM]. intros Hrun.
    apply mbind_ok in Hrun as (l1 & v1 & l2 & Hv & Hrun & _).
    apply mbind_ok in Hrun as (l3 & rest' & l4 & Hrest & Hret & _).
    injection Hret as _ <-. simpl. f_equal. by eapply IH.
Qed.

Lemma mapValuesM_fixed (f : string -> value -> M value) props :
  (forall k v, In (k, v) props -> exists l, f k v = (l, Ok v)) ->
  exists log, mapValuesM f props = (log, Ok props).
Proof.
  induction props as [|[k0 v0] props IH]; intros Hfixed.
  - by exists [].
  - destruct (Hfixed k0 v0 (or_introl eq_refl)) as [l Hf].
    destruct IH as [log Hrest]; [intros k v Hin; apply Hfixed; by right|].
    exists (l ++ (log ++ [])). cbn [mapValuesM].
    rewrite (mbind_run _ _ _ _ Hf), (mbind_run _ _ _ _ Hrest). reflexivity.
Qed.

Lemma mapItemsM_fixed (f : nat -> value -> M value) items idx :
  (forall i item, items !! i = Some item -> exists l, f (idx + i) item = (l, Ok item)) ->
  exists log, mapItemsM f idx items = (log, Ok items).
Proof.
  revert idx. induction items as [|x items IH]; intros idx Hfixed.
  - by exists [].
  - destruct (Hfixed 0 x eq_refl) as [l Hf]. rewrite Nat.add_0_r in Hf.
    destruct (IH (S idx)) as [log Hrest].
    { intros i item Hi. replace (S idx + i) with (idx + S i) by lia. by apply Hfixed. }
    exists (l ++ (log ++ [])). cbn [mapItemsM].
    rewrite (mbind_run _ _ _ _ Hf), (mbind_run _ _ _ _ Hrest). reflexivity.
Qed.

(** ** Idempotence of the annotation: models without a [__metadata] field *)

Lemma existsb_false_in {A} (f : A -> bool) l x :
  existsb f l = false -> In x l -> f x = false.
Proof.
  intros Hex Hin. destruct (f x) eqn:Hf; [|reflexivity].
  assert (existsb f l = true); [|congruence].
  apply existsb_exists. eauto.
Qed.

Lemma clean_element v x :
  declaresMetadata v = false -> In x (elements v) -> declaresMetadata x = false.
Proof.
  destruct v as [| | | |s|items|props]; simpl; try tauto.
  - intros _. induction s as [|c s IH]; simpl; [tauto|]. intros [<-|Hin]; auto.
  - intros Hex Hin. by apply (existsb_false_in _ _ _ Hex).
  - intros [_ Hex]%orb_false_iff Hin. apply in_map_iff in Hin as ([k x'] & <- & Hin).
    by apply (existsb_false_in _ _ _ Hex Hin).
Qed.

Lemma clean_getProp v k :
  declaresMetadata v = false -> declaresMetadata (getProp v k) = false.
Proof.
  intros Hv. destruct v as [| | | |s|items|props]; try reflexivity.
  - simpl. destruct (String.eqb k "length"); [reflexivity|].
    destruct (arrayIndex k); [|reflexivity]. by destruct (String.get n s).
  - simpl. destruct (String.eqb k "length"); [reflexivity|].
    destruct (arrayIndex k) as [n|]; [|reflexivity].
    destruct (nth_in_or_default n items VUndefined) as [Hin| ->]; [|reflexivity].
    by apply (clean_element (VArr items)).
  - simpl getProp. destruct (lookup k props) as [x|] eqn:Hl; [|reflexivity].
    apply (clean_element (VObj props)); [exact Hv|].
    simpl. apply in_map_iff. exists (k, x). split; [reflexivity|by apply lookup_in].
Qed.

Lemma clean_getKey v k d :
  declaresMetadata v = false -> declaresMetadata d = false ->
  declaresMetadata (getKey v k d) = false.
Proof.
  intros Hv Hd. unfold getKey.
  destruct (isNil v); [exact Hd|].
  pose proof (clean_getProp v k Hv) as Hp. by destruct (getProp v k).
Qed.

Lemma clean_findByName fields k fieldModel :
  declaresMetadata fields = false -> findByName fields k = Some fieldModel ->
  declaresMetadata fieldModel = false.
Proof.
  intros Hf Hfind. apply List.find_some in Hfind as [Hin _].
  by apply (clean_element fields).
Qed.

Lemma clean_no_metadata_field fields :
  declaresMetadata fields = false -> findByName fields "__metadata" = None.
Proof.
  intros Hf. destruct (findByName fields "__metadata") as [fm|] eqn:Hfind; [|reflexivity].
  pose proof (clean_findByName _ _ _ Hf Hfind) as Hclean.
  apply List.find_some in Hfind as [_ Hm].
  destruct fm as [| | | |s|items|props]; try discriminate.
  simpl in Hclean. apply orb_false_iff in Hclean as [Hclean _]. congruence.
Qed.

Lemma clean_itemModelOf fieldModel :
  declaresMetadata fieldModel = false -> declaresMetadata (itemModelOf fieldModel) = false.
Proof. intros Hf. by apply clean_getKey. Qed.

(** ** Idempotence of the annotation: values alike as keys *)

Lemma akin_refl v : akin v v.
Proof.
  unfold akin. split; [reflexivity|]. split; [reflexivity|].
  destruct v as [| | | | |items|]; simpl; auto.
  induction items; constructor; auto.
Qed.

Lemma akin_objects a b : akin (VObj a) (VObj b).
Proof. by repeat split. Qed.

Lemma akin_arrays xs ys : Forall2 akin xs ys -> akin (VArr xs) (VArr ys).
Proof.
  intros Hall. unfold akin. split; [|split; [reflexivity|]].
  - simpl. f_equal. induction Hall as [|x y xs ys (Hs & Hn & _) _ IH]; [reflexivity|].
    simpl. by rewrite Hs, Hn, IH.
  - simpl. eapply Forall2_impl; [exact Hall|]. by intros x y (Hs & Hn & _).
Qed.

Section AkinPaths.
Context `{PathSyntax}.

Lemma akin_castPath p p' object : akin p p' -> castPath p object = castPath p' object.
Proof.
  intros (Hs & Hn & Hk). destruct p, p'; simpl in Hk; try contradiction;
    try discriminate; try (by injection Hk as ->); try reflexivity.
  simpl. clear Hs Hn. induction Hk as [|x y xs ys [Hx _] _ IH]; [reflexivity|].
  simpl. unfold toKey at 1 3. by rewrite Hx, IH.
Qed.

Lemma akin_has p p' object : akin p p' -> has object p = has object p'.
Proof. intros Hp. unfold has. by rewrite (akin_castPath _ _ _ Hp). Qed.

End AkinPaths.

(** ** Idempotence of the annotation *)

Lemma wellFormed_object props :
  wellFormed (VObj props) = true ->
  List.NoDup (map fst props)
  /\ forall k v, In (k, v) props -> wellFormed v = true.
Proof.
  simpl. intros [Hd Hall]%andb_true_iff. split; [by apply distinct_NoDup|].
  intros k v Hin. rewrite forallb_forall in Hall. apply (Hall (k, v) Hin).
Qed.

Lemma wellFormed_array items :
  wellFormed (VArr items) = true -> forall item, In item items -> wellFormed item = true.
Proof. simpl. intros Hall item Hin. rewrite forallb_forall in Hall. by apply Hall. Qed.

Lemma isStr_eq v s : isStr v s = true -> v = VStr s.
Proof. destruct v; try discriminate. simpl. by intros ->%String.eqb_eq. Qed.

Lemma hasKey_type_object v :
  hasKey v "type" = true -> exists props t, v = VObj props /\ lookup "type" props = Some t.
Proof.
  unfold hasKey. destruct v as [| | | |s|items|props]; try discriminate.
  simpl. intros Hd%bool_decide_eq_true. destruct Hd as [t Ht]. eauto.
Qed.

Section Idempotence.
Context `{PathSyntax} `{LowerCase}.

(** The second pass over the properties of an annotated object. *)
Lemma processField_again props fields c modelPath log props' :
  Forall (fun kv => fieldStable (snd kv)) props ->
  wellFormed (VObj props) = true ->
  declaresMetadata fields = false ->
  declaresMetadata (VObj (modelsByName c)) = false ->
  mapValuesM (processField mapObjectField fields c modelPath) props = (log, Ok props') ->
  forall k v', In (k, v') props' ->
    exists l, processField mapObjectField fields c modelPath k v' = (l, Ok v').
Proof.
  intros Hstable Hwf Hfields Hc Hrun k v' Hin.
  destruct (mapValuesM_in _ _ _ _ _ _ Hrun Hin) as (v & l & Hv & Hf).
  unfold processField in *.
  destruct (findByName fields k) as [fieldModel|] eqn:Hfind.
  - rewrite Forall_forall in Hstable.
    assert (Hs : fieldStable v) by (apply (Hstable (k, v)); by apply list_elem_of_In).
    destruct (wellFormed_object _ Hwf) as [_ Hchildren].
    destruct (Hs (Hchildren k v Hv) fieldModel (fieldContext c modelPath k) l v')
      as [_ Hagain]; auto.
    by apply (clean_findByName fields k).
  - injection Hf as _ <-. by exists [].
Qed.

Lemma objectStable_object props :
  Forall (fun kv => fieldStable (snd kv)) props -> objectStable (VObj props).
Proof.
  intros Hstable Hwf model c log r Hmodel Hc Hrun.
  apply addMetadata_object_ok in Hrun
    as (l0 & modelPath & l1 & props' & u & Hpath & Hprops & Hn & Hu & -> & _).
  set (computed := computedMetadata model (getProp model "type") u).
  set (fields := getKey model "fields" (VObj [])) in *.
  assert (Hfields : declaresMetadata fields = false) by (by apply clean_getKey).
  destruct (wellFormed_object _ Hwf) as [Hnd _].
  assert (Hnd' : List.NoDup (map fst props')).
  { by rewrite (mapValuesM_keys _ _ _ _ Hprops). }
  destruct (attachMetadata_again props' computed Hnd')
    as (result & Hfirst & Hsecond & _ & Hentries & _).
  { apply computedMetadata_NoDup. }
  rewrite Hfirst. split; [apply akin_objects|].
  destruct (mapValuesM_fixed (processField mapObjectField fields c modelPath) result)
    as [l2 Hfixed].
  { intros k v' Hin. destruct (Hentries k v' Hin) as [->|Hin'].
    - unfold processField. rewrite (clean_no_metadata_field _ Hfields). by exists [].
    - by apply (processField_again props fields c modelPath l1 props'). }
  exists (l0 ++ (l2 ++ [])). unfold addMetadata, addMetadataWith. fold fields.
  rewrite (mbind_run _ _ _ _ Hpath). rewrite (mbind_run _ _ _ _ Hfixed).
  rewrite (prop_defined _ _ Hn), mret_bind. rewrite (mbind_run _ _ _ _ Hu).
  cbn [fst snd]. fold computed. by rewrite Hsecond.
Qed.

Lemma objectStable_other v : isPlainObject v = false -> objectStable v.
Proof.
  intros Hv Hwf model c log r Hmodel Hc Hrun. pose proof Hrun as Hrun0.
  rewrite addMetadata_not_object in Hrun by assumption.
  apply mbind_ok in Hrun as (l0 & modelPath & l1 & Hpath & Hrun & _).
  injection Hrun as _ <-. split; [apply akin_refl|eauto].
Qed.

Lemma objectStable_children v :
  match v with
  | VObj props => Forall (fun kv => fieldStable (snd kv)) props
  | _ => True
  end -> objectStable v.
Proof.
  destruct v; intros Hc; try (by apply objectStable_other).
  by apply objectStable_object.
Qed.

(** The discriminator of an annotated object is that of the object, as
    far as [_.has] and the property key go. *)
Lemma discriminator_stable v model c log r :
  match v with
  | VObj props => Forall (fun kv => fieldStable (snd kv)) props
  | _ => True
  end ->
  wellFormed v = true ->
  declaresMetadata model = false ->
  declaresMetadata (VObj (modelsByName c)) = false ->
  hasKey v "type" = true ->
  addMetadata v model c = (log, Ok r) ->
  hasKey r "type" = true /\ akin (getProp v "type") (getProp r "type").
Proof.
  intros Hstable Hwf Hmodel Hc Hk Hrun.
  apply hasKey_type_object in Hk as (props & t & -> & Ht).
  apply addMetadata_object_ok in Hrun
    as (l0 & modelPath & l1 & props' & u & Hpath & Hprops & Hn & Hu & -> & _).
  destruct (wellFormed_object _ Hwf) as [Hnd Hchildren].
  assert (Hnd' : List.NoDup (map fst props')).
  { by rewrite (mapValuesM_keys _ _ _ _ Hprops). }
  destruct (attachMetadata_again props'
              (computedMetadata model (getProp model "type") u) Hnd')
    as (result & -> & _ & _ & _ & Hkeep).
  { apply computedMetadata_NoDup. }
  pose proof (mapValuesM_lookup _ _ _ _ "type" Hprops) as Hl. rewrite Ht in Hl.
  destruct Hl as (l & t' & Hf & Ht').
  assert (Hr : lookup "type" result = Some t') by (rewrite Hkeep; [exact Ht'|discriminate]).
  split.
  - unfold hasKey. simpl. rewrite Hr. by apply bool_decide_eq_true_2.
  - simpl getProp. rewrite Ht, Hr. simpl. unfold processField in Hf.
    destruct (findByName (getKey model "fields" (VObj [])) "type") as [fieldModel|] eqn:Hfind.
    + rewrite Forall_forall in Hstable.
      assert (Hin : In ("type", t) props) by (by apply lookup_in).
      assert (Hs : fieldStable t).
      { apply (Hstable ("type", t)). by apply list_elem_of_In. }
      destruct (Hs (Hchildren _ _ Hin) fieldModel
                   (fieldContext c modelPath "type") l t') as [Hakin _]; auto.
      apply (clean_findByName (getKey model "fields" (VObj [])) "type"); [|exact Hfind].
      by apply clean_getKey.
    + injection Hf as _ <-. apply akin_refl.
Qed.

(** A value annotated through its own [type] is annotated the same way
    the second time. *)
Lemma byType_again v c log r :
  match v with
  | VObj props => Forall (fun kv => fieldStable (snd kv)) props
  | _ => True
  end ->
  wellFormed v = true ->
  declaresMetadata (VObj (modelsByName c)) = false ->
  hasKey v "type" = true ->
  has (VObj (modelsByName c)) (getProp v "type") = true ->
  addMetadata v (getProp (VObj (modelsByName c)) (toKey (getProp v "type"))) (restart c)
  = (log, Ok r) ->
  akin v r
  /\ hasKey r "type" = true
  /\ has (VObj (modelsByName c)) (getProp r "type") = true
  /\ exists log',
       addMetadata r (getProp (VObj (modelsByName c)) (toKey (getProp r "type")))
         (restart c) = (log', Ok r).
Proof.
  intros Hstable Hwf Hc Hk Hhas Hrun.
  set (model := getProp (VObj (modelsByName c)) (toKey (getProp v "type"))) in *.
  assert (Hmodel : declaresMetadata model = false) by (by apply clean_getProp).
  destruct (discriminator_stable v model (restart c) log r) as [Hk' Hakin]; auto.
  destruct (objectStable_children v Hstable Hwf model (restart c) log r)
    as [Hvr Hagain]; auto.
  split; [exact Hvr|]. split; [exact Hk'|]. split.
  - by rewrite <- (akin_has _ _ _ Hakin).
  - destruct Hakin as (Hs & _). unfold toKey. rewrite <- Hs. exact Hagain.
Qed.

Lemma fieldStable_children v :
  match v with
  | VObj props => Forall (fun kv => fieldStable (snd kv)) props
  | VArr items => Forall fieldStable items
  | _ => True
  end -> fieldStable v.
Proof.
  intros Hstable Hwf fieldModel c log r Hmodel Hc Hrun. pose proof Hrun as Hrun0.
  assert (Hobj : match v with
                 | VObj props => Forall (fun kv => fieldStable (snd kv)) props
                 | _ => True
                 end) by (by destruct v).
  assert (Hsame : r = v -> akin v r /\ exists log', mapObjectField r fieldModel c = (log', Ok r)).
  { intros ->. split; [apply akin_refl|eauto]. }
  destruct (isNil fieldModel) eqn:Hn.
  { rewrite mapObjectField_nil in Hrun by assumption. discriminate. }
  destruct (isStr (getProp fieldModel "type") "object") eqn:Hobject.
  { apply isStr_eq in Hobject. rewrite (mapObjectField_object _ _ _ Hobject) in Hrun.
    destruct (objectStable_children v Hobj Hwf fieldModel c log r) as [Hakin [l Hagain]];
      auto.
    split; [exact Hakin|]. exists l. by rewrite (mapObjectField_object _ _ _ Hobject). }
  destruct (isStr (getProp fieldModel "type") "model") eqn:Hmodelt.
  { apply isStr_eq in Hmodelt. rewrite (mapObjectField_model _ _ _ Hmodelt) in Hrun.
    cbn zeta in Hrun.
    destruct (negb (hasKey fieldModel "models")
              || negb (isArray (getProp fieldModel "models"))
              || (size (getProp fieldModel "models") <? 1)%nat) eqn:Hbad.
    { injection Hrun as _ <-. by apply Hsame. }
    destruct (size (getProp fieldModel "models") =? 1)%nat eqn:Hone.
    - destruct (negb (has (VObj (modelsByName c))
                          (hd VUndefined (elements (getProp fieldModel "models")))))
        eqn:Hunknown.
      { injection Hrun as _ <-. by apply Hsame. }
      set (model := getProp (VObj (modelsByName c))
                      (toKey (hd VUndefined (elements (getProp fieldModel "models"))))) in *.
      destruct (objectStable_children v Hobj Hwf model (restart c) log r)
        as [Hakin [l Hagain]]; auto.
      { by apply clean_getProp. }
      split; [exact Hakin|]. exists l.
      rewrite (mapObjectField_model _ _ _ Hmodelt). cbn zeta.
      by rewrite Hbad, Hone, Hunknown.
    - destruct (negb (hasKey v "type")) eqn:Hmissing.
      { injection Hrun as _ <-. by apply Hsame. }
      destruct (negb (has (VObj (modelsByName c)) (getProp v "type"))) eqn:Hunknown.
      { injection Hrun as _ <-. by apply Hsame. }
      apply negb_false_iff in Hmissing, Hunknown.
      destruct (byType_again v c log r Hobj Hwf Hc Hmissing Hunknown Hrun)
        as (Hakin & Hk & Hhas & l & Hagain).
      split; [exact Hakin|]. exists l.
      rewrite (mapObjectField_model _ _ _ Hmodelt). cbn zeta.
      by rewrite Hbad, Hone, Hk, Hhas. }
  destruct (isStr (getProp fieldModel "type") "reference") eqn:Hreference.
  { apply isStr_eq in Hreference.
    rewrite (mapObjectField_reference _ _ _ Hreference) in Hrun.
    destruct (hasKey v "type" && has (VObj (modelsByName c)) (getProp v "type"))
      eqn:Hinline.
    - apply andb_true_iff in Hinline as [Hk' Hhas'].
      destruct (byType_again v c log r Hobj Hwf Hc Hk' Hhas' Hrun)
        as (Hakin & Hk & Hhas & l & Hagain).
      split; [exact Hakin|]. exists l.
      rewrite (mapObjectField_reference _ _ _ Hreference). by rewrite Hk, Hhas.
    - injection Hrun as _ <-. by apply Hsame. }
  destruct (isStr (getProp fieldModel "type") "list") eqn:Hlist.
  { apply isStr_eq in Hlist. rewrite (mapObjectField_list _ _ _ Hlist) in Hrun.
    destruct v as [| | | | |items|]; try (injection Hrun as _ <-; by apply Hsame).
    apply mbind_ok in Hrun as (l1 & items' & l2 & Hitems & Hret & _).
    injection Hret as _ <-.
    destruct (mapItemsM_ok _ _ _ _ _ Hitems) as [Hlen Hall].
    assert (Heach : forall i item item',
              items !! i = Some item -> items' !! i = Some item' ->
              akin item item'
              /\ exists l, mapObjectField item' (itemModelOf fieldModel) (itemContext c i)
                           = (l, Ok item')).
    { intros i item item' Hi Hi'.
      destruct (Hall i item Hi) as (l & item'' & Hf & Hi'').
      assert (item'' = item') as -> by congruence. simpl in Hf.
      rewrite Forall_forall in Hstable.
      assert (Hin : item ∈ items) by (by eapply list_elem_of_lookup_2).
      apply (Hstable item Hin) with (log := l); auto.
      - apply (wellFormed_array _ Hwf). by apply list_elem_of_In.
      - by apply clean_itemModelOf. }
    split.
    - apply akin_arrays. apply Forall2_same_length_lookup_2; [by symmetry|].
      intros i item item' Hi Hi'. by destruct (Heach i item item' Hi Hi').
    - destruct (mapItemsM_fixed
                  (fun idx item =>
                     mapObjectField item (itemModelOf fieldModel) (itemContext c idx))
                  items' 0) as [l Hfixed].
      { intros i item' Hi'.
        destruct (lookup_lt_is_Some_2 items i) as [item Hi].
        { rewrite <- Hlen. by eapply lookup_lt_Some. }
        by destruct (Heach i item item' Hi Hi'). }
      exists (l ++ []). rewrite (mapObjectField_list _ _ _ Hlist).
      by rewrite (mbind_run _ _ _ _ Hfixed). }
  rewrite mapObjectField_scalar in Hrun by assumption.
  injection Hrun as _ <-. by apply Hsame.
Qed.

Lemma stable_all v : fieldStable v /\ objectStable v.
Proof.
  induction v as [| | | | |items IH|props IH] using value_ind.
  1-5: split; [by apply fieldStable_children|by apply objectStable_children].
  - split; [apply fieldStable_children|by apply objectStable_children].
    eapply Forall_impl; [exact IH|]. by intros x [Hx _].
  - assert (Hfields : Forall (fun kv => fieldStable (snd kv)) props).
    { eapply Forall_impl; [exact IH|]. by intros x [Hx _]. }
    split; [by apply fieldStable_children|by apply objectStable_children].
Qed.

End Idempotence.

(** The claim C6 as written fails: with a model that declares a field
    named [__metadata], the [__metadata] that the first annotation
    attaches to [{}] is itself annotated by the second. *)
Lemma annotation_idempotent_counterexample :
  exists first second,
    @addMetadata dotSyntax asciiLowerCase (VObj []) metadataFieldModel (rootContext "a.md" [])
    = ([], Ok first)
    /\ @addMetadata dotSyntax asciiLowerCase first metadataFieldModel (rootContext "a.md" [])
       = ([], Ok second)
    /\ second <> first.
Proof.
  exists (VObj [("__metadata", VObj [("modelType", VStr "object"); ("modelName", VStr "m")])]),
         (VObj [("__metadata",
                 VObj [("modelType", VStr "object"); ("modelName", VStr "m");
                       ("__metadata", VObj [("modelType", VStr "object");
                                            ("modelName", VStr "__metadata")])])]).
  split; [vm_compute; reflexivity|]. split; [vm_compute; reflexivity|discriminate].
Qed.

Section AnnotationIdempotent.
Context `{PathSyntax} `{LowerCase}.

(** C6, amended.  When neither the model nor the schema index declares a
    field named [__metadata], and [addMetadata] returns [r] for an
    object, a model and a file path, then [addMetadata] applied to [r]
    with the same model and file path returns [r] again, computed
    [__metadata] keys included.  (The data is a well-formed value: the
    keys of every object are distinct.) *)
Theorem annotation_idempotent data model c log r :
  wellFormed data = true ->
  declaresMetadata model = false ->
  declaresMetadata (VObj (modelsByName c)) = false ->
  addMetadata data model c = (log, Ok r) ->
  exists log', addMetadata r model c = (log', Ok r).
Proof.
  intros Hwf Hmodel Hc Hrun.
  destruct (stable_all data) as [_ Hstable].
  by destruct (Hstable Hwf model c log r Hmodel Hc Hrun).
Qed.

End AnnotationIdempotent.

Lemma annotation_idempotent_witness :
  exists log',
    @addMetadata dotSyntax asciiLowerCase sharedAsPageAnnotated pagePostModel
      (rootContext "a.md" (keyBy sampleModels "name"))
    = (log', Ok sharedAsPageAnnotated).
Proof.
  apply (@annotation_idempotent dotSyntax asciiLowerCase sharedAsPage pagePostModel
           (rootContext "a.md" (keyBy sampleModels "name")) []).
  - reflexivity.
  - reflexivity.
  - reflexivity.
  - vm_compute. reflexivity.
Defined.

(** * Further properties *)

(** ** What the annotation leaves alone *)

Lemma lookup_is_Some k (props : list (string * value)) :
  is_Some (lookup k props) <-> In k (map fst props).
Proof.
  induction props as [|[k0 v0] props IH]; simpl.
  - split; [by intros [? [=]]|tauto].
  - destruct (String.eqb_spec k0 k) as [->|Hne].
    + split; [by left|by eauto].
    + rewrite IH. split; [by right|]. intros [?|?]; [congruence|done].
Qed.

Lemma assignKey_keys_present k v props :
  In k (map fst props) -> map fst (assignKey k v props) = map fst props.
Proof.
  induction props as [|[k0 v0] props IH]; simpl; [tauto|].
  destruct (String.eqb_spec k0 k) as [->|Hne]; [reflexivity|].
  intros [?|Hin]; [congruence|]. simpl. by rewrite IH.
Qed.

Lemma filter_assignKey_out k v (props : list (string * value)) :
  List.filter (fun kv => negb (String.eqb (fst kv) k)) (assignKey k v props)
  = List.filter (fun kv => negb (String.eqb (fst kv) k)) props.
Proof.
  induction props as [|[k0 v0] props IH]; simpl.
  - by rewrite String.eqb_refl.
  - destruct (String.eqb_spec k0 k) as [->|Hne]; simpl.
    + by rewrite String.eqb_refl.
    + apply String.eqb_neq in Hne. rewrite Hne. simpl. by rewrite IH.
Qed.

Lemma map_assignKey (g : value -> value) k v props :
  map (fun kv => (fst kv, g (snd kv))) (assignKey k v props)
  = assignKey k (g v) (map (fun kv => (fst kv, g (snd kv))) props).
Proof.
  induction props as [|[k0 v0] props IH]; simpl; [reflexivity|].
  destruct (String.eqb k0 k); simpl; [reflexivity|]. by rewrite IH.
Qed.

(** The results of [_.mapValues], property by property. *)
Lemma mapValuesM_each (f : string -> value -> M value) props log props' :
  mapValuesM f props = (log, Ok props') ->
  Forall2 (fun kv kv' => fst kv' = fst kv
                         /\ exists l, f (fst kv) (snd kv) = (l, Ok (snd kv')))
          props props'.
Proof.
  revert log props'. induction props as [|[k0 v0] props IH]; intros log props'.
  - intros [= _ <-]. constructor.
  - cbn [mapValuesM]. intros Hrun.
    apply mbind_ok in Hrun as (l1 & v1 & l2 & Hv & Hrun & _).
    apply mbind_ok in Hrun as (l3 & rest' & l4 & Hrest & Hret & _).
    injection Hret as _ <-. constructor; [|by eapply IH].
    simpl. eauto.
Qed.

Lemma mapItemsM_each (f : nat -> value -> M value) items idx log items' :
  mapItemsM f idx items = (log, Ok items') ->
  Forall2 (fun x x' => exists i l, f i x = (l, Ok x')) items items'.
Proof.
  revert idx log items'. induction items as [|x items IH]; intros idx log items'.
  - intros [= _ <-]. constructor.
  - cbn [mapItemsM]. intros Hrun.
    apply mbind_ok in Hrun as (l1 & x1 & l2 & Hx & Hrun & _).
    apply mbind_ok in Hrun as (l3 & rest' & l4 & Hrest & Hret & _).
    injection Hret as _ <-. constructor; [eauto|by eapply IH].
Qed.

Section Untouched.
Context `{PathSyntax} `{LowerCase}.

Lemma addMetadata_other_ok data model c log r :
  isPlainObject data = false -> addMetadata data model c = (log, Ok r) -> r = data.
Proof.
  intros Hd Hrun. rewrite addMetadata_not_object in Hrun by done.
  apply mbind_ok in Hrun as (l0 & mp & l1 & _ & Hrun & _).
  apply mbind_ok in Hrun as (l2 & [] & l3 & _ & Hret & _). by injection Hret as _ <-.
Qed.

(** What a dispatch that returns has done: nothing, an annotation of the
    value, or the dispatch of the item declaration over an array. *)
Lemma mapObjectField_cases fv fm c log r :
  mapObjectField fv fm c = (log, Ok r) ->
  r = fv
  \/ (exists model c', addMetadata fv model c' = (log, Ok r))
  \/ (exists items items',
        fv = VArr items /\ r = VArr items'
        /\ mapItemsM (fun idx item =>
                        mapObjectField item (itemModelOf fm) (itemContext c idx))
                     0 items = (log, Ok items')).
Proof.
  intros Hrun.
  destruct (isNil fm) eqn:Hnil; [by rewrite mapObjectField_nil in Hrun|].
  destruct (isStr (getProp fm "type") "object") eqn:Hobject.
  { rewrite mapObjectField_object in Hrun by by apply isStr_eq. eauto. }
  destruct (isStr (getProp fm "type") "model") eqn:Hmodel.
  { rewrite mapObjectField_model in Hrun by by apply isStr_eq. cbn zeta in Hrun.
    repeat match type of Hrun with
           | (if ?b then _ else _) = _ => destruct b
           end; eauto;
      apply mbind_ok in Hrun as (? & [] & ? & _ & Hret & _);
      injection Hret as _ <-; by left. }
  destruct (isStr (getProp fm "type") "reference") eqn:Hreference.
  { rewrite mapObjectField_reference in Hrun by by apply isStr_eq.
    destruct (_ && _); [eauto|]. injection Hrun as _ <-. by left. }
  destruct (isStr (getProp fm "type") "list") eqn:Hlist.
  { rewrite mapObjectField_list in Hrun by by apply isStr_eq.
    destruct fv;
      try (apply mbind_ok in Hrun as (? & [] & ? & _ & Hret & _);
           injection Hret as _ <-; by left).
    apply mbind_ok in Hrun as (l1 & items' & l2 & Hitems & Hret & ->).
    injection Hret as <- <-. rewrite app_nil_r. right; right. eauto. }
  rewrite mapObjectField_scalar in Hrun by assumption.
  injection Hrun as _ <-. by left.
Qed.

Lemma withoutMetadata_attach props computed :
  List.NoDup (map fst props) ->
  withoutMetadata (attachMetadata props computed) = withoutMetadata (VObj props).
Proof.
  intros Hnd. unfold attachMetadata. rewrite assign_copy by assumption.
  unfold assign at 1. cbn [ownProps fold_left fst snd withoutMetadata].
  by rewrite map_assignKey, filter_assignKey_out.
Qed.

Lemma withoutMetadata_props (props props' : list (string * value)) :
  Forall2 (fun kv kv' => fst kv' = fst kv
                         /\ withoutMetadata (snd kv') = withoutMetadata (snd kv))
          props props' ->
  withoutMetadata (VObj props') = withoutMetadata (VObj props).
Proof.
  intros Hall. cbn [withoutMetadata]. f_equal. f_equal.
  induction Hall as [|[k v] [k' v'] props props' [Hk Hv] _ IH]; [reflexivity|].
  simpl in *. by rewrite Hk, Hv, IH.
Qed.

Lemma untouched_items (f : nat -> value -> M value) items items' :
  Forall2 (fun x x' => exists i l, f i x = (l, Ok x')) items items' ->
  Forall (fun x => forall i l x', f i x = (l, Ok x') ->
                   withoutMetadata x' = withoutMetadata x) items ->
  map withoutMetadata items' = map withoutMetadata items.
Proof.
  induction 1 as [|x x' items items' (i & l & Hx) _ IH]; [reflexivity|].
  intros Hall. inversion Hall as [|? ? Hx0 Hrest]; subst. simpl.
  by rewrite (Hx0 _ _ _ Hx), IH.
Qed.

Lemma untouched_props (f : string -> value -> M value) props props' :
  Forall2 (fun kv kv' => fst kv' = fst kv
                         /\ exists l, f (fst kv) (snd kv) = (l, Ok (snd kv')))
          props props' ->
  Forall (fun kv => forall l v', f (fst kv) (snd kv) = (l, Ok v') ->
                    withoutMetadata v' = withoutMetadata (snd kv)) props ->
  withoutMetadata (VObj props') = withoutMetadata (VObj props).
Proof.
  intros Heach Hall. apply withoutMetadata_props.
  induction Heach as [|kv kv' props props' [Hk (l & Hv)] _ IH]; [constructor|].
  inversion Hall as [|? ? Hv0 Hrest]; subst.
  constructor; [|by apply IH]. split; [exact Hk|by eapply Hv0].
Qed.

(** X1.  The annotation changes nothing but [__metadata] properties:
    when [mapObjectField] or [addMetadata] returns for a value whose
    objects have distinct keys, the result and the value are equal once
    the [__metadata] properties are removed from both at every depth.
    No field is dropped, renamed or reordered, no array changes its
    length and no scalar is altered. *)
Theorem annotation_only_touches_metadata v :
  (forall fieldModel c log r,
     wellFormed v = true -> mapObjectField v fieldModel c = (log, Ok r) ->
     withoutMetadata r = withoutMetadata v)
  /\ (forall model c log r,
        wellFormed v = true -> addMetadata v model c = (log, Ok r) ->
        withoutMetadata r = withoutMetadata v).
Proof.
  assert (Hfield : forall v,
            (forall model c log r,
               wellFormed v = true -> addMetadata v model c = (log, Ok r) ->
               withoutMetadata r = withoutMetadata v) ->
            (forall items, v = VArr items ->
               Forall (fun x => forall fm c log r,
                         wellFormed x = true -> mapObjectField x fm c = (log, Ok r) ->
                         withoutMetadata r = withoutMetadata x) items) ->
            forall fm c log r,
              wellFormed v = true -> mapObjectField v fm c = (log, Ok r) ->
              withoutMetadata r = withoutMetadata v).
  { intros v0 Hadd Hitems fm c log r Hwf Hrun.
    destruct (mapObjectField_cases _ _ _ _ _ Hrun)
      as [->|[(model & c' & Hrun')|(items & items' & -> & -> & Hrun')]];
      [reflexivity|by eapply Hadd|].
    specialize (Hitems items eq_refl).
    pose proof (wellFormed_array _ Hwf) as Hwfs.
    apply mapItemsM_each in Hrun'. cbn [withoutMetadata]. f_equal.
    eapply untouched_items; [exact Hrun'|].
    apply Forall_forall. intros x Hx i l x' Hitem.
    rewrite Forall_forall in Hitems.
    eapply Hitems; [exact Hx| |exact Hitem]. apply Hwfs. by apply list_elem_of_In. }
  induction v as [| | | | |items IH|props IH] using value_ind;
    try (split; [apply Hfield; [|discriminate]|];
         intros model c log r _ Hrun; by apply addMetadata_other_ok in Hrun as ->).
  - assert (Hadd : forall model c log r,
              wellFormed (VArr items) = true ->
              addMetadata (VArr items) model c = (log, Ok r) ->
              withoutMetadata r = withoutMetadata (VArr items)).
    { intros model c log r _ Hrun.
      by apply addMetadata_other_ok in Hrun as ->. }
    split; [|exact Hadd]. apply Hfield; [exact Hadd|].
    intros items0 [= <-]. eapply Forall_impl; [exact IH|]. by intros x [Hx _].
  - assert (Hadd : forall model c log r,
              wellFormed (VObj props) = true ->
              addMetadata (VObj props) model c = (log, Ok r) ->
              withoutMetadata r = withoutMetadata (VObj props)).
    { intros model c log r Hwf Hrun.
      destruct (wellFormed_object _ Hwf) as [Hnd Hwfs].
      apply addMetadata_object_ok in Hrun
        as (l0 & modelPath & l1 & props' & u & _ & Hprops & _ & _ & -> & _).
      rewrite withoutMetadata_attach
        by (rewrite (mapValuesM_keys _ _ _ _ Hprops); exact Hnd).
      eapply untouched_props; [exact (mapValuesM_each _ _ _ _ Hprops)|].
      apply Forall_forall. intros [k v] Hkv l v' Hv. simpl in *.
      unfold processField in Hv.
      destruct (findByName _ k) as [fieldModel|]; [|by injection Hv as _ <-].
      rewrite Forall_forall in IH. destruct (IH _ Hkv) as [Hv0 _].
      eapply Hv0; [|exact Hv]. eapply Hwfs. apply list_elem_of_In. exact Hkv. }
    split; [|exact Hadd]. apply Hfield; [exact Hadd|discriminate].
Qed.

End Untouched.

Lemma annotation_only_touches_metadata_witness :
  withoutMetadata
    (VObj [("type", VStr "cta"); ("text", VStr "Go");
           ("__metadata", VObj [("modelType", VStr "object"); ("modelName", VStr "cta")])])
  = withoutMetadata (VObj [("type", VStr "cta"); ("text", VStr "Go")]).
Proof.
  apply (proj1 (@annotation_only_touches_metadata dotSyntax asciiLowerCase
                  (VObj [("type", VStr "cta"); ("text", VStr "Go")]))
               sectionField sectionContext []);
    [reflexivity|vm_compute; reflexivity].
Defined.

Section AnnotationFrame.
Context `{PathSyntax} `{LowerCase}.

(** X2.  [addMetadata] on an object with distinct keys returns an object
    with the same keys in the same order, [__metadata] keeping its place
    when the object has one and coming last otherwise; a property other
    than [__metadata] for which the model declares no field of that name
    has the value it had. *)
Theorem addMetadata_frame props model c log r :
  List.NoDup (map fst props) ->
  addMetadata (VObj props) model c = (log, Ok r) ->
  exists props',
    r = VObj props'
    /\ map fst props'
       = map fst props
         ++ (if hasOwn (VObj props) "__metadata" then [] else ["__metadata"])
    /\ (forall k, k <> "__metadata" ->
          findByName (getKey model "fields" (VObj [])) k = None ->
          lookup k props' = lookup k props).
Proof.
  intros Hnd Hrun.
  apply addMetadata_object_ok in Hrun
    as (l0 & modelPath & l1 & props1 & u & _ & Hprops & _ & _ & -> & _).
  pose proof (mapValuesM_keys _ _ _ _ Hprops) as Hkeys.
  unfold attachMetadata. rewrite assign_copy by (by rewrite Hkeys).
  unfold assign at 1. cbn [ownProps fold_left fst snd].
  eexists. split; [reflexivity|]. split.
  - cbn [hasOwn]. case_bool_decide as Hhas.
    + apply lookup_is_Some in Hhas. rewrite <- Hkeys in Hhas.
      by rewrite assignKey_keys_present, Hkeys, app_nil_r.
    + rewrite lookup_is_Some, <- Hkeys in Hhas.
      by rewrite assignKey_fresh, map_app, Hkeys.
  - intros k Hk Hfield. rewrite lookup_assignKey.
    destruct (String.eqb_spec "__metadata" k) as [<-|_]; [done|].
    pose proof (mapValuesM_lookup _ _ _ _ k Hprops) as Hlook.
    destruct (lookup k props) as [v|]; [|exact Hlook].
    destruct Hlook as (l & v' & Hv & ->). unfold processField in Hv.
    rewrite Hfield in Hv. by injection Hv as _ <-.
Qed.

End AnnotationFrame.

Lemma addMetadata_frame_witness :
  exists props',
    VObj [("title", VStr "a");
          ("__metadata", VObj [("id", VStr "post.md"); ("modelName", VStr "post");
                               ("modelType", VStr "data")])] = VObj props'
    /\ map fst props' = ["title"; "__metadata"] ++ []
    /\ (forall k, k <> "__metadata" ->
          findByName (getKey postModel "fields" (VObj [])) k = None ->
          lookup k props'
          = lookup k [("title", VStr "a");
                      ("__metadata", VObj [("id", VStr "post.md");
                                           ("modelName", VStr "old")])]).
Proof.
  apply (@addMetadata_frame dotSyntax asciiLowerCase
           [("title", VStr "a");
            ("__metadata", VObj [("id", VStr "post.md"); ("modelName", VStr "old")])]
           postModel (rootContext "post.md" []) []).
  - repeat constructor; simpl; intuition discriminate.
  - vm_compute; reflexivity.
Defined.

Lemma foldSet_plain `{PathSyntax} kp props objects l t :
  foldSet kp (VObj props) objects = (l, Ok t) -> isPlainObject t = true.
Proof.
  revert props. induction objects as [|object rest IH]; intros props Hrun.
  - by injection Hrun as _ <-.
  - apply foldSet_cons in Hrun as (tree1 & _ & Hset & Hrun).
    unfold set in Hset. simpl isObject in Hset. cbn iota in Hset.
    apply baseSet_object_top in Hset as (props1 & -> & _). by eapply IH.
Qed.

Section OutputLength.
Context `{PathSyntax} `{LowerCase} `{Sdk}.
Variable o : options.

(** The same count, for the callers of the matcher. *)
Lemma output_counts objects models log out :
  matchObjectsToModels o objects models = (log, Ok out) ->
  length out = length objects + (if mergeDataModels o then 1 else 0)
  /\ (mergeDataModels o = true ->
      exists merged, last out = Some merged /\ isPlainObject merged = true).
Proof.
  intros Hrun. apply matchObjectsToModels_ok in Hrun as (l1 & l2 & annotated & Hann & _ & Hout).
  apply annotatePhase_ok in Hann as [Hlen _].
  destruct (mergeDataModels o).
  - destruct Hout as (merged & after & Hmerge & ->).
    split.
    + by rewrite length_app, patch_length, Hlen.
    + intros _. exists merged. split; [by rewrite last_snoc|].
      apply mergeDataObjects_ok in Hmerge as (_ & Hfold & _).
      by apply foldSet_plain in Hfold.
  - subst out. split; [by rewrite Nat.add_0_r|discriminate].
Qed.

(** X3.  When [matchObjectsToModels] returns, the output holds one object
    for every input object, followed by exactly one more when
    [mergeDataModels] is set: the merged data object, a plain object.
    No object is dropped or duplicated. *)
Theorem matchObjectsToModels_length objects models log out :
  matchObjectsToModels o objects models = (log, Ok out) ->
  length out = length objects + (if mergeDataModels o then 1 else 0)
  /\ (mergeDataModels o = true ->
      exists merged, last out = Some merged /\ isPlainObject merged = true).
Proof.
  intros Hrun. apply matchObjectsToModels_ok in Hrun as (l1 & l2 & annotated & Hann & _ & Hout).
  apply annotatePhase_ok in Hann as [Hlen _].
  destruct (mergeDataModels o).
  - destruct Hout as (merged & after & Hmerge & ->).
    split.
    + by rewrite length_app, patch_length, Hlen.
    + intros _. exists merged. split; [by rewrite last_snoc|].
      apply mergeDataObjects_ok in Hmerge as (_ & Hfold & _).
      by apply foldSet_plain in Hfold.
  - subst out. split; [by rewrite Nat.add_0_r|discriminate].
Qed.

End OutputLength.

Lemma matchObjectsToModels_length_witness :
  length [strayData; sharedAsPageAnnotated; seed sourceName] = 2 + 1
  /\ (true = true ->
      exists merged,
        last [strayData; sharedAsPageAnnotated; seed sourceName] = Some merged
        /\ isPlainObject merged = true).
Proof.
  apply (@matchObjectsToModels_length dotSyntax asciiLowerCase sampleSdk (sampleOptions true false)
           [strayData; sharedAsPage] sampleModels
           [Info "matching files to models..."; Error "no single model for stray.yaml";
            InfoMatched 1 2]).
  vm_compute; reflexivity.
Defined.

(** ** Runs that raise *)

Lemma bind_raises_l {A B} (m : M A) (f : A -> M B) : raises m -> raises (m ≫= f).
Proof. intros (l & e & ->). by exists l, e. Qed.

Lemma bind_raises_r {A B} (m : M A) (f : A -> M B) :
  modelled m -> (forall a, raises (f a)) -> raises (m ≫= f).
Proof.
  destruct m as [l [a|e|]]; intros Hm Hf.
  - destruct (Hf a) as (l' & e & Hfa). exists (l ++ l'), e.
    unfold mbind, M_bind, bind. by rewrite Hfa.
  - by exists l, e.
  - by destruct Hm.
Qed.

Lemma bind_raises_at {A B} (m : M A) (f : A -> M B) l a :
  m = (l, Ok a) -> raises (f a) -> raises (m ≫= f).
Proof.
  intros -> (l' & e & Hfa). exists (l ++ l'), e.
  unfold mbind, M_bind, bind. by rewrite Hfa.
Qed.

Lemma bind_modelled {A B} (m : M A) (f : A -> M B) :
  modelled m -> (forall a, modelled (f a)) -> modelled (m ≫= f).
Proof.
  destruct m as [l [a|e|]]; intros Hm Hf.
  - specialize (Hf a). unfold mbind, M_bind, bind, modelled in *.
    by destruct (f a) as [l' r'].
  - by unfold modelled.
  - by destruct Hm.
Qed.

Lemma modelled_cases {A} (m : M A) :
  modelled m -> (exists l a, m = (l, Ok a)) \/ raises m.
Proof.
  destruct m as [l [a|e|]]; intros Hm; [left; eauto|right; by exists l, e|by destruct Hm].
Qed.

Lemma raises_modelled {A} (m : M A) : raises m -> modelled m.
Proof. by intros (l & e & ->). Qed.

Lemma prop_modelled v k : modelled (prop v k).
Proof. unfold prop. by destruct (isNil v). Qed.

Lemma mapValuesM_modelled (f : string -> value -> M value) props :
  Forall (fun kv => modelled (f (fst kv) (snd kv))) props ->
  modelled (mapValuesM f props).
Proof.
  induction 1 as [|[k v] props Hv _ IH]; [done|]. cbn [mapValuesM].
  apply bind_modelled; [exact Hv|]. intros v'.
  apply bind_modelled; [exact IH|done].
Qed.

Lemma mapItemsM_modelled (f : nat -> value -> M value) items idx :
  Forall (fun x => forall i, modelled (f i x)) items ->
  modelled (mapItemsM f idx items).
Proof.
  intros Hall. revert idx.
  induction Hall as [|x items Hx _ IH]; intros idx; [done|]. cbn [mapItemsM].
  apply bind_modelled; [apply Hx|]. intros x'.
  apply bind_modelled; [apply IH|done].
Qed.

(** [_.map] raises when the function raises on one element and every
    step before it is modelled. *)
Lemma mapItemsM_raises (f : nat -> value -> M value) items idx j x :
  Forall (fun x => forall i, modelled (f i x)) items ->
  items !! j = Some x -> (forall i, raises (f i x)) ->
  raises (mapItemsM f idx items).
Proof.
  intros Hall. revert idx j.
  induction Hall as [|y items Hy _ IH]; intros idx j Hj Hx; [discriminate|].
  cbn [mapItemsM]. destruct j as [|j]; simpl in Hj.
  - injection Hj as ->. apply bind_raises_l, Hx.
  - apply bind_raises_r; [apply Hy|]. intros y'.
    apply bind_raises_l. by eapply IH.
Qed.

Section Modelled.
Context `{PathSyntax} `{LowerCase}.

Lemma modelPathOf_modelled model c : modelled (modelPathOf model c).
Proof.
  unfold modelPathOf. destruct (modelFieldPath c); [|done].
  apply bind_modelled; [apply prop_modelled|done].
Qed.

Lemma urlPathOf_modelled t c : modelled (urlPathOf t c).
Proof.
  unfold urlPathOf. destruct (isStr t "page"); [|done].
  unfold urlPathFromFilePath, pathParse. by destruct (filePath c).
Qed.

(** The annotation has no step outside the model. *)
Lemma annotation_modelled v :
  (forall fm c, modelled (mapObjectField v fm c))
  /\ (forall model c, modelled (addMetadata v model c)).
Proof.
  assert (Hother : forall v model c,
            isPlainObject v = false -> modelled (addMetadata v model c)).
  { intros v0 model c Hv. rewrite addMetadata_not_object by done.
    apply bind_modelled; [apply modelPathOf_modelled|done]. }
  assert (Hfield : forall v,
            (forall model c, modelled (addMetadata v model c)) ->
            (forall items, v = VArr items ->
               Forall (fun x => forall fm c, modelled (mapObjectField x fm c)) items) ->
            forall fm c, modelled (mapObjectField v fm c)).
  { intros v0 Hadd Hitems fm c.
    destruct (isNil fm) eqn:Hnil; [by rewrite mapObjectField_nil|].
    destruct (isStr (getProp fm "type") "object") eqn:Hobject.
    { rewrite mapObjectField_object by by apply isStr_eq. apply Hadd. }
    destruct (isStr (getProp fm "type") "model") eqn:Hmodel.
    { rewrite mapObjectField_model by by apply isStr_eq. cbn zeta.
      repeat match goal with
             | |- modelled (if ?b then _ else _) => destruct b
             end; try apply Hadd; done. }
    destruct (isStr (getProp fm "type") "reference") eqn:Hreference.
    { rewrite mapObjectField_reference by by apply isStr_eq.
      destruct (_ && _); [apply Hadd|done]. }
    destruct (isStr (getProp fm "type") "list") eqn:Hlist.
    { rewrite mapObjectField_list by by apply isStr_eq.
      destruct v0; try done.
      apply bind_modelled; [|done]. apply mapItemsM_modelled.
      eapply Forall_impl; [exact (Hitems _ eq_refl)|]. intros x Hx i. apply Hx. }
    by rewrite mapObjectField_scalar. }
  induction v as [| | | | |items IH|props IH] using value_ind;
    try (split; [apply Hfield; [|discriminate]|]; intros model c; by apply Hother).
  - split; [|intros model c; by apply Hother].
    apply Hfield; [intros model c; by apply Hother|].
    intros items0 [= <-]. eapply Forall_impl; [exact IH|]. by intros x [Hx _].
  - assert (Hadd : forall model c, modelled (addMetadata (VObj props) model c)).
    { intros model c. unfold addMetadata, addMetadataWith.
      apply bind_modelled; [apply modelPathOf_modelled|]. intros modelPath.
      apply bind_modelled.
      - apply mapValuesM_modelled. eapply Forall_impl; [exact IH|].
        intros [k v] [Hv _]. simpl. unfold processField.
        destruct (findByName _ k); [apply Hv|done].
      - intros props'. apply bind_modelled; [apply prop_modelled|]. intros t.
        apply bind_modelled; [apply urlPathOf_modelled|done]. }
    split; [|exact Hadd]. apply Hfield; [exact Hadd|discriminate].
Qed.

(** An object annotated as a page needs a file path: [path.parse]
    raises on anything but a string. *)
Lemma page_without_path data model c :
  isPlainObject data = true ->
  isStr (getProp model "type") "page" = true ->
  isString (filePath c) = false ->
  raises (addMetadata data model c).
Proof.
  intros Hdata Hpage Hfile. destruct data as [| | | | | |props]; try discriminate.
  assert (Hnil : isNil model = false) by (by destruct model).
  pose proof (proj2 (annotation_modelled (VObj props)) model c) as Hm.
  unfold addMetadata, addMetadataWith in *.
  destruct (modelPathOf model c) as [l0 [modelPath|e|]] eqn:Hpath;
    [|by exists l0, e|by destruct Hm].
  eapply bind_raises_at; [reflexivity|].
  assert (Hmap : modelled (mapValuesM
            (processField mapObjectField (getKey model "fields" (VObj [])) c modelPath)
            props)).
  { apply mapValuesM_modelled. apply Forall_forall. intros [k v] _. simpl.
    unfold processField. destruct (findByName _ k); [|done].
    apply (proj1 (annotation_modelled v)). }
  apply bind_raises_r; [exact Hmap|]. intros props'.
  rewrite prop_defined by assumption. rewrite mret_bind.
  apply bind_raises_l. unfold urlPathOf. rewrite Hpage.
  apply bind_raises_l. unfold urlPathFromFilePath.
  apply bind_raises_l. unfold pathParse.
  destruct (filePath c); try discriminate; by eexists _, _.
Qed.

End Modelled.

(** ** The summary of the match phase *)


Section MatchCount.
Context `{PathSyntax} `{LowerCase} `{Sdk}.
Variable o : options.




End MatchCount.

(** ** The report of the matched models *)







Section MatchedReport.
Context `{PathSyntax} `{LowerCase} `{Sdk}.
Variable o : options.


End MatchedReport.

(** ** A page without a file path *)

Section PageWithoutPath.
Context `{PathSyntax} `{LowerCase} `{Sdk}.
Variable o : options.

Lemma logMatched_modelled byId : modelled (logMatched byId).
Proof.
  unfold logMatched. apply bind_modelled; [|done].
  generalize (maxBySize (uniq (map (fun kv => getKey (snd kv) "name" VUndefined) byId))).
  intros longest. induction byId as [|[objectId model] rest IH]; [done|].
  cbn [matchedRows]. apply bind_modelled; [apply prop_modelled|]. intros n.
  apply bind_modelled; [apply prop_modelled|]. intros _.
  apply bind_modelled; [exact IH|done].
Qed.

Lemma annotateObject_modelled byName byId object :
  modelled (annotateObject o byName byId object).
Proof.
  unfold annotateObject. destruct (negb _); [done|].
  apply (proj2 (annotation_modelled object)).
Qed.

(** X6.  A second way for the transform to raise: when an object of the
    list is a plain object for which the id map holds a model of type
    [page], and the object has no string at [objectFileKeyPath], then
    [urlPathFromFilePath] hands a value that is not a string to
    [path.parse], and [matchObjectsToModels] raises. *)
Theorem page_without_file_path_raises objects models i object :
  let byId := recorded o (filterByType models "page")
                (filterByType models "data") objects in
  objects !! i = Some object ->
  isPlainObject object = true ->
  isStr (getProp (modelFor o byId object) "type") "page" = true ->
  isString (fileOf (objectFileKeyPath o) object) = false ->
  raises (matchObjectsToModels o objects models).
Proof.
  intros byId Hi Hobject Hpage Hfile. unfold matchObjectsToModels.
  eapply bind_raises_at; [reflexivity|].
  eapply bind_raises_at; [apply matchPhase_run|].
  fold (recorded o (filterByType models "page") (filterByType models "data") objects).
  fold byId.
  eapply bind_raises_at; [reflexivity|].
  apply bind_raises_r.
  { destruct (logMatchedModels o); [apply logMatched_modelled|done]. }
  intros _. apply bind_raises_l. unfold annotatePhase.
  eapply mapItemsM_raises; [|exact Hi|].
  - apply Forall_forall. intros x _ _. apply annotateObject_modelled.
  - intros _. rewrite annotateObject_matched.
    + apply page_without_path; [exact Hobject|exact Hpage|exact Hfile].
    + destruct (modelFor o byId object); try discriminate; reflexivity.
Qed.

End PageWithoutPath.



Lemma page_without_file_path_raises_witness :
  raises (@matchObjectsToModels dotSyntax asciiLowerCase sampleSdk (sampleOptions false false)
            [pathlessPage] sampleModels).
Proof.
  apply (@page_without_file_path_raises dotSyntax asciiLowerCase sampleSdk (sampleOptions false false)
           [pathlessPage] sampleModels 0 pathlessPage);
    vm_compute; reflexivity.
Defined.

(** ** Fields that name their model *)

Section NamedModels.
Context `{PathSyntax} `{LowerCase}.

(** A name that is a key of the schema index is found by [_.has], and
    [modelsByName[name]] is the model stored under it. *)
Lemma has_own_key (byName : list (string * value)) name model :
  lookup name byName = Some model ->
  has (VObj byName) (VStr name) = true
  /\ getProp (VObj byName) (toKey (VStr name)) = model.
Proof.
  intros Hl. unfold has, castPath, isKey. simpl.
  rewrite Hl. rewrite bool_decide_eq_true_2 by eauto.
  rewrite orb_true_r. simpl. rewrite Hl.
  by rewrite bool_decide_eq_true_2 by eauto.
Qed.

Lemma hasKey_not_object v k :
  isPlainObject v = false -> arrayIndex k = None -> String.eqb k "length" = false ->
  hasKey v k = false.
Proof.
  intros Hv Hidx Hlen. unfold hasKey, hasOwn.
  destruct v; try done; rewrite Hidx, Hlen; by rewrite andb_false_r || done.
Qed.

Lemma computed_modelName model modelType urlPath :
  isNil (getProp model "name") = false ->
  lookup "modelName" (computedMetadata model modelType urlPath)
  = Some (getProp model "name").
Proof.
  intros Hname. unfold computedMetadata, omitNil, getKey.
  assert (Hmodel : isNil model = false).
  { destruct (isNil model) eqn:Hn; [|reflexivity].
    by rewrite getProp_nil in Hname. }
  rewrite Hmodel. cbn [List.filter snd].
  assert (Hn : isNil (match getProp model "name" with
                      | VUndefined => VNull | _ => getProp model "name" end) = false).
  { by destruct (getProp model "name"). }
  rewrite Hn. cbn [negb].
  replace (match getProp model "name" with
           | VUndefined => VNull | _ => getProp model "name" end)
    with (getProp model "name") by (by destruct (getProp model "name")).
  destruct (negb (isNil modelType)); simpl; reflexivity.
Qed.

(** X7.  A field of type [model] whose [models] array lists exactly one
    name, that of a model of the schema index: every value is annotated
    with this model, the path in the schema starting again at the
    model's name; the [type] property of the value is not consulted.
    An object so annotated has the name of the model as [modelName]. *)
Theorem single_model_field fieldModel c name model :
  getProp fieldModel "type" = VStr "model" ->
  getProp fieldModel "models" = VArr [VStr name] ->
  lookup name (modelsByName c) = Some model ->
  (forall fieldValue,
     mapObjectField fieldValue fieldModel c = addMetadata fieldValue model (restart c))
  /\ (forall props log r,
        isNil (getProp model "name") = false ->
        mapObjectField (VObj props) fieldModel c = (log, Ok r) ->
        getProp (getProp r "__metadata") "modelName" = getProp model "name").
Proof.
  intros Htype Hmodels Hmodel.
  assert (Hfield : forall fieldValue,
            mapObjectField fieldValue fieldModel c
            = addMetadata fieldValue model (restart c)).
  { intros fieldValue. rewrite (mapObjectField_model _ _ _ Htype). cbn zeta.
    rewrite getProp_models_hasKey by (by rewrite Hmodels).
    rewrite Hmodels. cbn [isArray size length negb orb Nat.ltb Nat.leb Nat.eqb elements hd].
    destruct (has_own_key _ _ _ Hmodel) as [-> ->]. reflexivity. }
  split; [exact Hfield|].
  intros props log r Hname Hrun. rewrite Hfield in Hrun.
  apply addMetadata_object_ok in Hrun
    as (l0 & modelPath & l1 & props' & u & _ & _ & _ & _ & -> & _).
  destruct (attachMetadata_metadata props'
              (computedMetadata model (getProp model "type") u)) as (meta & -> & Hmeta).
  cbn [getProp]. rewrite Hmeta.
  rewrite lookup_rev_NoDup by apply computedMetadata_NoDup.
  by rewrite computed_modelName.
Qed.

(** X8.  A field of type [reference]: a value that is not an object (a
    file path, say), an object without an own [type] property, and an
    object whose [type] names no model of the schema index come back as
    they are, and nothing is logged.  An object whose [type] is a key of
    the schema index is annotated with the model stored under it. *)
Theorem reference_field fieldModel c :
  getProp fieldModel "type" = VStr "reference" ->
  (forall fieldValue,
     isPlainObject fieldValue = false
     \/ hasKey fieldValue "type" = false
     \/ has (VObj (modelsByName c)) (getProp fieldValue "type") = false ->
     mapObjectField fieldValue fieldModel c = ([], Ok fieldValue))
  /\ (forall props name model,
        lookup "type" props = Some (VStr name) ->
        lookup name (modelsByName c) = Some model ->
        mapObjectField (VObj props) fieldModel c
        = addMetadata (VObj props) model (restart c)).
Proof.
  intros Htype. split.
  - intros fieldValue Hcase. rewrite (mapObjectField_reference _ _ _ Htype).
    destruct Hcase as [Hobject|[Hkey|Hhas]].
    + by rewrite (hasKey_not_object _ "type" Hobject).
    + by rewrite Hkey.
    + by rewrite Hhas, andb_false_r.
  - intros props name model Hprops Hmodel.
    rewrite (mapObjectField_reference _ _ _ Htype).
    assert (Hkey : hasKey (VObj props) "type" = true).
    { unfold hasKey. simpl. rewrite Hprops. by apply bool_decide_eq_true_2. }
    rewrite Hkey. cbn [getProp]. rewrite Hprops. cbn [default from_option id].
    destruct (has_own_key _ _ _ Hmodel) as [-> _].
    change (toKey (VStr name)) with name. by rewrite Hmodel.
Qed.

End NamedModels.

Lemma single_model_field_witness :
  (forall fieldValue,
     @mapObjectField dotSyntax asciiLowerCase fieldValue heroField sectionContext
     = @addMetadata dotSyntax asciiLowerCase fieldValue heroModel (restart sectionContext))
  /\ (forall props log r,
        isNil (getProp heroModel "name") = false ->
        @mapObjectField dotSyntax asciiLowerCase (VObj props) heroField sectionContext = (log, Ok r) ->
        getProp (getProp r "__metadata") "modelName" = getProp heroModel "name").
Proof.
  apply (@single_model_field dotSyntax asciiLowerCase heroField sectionContext "hero" heroModel);
    reflexivity.
Defined.

Lemma reference_field_witness :
  (forall fieldValue,
     isPlainObject fieldValue = false
     \/ hasKey fieldValue "type" = false
     \/ @has dotSyntax (VObj (modelsByName sectionContext)) (getProp fieldValue "type")
        = false ->
     @mapObjectField dotSyntax asciiLowerCase fieldValue authorField sectionContext
     = ([], Ok fieldValue))
  /\ (forall props name model,
        lookup "type" props = Some (VStr name) ->
        lookup name (modelsByName sectionContext) = Some model ->
        @mapObjectField dotSyntax asciiLowerCase (VObj props) authorField sectionContext
        = @addMetadata dotSyntax asciiLowerCase (VObj props) model (restart sectionContext)).
Proof.
  apply (@reference_field dotSyntax asciiLowerCase authorField sectionContext). reflexivity.
Defined.

(** ** Files that the merge leaves out *)

Lemma assocNat_In {A} i (x : A) (l : list (nat * A)) :
  List.NoDup (map fst l) -> In (i, x) l -> assocNat i l = Some x.
Proof.
  induction l as [|[j y] l IH]; simpl; [tauto|].
  intros Hnd [Heq|Hin].
  - injection Heq as -> ->. by rewrite Nat.eqb_refl.
  - inversion Hnd as [|? ? Hnot Hnd']; subst.
    destruct (Nat.eqb_spec j i) as [->|Hne].
    + exfalso. apply Hnot. apply in_map_iff. by exists (i, x).
    + by apply IH.
Qed.

Lemma number_fst {A} i (l : list A) : map fst (number i l) = seq i (length l).
Proof.
  revert i. induction l as [|x l IH]; intros i; simpl; [reflexivity|]. by rewrite IH.
Qed.

Lemma number_NoDup {A} i (l : list A) : List.NoDup (map fst (number i l)).
Proof. rewrite number_fst. apply List.seq_NoDup. Qed.

Section LeftOut.
Context `{PathSyntax}.

(** One step of the fold, on an object whose file path is a string. *)
Lemma mergeFold_step kp st i object rest s :
  fileOf kp object = VStr s ->
  mergeFold kp st ((i, object) :: rest)
  = match place st i object (keyPathOf kp object) with
    | Some st' => mergeFold kp st' rest
    | None => unmodelled
    end.
Proof.
  intros Hs. cbn [mergeFold]. unfold keyPathOf, fileKey. rewrite Hs.
  unfold pathParse. by rewrite mret_bind.
Qed.

Lemma place_left_out st i object path :
  isObject (accum st) = true -> leftOut path = true ->
  place st i object path
  = Some {| accum := accum st; attached := attached st;
            detached := detached st ++ [(i, object)] |}.
Proof.
  intros Hobj Hout. unfold place, set. rewrite Hobj.
  destruct path as [|k rest]; [reflexivity|]. simpl in Hout.
  cbn [baseSet reachesEnd existsb]. by rewrite Hout.
Qed.

Lemma mergeFold_left_out kp st sorted :
  isObject (accum st) = true ->
  Forall (fun io => isString (fileOf kp (snd io)) = true
                    /\ leftOut (keyPathOf kp (snd io)) = true) sorted ->
  mergeFold kp st sorted
  = ([], Ok {| accum := accum st; attached := attached st;
               detached := detached st ++ sorted |}).
Proof.
  intros Hobj Hall. revert st Hobj.
  induction Hall as [|[i object] sorted [Hs Hout] _ IH]; intros st Hobj.
  - simpl. rewrite app_nil_r. by destruct st.
  - simpl in Hs, Hout. destruct (fileOf kp object) as [| | | |s| |] eqn:Hfile; try done.
    rewrite (mergeFold_step _ _ _ _ _ _ Hfile).
    rewrite place_left_out by assumption.
    rewrite IH by assumption. cbn [accum attached detached].
    by rewrite <- app_assoc.
Qed.

(** X9.  Files that the merged object does not get: when every object
    has a string for a file path and a key path that is empty or begins
    with [__proto__], [constructor] or [prototype] (a file
    [constructor.yaml], say), [_.set] stores none of them;
    [mergeDataObjects] returns the seeded object, leaves the objects as
    they are and logs nothing. *)
Theorem reserved_names_left_out objects kp source :
  Forall (fun object => isString (fileOf kp object) = true
                        /\ leftOut (keyPathOf kp object) = true) objects ->
  mergeDataObjects objects kp source = ([], Ok (seed source, objects)).
Proof.
  intros Hall. unfold mergeDataObjects.
  assert (Hstr : forallb (fun object => isString (fileOf kp object)) objects = true).
  { apply forallb_forall. intros x Hx. rewrite Forall_forall in Hall.
    apply Hall. by apply list_elem_of_In. }
  rewrite Hstr.
  set (sorted := sortBy (fun io => fileKey kp (snd io)) (number 0 objects)).
  assert (Hperm : Permutation sorted (number 0 objects)) by apply sortBy_Permutation.
  assert (Hsorted : Forall (fun io => isString (fileOf kp (snd io)) = true
                              /\ leftOut (keyPathOf kp (snd io)) = true) sorted).
  { apply Forall_forall. intros [i x] Hin. simpl.
    rewrite Forall_forall in Hall. apply Hall.
    rewrite Hperm in Hin. apply list_elem_of_In, (in_map snd) in Hin.
    rewrite number_map_snd in Hin. by apply list_elem_of_In. }
  rewrite mergeFold_left_out by done. cbn [accum attached detached app].
  unfold mbind, M_bind, bind, mret, M_ret, ret. cbn [app accum]. do 2 f_equal. f_equal.
  rewrite <- (number_map_snd 0 objects) at 2. apply map_ext_in.
  intros [i x] Hin. unfold finalObject. cbn [detached fst snd].
  rewrite (assocNat_In i x sorted); [reflexivity| |].
  - apply NoDup_ListNoDup. rewrite Hperm. apply NoDup_ListNoDup, number_NoDup.
  - apply list_elem_of_In. rewrite Hperm. by apply list_elem_of_In.
Qed.

End LeftOut.

Lemma reserved_names_left_out_witness :
  @mergeDataObjects dotSyntax [constructorFile] relSourcePathKey sourceName
  = ([], Ok (seed sourceName, [constructorFile])).
Proof.
  apply (@reserved_names_left_out dotSyntax).
  constructor; [split; vm_compute; reflexivity|constructor].
Defined.

(** ** Files named by a number, and files beside a folder of their name *)

Lemma assignIndex_empty n v : assignIndex n v [] = replicate n VUndefined ++ [v].
Proof. induction n as [|n IH]; simpl; [reflexivity|]. by rewrite IH. Qed.

Lemma string_of_uint_free u : freeOf "/" (NilZero.string_of_uint u) = true.
Proof.
  assert (Hdigits : forall d, freeOf "/" (NilEmpty.string_of_uint d) = true).
  { induction d; simpl; auto. }
  destruct u; [reflexivity|apply Hdigits..].
Qed.

Lemma arrayIndex_segment k n : arrayIndex k = Some n -> segment k.
Proof.
  unfold arrayIndex. destruct (parseUint k) as [m|] eqn:Hk; [|discriminate].
  intros _. split.
  - intros ->. vm_compute in Hk. discriminate.
  - apply parseUint_canonical in Hk as <-. apply string_of_uint_free.
Qed.

Lemma arrayIndex_isIndex k n : arrayIndex k = Some n -> isIndex k = true.
Proof.
  unfold arrayIndex, isIndex. destruct (parseUint k) as [m|]; [|discriminate].
  destruct (N.ltb_spec m 4294967295); [|discriminate].
  intros _. apply N.ltb_lt. lia.
Qed.

Lemma arrayIndex_not_forbidden k n : arrayIndex k = Some n -> forbiddenKey k = false.
Proof.
  intros Hk. unfold forbiddenKey.
  destruct (String.eqb_spec k "__proto__") as [->|]; [vm_compute in Hk; discriminate|].
  destruct (String.eqb_spec k "constructor") as [->|]; [vm_compute in Hk; discriminate|].
  destruct (String.eqb_spec k "prototype") as [->|]; [vm_compute in Hk; discriminate|].
  reflexivity.
Qed.

Lemma compare_prefix (d x y : string) :
  String.compare (d ++ x) (d ++ y) = String.compare x y.
Proof.
  induction d as [|c d IH]; [reflexivity|]. simpl.
  assert (Hc : Ascii.compare c c = Eq).
  { pose proof (Ascii.compare_antisym c c) as Hs.
    by destruct (Ascii.compare c c). }
  by rewrite Hc.
Qed.

(** [d.e] sorts before [d/...]: the dot precedes the separator. *)
Lemma file_before_folder (d e rest : string) :
  String.ltb (d ++ "." ++ e) (d ++ "/" ++ rest) = true.
Proof. unfold String.ltb. by rewrite compare_prefix. Qed.

Lemma assignKey_twice k v w props :
  assignKey k v (assignKey k w props) = assignKey k v props.
Proof.
  induction props as [|[k0 v0] props IH]; simpl.
  - by rewrite String.eqb_refl.
  - destruct (String.eqb k0 k) eqn:Hk; simpl; rewrite Hk; [reflexivity|by rewrite IH].
Qed.

Section ArraysAndParents.
Context `{PathSyntax}.

(** X10.  A file named by a number makes an array: for a single object
    with the file path [d/k.e], where [k] is the decimal numeral of an
    array index [n] and [d] is none of [__metadata], the names that
    [_.set] does not follow and the names of the members that the
    accumulator inherits (under which [_.set] finds a function, and
    stores the object on it), the merged object gets under [d] an array
    of length [n + 1] whose last element is the object, the elements
    before it being [undefined]. *)
Theorem numeric_name_makes_array kp source object d k e n :
  fileOf kp object = VStr (join "/" ([d] ++ [(k ++ "." ++ e)%string])) ->
  segment d -> forbiddenKey d = false -> inheritedKey d = false ->
  d <> "__metadata" ->
  arrayIndex k = Some n ->
  e <> "" -> freeOf "/" e = true -> freeOf "." e = true ->
  mergeDataObjects [object] kp source
  = ([], Ok (VObj [("__metadata", seedMetadata source);
                   (d, VArr (replicate n VUndefined ++ [object]))],
             [object])).
Proof.
  intros Hfile Hd Hforbidden _ Hmeta Hk He Hslash Hdot.
  pose proof (arrayIndex_segment _ _ Hk) as Hseg.
  pose proof (keyPathOf_segments kp object [d] k e Hfile
                (Forall_cons_2 _ _ _ Hd (Forall_nil_2 _)) Hseg He Hslash Hdot) as Hpath.
  cbn [app] in Hpath.
  assert (Hne : String.eqb "__metadata" d = false).
  { apply String.eqb_neq. congruence. }
  unfold mergeDataObjects. cbn [forallb]. rewrite Hfile. cbn [isString andb].
  cbn [number sortBy fold_right insertBy].
  rewrite (mergeFold_step _ _ _ _ _ _ Hfile), Hpath.
  unfold place, set, seed. cbn [accum isObject baseSet getProp lookup].
  rewrite Hforbidden, Hne. cbn [default from_option id isObject].
  rewrite (arrayIndex_isIndex _ _ Hk), (arrayIndex_not_forbidden _ _ Hk).
  cbn [assignProp]. rewrite Hk. cbn [assignProp assignKey]. rewrite Hne.
  cbn [reachesEnd existsb]. rewrite Hforbidden, (arrayIndex_not_forbidden _ _ Hk).
  cbn [orb negb attached detached List.filter app map mergeFold].
  unfold mbind, M_bind, bind, mret, M_ret, ret. cbn [app accum map number].
  unfold finalObject. cbn [accum detached attached assocNat fst snd Nat.eqb].
  rewrite walk_cons by done. cbn [getProp lookup]. rewrite Hne.
  rewrite String.eqb_refl. cbn [default from_option id].
  rewrite walk_cons by done. cbn [getProp].
  rewrite (arrayIndex_not_length _ _ Hk), Hk, nth_assignIndex_same.
  cbn [walk]. by rewrite assignIndex_empty.
Qed.

(** X11.  The merge changes an input object: of two data files [d.e1]
    and [d/n.e2], the first is stored under [d] and the second is then
    stored inside it under [n].  In either input order the merged object
    has under [d] the object of [d.e1] extended by the property [n], and
    the object of [d.e1] comes back extended in the same way. *)
Theorem merge_extends_parent_file kp source props b d n e1 e2 :
  let a := VObj props in
  let a' := VObj (assignKey n b props) in
  let merged := VObj (assignKey d a' [("__metadata", seedMetadata source)]) in
  fileOf kp a = VStr (d ++ "." ++ e1) ->
  fileOf kp b = VStr (join "/" ([d] ++ [(n ++ "." ++ e2)%string])) ->
  segment d -> forbiddenKey d = false ->
  segment n -> forbiddenKey n = false ->
  e1 <> "" -> freeOf "/" e1 = true -> freeOf "." e1 = true ->
  e2 <> "" -> freeOf "/" e2 = true -> freeOf "." e2 = true ->
  mergeDataObjects [a; b] kp source = ([], Ok (merged, [a'; b]))
  /\ mergeDataObjects [b; a] kp source = ([], Ok (merged, [b; a'])).
Proof.
  intros a a' merged Ha Hb Hd Hfd Hn Hfn He1 Hs1 Hd1 He2 Hs2 Hd2.
  assert (Hpa : keyPathOf kp a = [d]).
  { apply (keyPathOf_segments kp a [] d e1); auto. }
  assert (Hpb : keyPathOf kp b = [d; n]).
  { apply (keyPathOf_segments kp b [d] n e2); auto. }
  assert (Hdn : String.eqb d n && true = String.eqb d n) by apply andb_true_r.
  assert (Hrun : forall i j,
            mergeFold kp {| accum := seed source; attached := []; detached := [] |}
                      [(i, a); (j, b)]
            = ([], Ok {| accum := merged;
                         attached := [(i, [d]); (j, [d; n])];
                         detached := [] |})).
  { intros i j.
    rewrite (mergeFold_step _ _ _ _ _ _ Ha), Hpa.
    unfold place at 1, set, seed. cbn [accum isObject baseSet].
    rewrite Hfd. cbn [assignProp reachesEnd existsb]. rewrite Hfd.
    cbn [orb negb attached detached List.filter app map].
    rewrite (mergeFold_step _ _ _ _ _ _ Hb), Hpb.
    unfold place, set. cbn [accum isObject baseSet getProp].
    rewrite Hfd, Hfn, lookup_assignKey, String.eqb_refl.
    cbn [default from_option id isObject a assignProp].
    cbn [reachesEnd existsb]. rewrite Hfd, Hfn.
    cbn [orb negb attached detached List.filter app map isPrefix snd fst].
    rewrite String.eqb_refl. cbn [andb negb app map mergeFold].
    by rewrite assignKey_twice. }
  assert (Hfinal : forall i j, i <> j ->
            finalObject {| accum := merged; attached := [(i, [d]); (j, [d; n])];
                           detached := [] |} i a = a'
            /\ finalObject {| accum := merged; attached := [(i, [d]); (j, [d; n])];
                              detached := [] |} j b = b).
  { intros i j Hij. unfold finalObject. cbn [accum detached attached assocNat].
    rewrite !Nat.eqb_refl.
    replace (Nat.eqb i j) with false by (symmetry; by apply Nat.eqb_neq).
    assert (Hget : getProp merged d = a').
    { unfold merged. cbn [getProp]. by rewrite lookup_assignKey, String.eqb_refl. }
    split.
    - rewrite walk_cons by done. by rewrite Hget.
    - rewrite walk_cons by done. rewrite Hget. rewrite walk_cons by done.
      unfold a'. cbn [getProp walk]. by rewrite lookup_assignKey, String.eqb_refl. }
  assert (Hlt : String.ltb (fileKey kp a) (fileKey kp b) = true).
  { unfold fileKey. rewrite Ha, Hb. cbn [stringOf app join]. apply file_before_folder. }
  assert (Hstr : isString (fileOf kp a) && (isString (fileOf kp b) && true) = true
                 /\ isString (fileOf kp b) && (isString (fileOf kp a) && true) = true).
  { by rewrite Ha, Hb. }
  destruct (ltb_leb _ _ Hlt) as [Hab Hba].
  split; unfold mergeDataObjects; cbn [forallb].
  - rewrite (proj1 Hstr). cbn [number sortBy fold_right insertBy snd].
    rewrite Hab. rewrite Hrun. unfold mbind, M_bind, bind, mret, M_ret, ret.
    cbn [app accum map number fst snd].
    destruct (Hfinal 0 1) as [-> ->]; [lia|]. reflexivity.
  - rewrite (proj2 Hstr). cbn [number sortBy fold_right insertBy snd].
    rewrite Hba. rewrite Hrun. unfold mbind, M_bind, bind, mret, M_ret, ret.
    cbn [app accum map number fst snd].
    destruct (Hfinal 1 0) as [-> ->]; [lia|]. reflexivity.
Qed.

End ArraysAndParents.

Lemma numeric_name_makes_array_witness :
  @mergeDataObjects dotSyntax [numberedFile] relSourcePathKey sourceName
  = ([], Ok (VObj [("__metadata", seedMetadata sourceName);
                   ("items", VArr (replicate 2 VUndefined ++ [numberedFile]))],
             [numberedFile])).
Proof.
  apply (@numeric_name_makes_array dotSyntax relSourcePathKey sourceName numberedFile
           "items" "2" "yaml" 2);
    try reflexivity; try discriminate.
  split; [discriminate|reflexivity].
Defined.

Lemma merge_extends_parent_file_witness :
  @mergeDataObjects dotSyntax [VObj teamProps; aliceYaml] relSourcePathKey sourceName
  = ([], Ok (VObj (assignKey "team" (VObj (assignKey "alice" aliceYaml teamProps))
                     [("__metadata", seedMetadata sourceName)]),
             [VObj (assignKey "alice" aliceYaml teamProps); aliceYaml]))
  /\ @mergeDataObjects dotSyntax [aliceYaml; VObj teamProps] relSourcePathKey sourceName
     = ([], Ok (VObj (assignKey "team" (VObj (assignKey "alice" aliceYaml teamProps))
                        [("__metadata", seedMetadata sourceName)]),
                [aliceYaml; VObj (assignKey "alice" aliceYaml teamProps)])).
Proof.
  apply (@merge_extends_parent_file dotSyntax relSourcePathKey sourceName teamProps
           aliceYaml "team" "alice" "yaml" "yaml");
    try reflexivity; try discriminate; split; try discriminate; reflexivity.
Defined.

(** ** When the merge leaves the objects alone *)

Lemma assocNat_Some {A} i (a : A) (l : list (nat * A)) :
  assocNat i l = Some a -> In (i, a) l.
Proof.
  induction l as [|[j b] l IH]; simpl; [discriminate|].
  destruct (Nat.eqb_spec j i) as [->|Hne].
  - intros [= ->]. by left.
  - intros Hl. right. by apply IH.
Qed.

Lemma number_lookup {A} (l : list A) base i x :
  In (i, x) (number base l) <-> base <= i /\ l !! (i - base) = Some x.
Proof.
  revert base. induction l as [|y l IH]; intros base; simpl.
  - split; [tauto|]. by intros [_ ?].
  - rewrite IH. split.
    + intros [[= <- <-]|[Hle Hl]].
      * split; [lia|]. by rewrite Nat.sub_diag.
      * split; [lia|]. replace (i - base) with (S (i - S base)) by lia. exact Hl.
    + intros [Hle Hl]. destruct (Nat.eq_dec base i) as [->|Hne].
      * rewrite Nat.sub_diag in Hl. injection Hl as ->. by left.
      * right. split; [lia|].
        replace (i - base) with (S (i - S base)) in Hl by lia. exact Hl.
Qed.

Lemma isPrefix_refl p : isPrefix p p = true.
Proof. induction p as [|a p IH]; simpl; [reflexivity|]. by rewrite String.eqb_refl. Qed.

Lemma not_prefix_diverges p q :
  isPrefix p q = false -> isPrefix q p = false -> diverges p q = true.
Proof.
  revert q. induction p as [|a p IH]; intros [|b q]; simpl; try discriminate.
  rewrite (String.eqb_sym b a). destruct (String.eqb a b); [|reflexivity].
  simpl. apply IH.
Qed.

Lemma reachesEnd_not_empty p : reachesEnd p = true -> p <> [].
Proof. by destruct p. Qed.

Section Undisturbed.
Context `{PathSyntax}.
Variable kp : string.

Lemma settled_step done st j object st' :
  settled kp done st ->
  place st j object (keyPathOf kp object) = Some st' ->
  isPlainObject object = true ->
  (forall i x, In (i, x) done ->
     i <> j /\ isPlainObject x = true
     /\ (isPrefix (keyPathOf kp x) (keyPathOf kp object) = true ->
         keyPathOf kp x = keyPathOf kp object)
     /\ (isPrefix (keyPathOf kp object) (keyPathOf kp x) = true ->
         keyPathOf kp object = keyPathOf kp x)) ->
  settled kp (done ++ [(j, object)]) st'.
Proof.
  intros (Hobj & Hatt & Hdet) Hplace Hplain Hdone. unfold place in Hplace.
  destruct (set (accum st) (keyPathOf kp object) object) as [accum'|] eqn:Hset;
    [|discriminate].
  pose proof (set_isObject _ _ _ _ Hset) as Hobj'. rewrite Hobj in Hobj'.
  assert (Hframe : forall i p, In (i, p) (attached st) ->
            isPrefix (keyPathOf kp object) p = false ->
            reachesEnd p = true
            /\ exists x, In (i, x) (done ++ [(j, object)]) /\ p = keyPathOf kp x
                         /\ walk accum' p = x).
  { intros i p Hin Hnot. destruct (Hatt i p Hin) as (Hend & x & Hx & -> & Hwalk).
    split; [exact Hend|]. exists x. split; [apply in_or_app; by left|].
    split; [reflexivity|].
    destruct (Hdone i x Hx) as (_ & Hxplain & Hxo & _).
    rewrite <- Hwalk at 2. eapply walk_set_diverges; [exact Hset| |by rewrite Hwalk].
    apply not_prefix_diverges; [|exact Hnot].
    destruct (isPrefix (keyPathOf kp x) (keyPathOf kp object)) eqn:Hp; [|reflexivity].
    rewrite <- (Hxo eq_refl), isPrefix_refl in Hnot. discriminate. }
  destruct (reachesEnd (keyPathOf kp object)) eqn:Hend; injection Hplace as <-.
  - split; [exact Hobj'|]. cbn [accum attached detached]. split.
    + intros i p [Hin|Hin]%in_app_or.
      * apply List.filter_In in Hin as [Hin Hnot]. apply negb_true_iff in Hnot.
        simpl in Hnot. by apply Hframe.
      * destruct Hin as [[= <- <-]|[]]. split; [exact Hend|]. exists object.
        split; [apply in_or_app; right; by left|]. split; [reflexivity|].
        by eapply walk_set_same.
    + intros i v [Hin|Hin]%in_app_or.
      * apply in_or_app. left. by apply Hdet.
      * apply in_map_iff in Hin as ([i' p] & [= <- <-] & Hin).
        apply List.filter_In in Hin as [Hin _]. simpl.
        destruct (Hatt i' p Hin) as (_ & x & Hx & _ & ->).
        apply in_or_app. by left.
  - split; [exact Hobj'|]. cbn [accum attached detached]. split.
    + intros i p Hin. apply Hframe; [exact Hin|].
      destruct (isPrefix (keyPathOf kp object) p) eqn:Hp; [|reflexivity].
      destruct (Hatt i p Hin) as (Hpend & x & Hx & -> & _).
      destruct (Hdone i x Hx) as (_ & _ & _ & Hox).
      rewrite <- (Hox Hp), Hend in Hpend. discriminate.
    + intros i v [Hin|Hin]%in_app_or.
      * apply in_or_app. left. by apply Hdet.
      * destruct Hin as [[= <- <-]|[]]. apply in_or_app. right. by left.
Qed.

Lemma settled_fold rest done st l st' :
  settled kp done st ->
  mergeFold kp st rest = (l, Ok st') ->
  List.NoDup (map fst (done ++ rest)) ->
  (forall i x j y, In (i, x) (done ++ rest) -> In (j, y) (done ++ rest) ->
     isPlainObject x = true
     /\ (i <> j -> isPrefix (keyPathOf kp x) (keyPathOf kp y) = true ->
         keyPathOf kp x = keyPathOf kp y)) ->
  settled kp (done ++ rest) st'.
Proof.
  revert done st l. induction rest as [|[j object] rest IH]; intros done st l Hst Hrun Hnd Hall.
  - injection Hrun as _ <-. by rewrite app_nil_r.
  - assert (Hj : In (j, object) (done ++ (j, object) :: rest)).
    { apply in_or_app. right. by left. }
    cbn [mergeFold] in Hrun.
    apply mbind_ok in Hrun as (l1 & pathObject & l2 & Hparse & Hrun & ->).
    apply pathParse_ok in Hparse as (s & Hs & -> & ->).
    assert (Hpath : propPathOf (parseString s) = keyPathOf kp object).
    { unfold keyPathOf, fileKey. by rewrite Hs. }
    rewrite Hpath in Hrun.
    destruct (place st j object (keyPathOf kp object)) as [st1|] eqn:Hplace;
      [|discriminate].
    replace (done ++ (j, object) :: rest) with ((done ++ [(j, object)]) ++ rest) in *
      by (by rewrite <- app_assoc).
    eapply IH; [|exact Hrun|exact Hnd|exact Hall].
    apply (settled_step done st j object st1 Hst Hplace).
    + by destruct (Hall j object j object Hj Hj).
    + intros i x Hx.
      assert (Hi : In (i, x) ((done ++ [(j, object)]) ++ rest)).
      { apply in_or_app. left. apply in_or_app. by left. }
      assert (Hij : i <> j).
      { intros ->. rewrite <- app_assoc, map_app in Hnd.
        apply NoDup_ListNoDup, NoDup_app in Hnd as (_ & Hdis & _).
        apply (Hdis j).
        - apply list_elem_of_In, in_map_iff. by exists (j, x).
        - simpl. left. }
      destruct (Hall i x j object Hi Hj) as [Hplain Hxo].
      destruct (Hall j object i x Hj Hi) as [_ Hox].
      repeat split; auto.
Qed.

(** X12.  When the merge leaves the objects alone: if the objects are
    plain objects and no key path is a proper prefix of the key path of
    another object (no file [d.e] beside a folder [d]), then
    [mergeDataObjects], when it returns, hands every object back as it
    was given. *)
Theorem merge_keeps_objects objects source log merged after :
  mergeDataObjects objects kp source = (log, Ok (merged, after)) ->
  Forall (fun object => isPlainObject object = true) objects ->
  (forall i j x y, objects !! i = Some x -> objects !! j = Some y -> i <> j ->
     isPrefix (keyPathOf kp x) (keyPathOf kp y) = true ->
     keyPathOf kp x = keyPathOf kp y) ->
  after = objects.
Proof.
  intros Hrun Hplain Hnest. unfold mergeDataObjects in Hrun.
  destruct (forallb _ objects); [|discriminate].
  set (sorted := sortBy (fun io => fileKey kp (snd io)) (number 0 objects)) in *.
  assert (Hperm : Permutation sorted (number 0 objects)) by apply sortBy_Permutation.
  apply mbind_ok in Hrun as (l1 & st & l2 & Hfold & Hret & _).
  injection Hret as _ _ <-.
  assert (Hin : forall i x, In (i, x) sorted <-> objects !! i = Some x).
  { intros i x. rewrite <- !list_elem_of_In, Hperm, list_elem_of_In, number_lookup.
    rewrite Nat.sub_0_r. split; [by intros [_ ?]|]. split; [lia|done]. }
  assert (Hnd : List.NoDup (map fst sorted)).
  { apply NoDup_ListNoDup. rewrite Hperm. apply NoDup_ListNoDup, number_NoDup. }
  assert (Hst : settled kp sorted st).
  { apply (settled_fold sorted [] _ _ _) in Hfold; [exact Hfold| |exact Hnd|].
    - split; [reflexivity|]. split; intros ? ? [].
    - cbn [app]. intros i x j y Hx%Hin Hy%Hin. split.
      + rewrite Forall_forall in Hplain. apply Hplain.
        by eapply list_elem_of_lookup_2.
      + intros Hij. by apply (Hnest i j). }
  destruct Hst as (_ & Hatt & Hdet).
  rewrite <- (number_map_snd 0 objects) at 2. apply map_ext_in.
  intros [i x] Hx. cbn [fst snd].
  assert (Hsorted : In (i, x) sorted).
  { apply list_elem_of_In. rewrite Hperm. by apply list_elem_of_In. }
  assert (Hone : forall y, In (i, y) sorted -> y = x).
  { intros y Hy. apply Hin in Hy. apply Hin in Hsorted. congruence. }
  unfold finalObject.
  destruct (assocNat i (detached st)) as [v|] eqn:Hd.
  - apply assocNat_Some in Hd. by apply Hone, Hdet.
  - destruct (assocNat i (attached st)) as [p|] eqn:Ha; [|reflexivity].
    apply assocNat_Some in Ha. destruct (Hatt i p Ha) as (_ & y & Hy & _ & ->).
    by apply Hone.
Qed.

End Undisturbed.

Lemma merge_keeps_objects_witness :
  [aliceYaml; numberedFile] = [aliceYaml; numberedFile].
Proof.
  apply (@merge_keeps_objects dotSyntax relSourcePathKey [aliceYaml; numberedFile]
           sourceName []
           (VObj [("__metadata", seedMetadata sourceName);
                  ("items", VArr [VUndefined; VUndefined; numberedFile]);
                  ("team", VObj [("alice", aliceYaml)])])).
  - vm_compute; reflexivity.
  - repeat constructor.
  - intros i j x y Hi Hj Hij Hp.
    destruct i as [|[|i]], j as [|[|j]]; simpl in Hi, Hj; try discriminate;
      try (by destruct Hij);
      injection Hi as <-; injection Hj as <-; vm_compute in Hp; discriminate.
Defined.

(** ** URL paths: base names without extension, and colliding paths *)

(** A base name that the scan takes whole: it records the end of the
    name and either no dot or nothing but a leading dot. *)
Lemma parse_whole_base (base : string) :
  base <> "" -> freeOf "/" base = true ->
  (let st := scanSeg 0 base scanInit in
   endIdx st = Some (String.length base) /\ startPart st = 0
   /\ (startDot st = None \/ preDotState st = 0%Z)) ->
  parseString base = {| dir := ""; name := base |}.
Proof.
  intros Hne Hfree (Hend & Hpart & Hwhole).
  rewrite parseString_relative by (apply segment_relative; by split).
  unfold parseNonEmpty. rewrite scan_whole by assumption. cbn zeta.
  rewrite Hend, Hpart. simpl. f_equal.
  pose proof (slice_front base "") as Hslice. rewrite append_nil_r in Hslice.
  destruct (startDot (scanSeg 0 base scanInit)) as [d|]; [|exact Hslice].
  destruct Hwhole as [|Hpre]; [discriminate|]. rewrite Hpre. simpl. exact Hslice.
Qed.

Lemma parse_whole_dir (d base : string) :
  relative d -> base <> "" -> freeOf "/" base = true ->
  (let st := scanSeg (S (String.length d)) base scanInit in
   endIdx st = Some (S (String.length d) + String.length base)
   /\ matchedSlash st = false
   /\ (startDot st = None \/ preDotState st = 0%Z)) ->
  parseString (d ++ "/" ++ base) = {| dir := d; name := base |}.
Proof.
  intros Hrel Hne Hfree (Hend & Hm & Hwhole).
  rewrite parseString_relative by (by apply relative_append).
  set (pre := (d ++ "/")%string).
  assert (Hpre : String.length pre = S (String.length d)).
  { unfold pre. rewrite length_append. simpl. lia. }
  assert (Hpath : (d ++ "/" ++ base)%string = (pre ++ base ++ "")%string).
  { unfold pre. rewrite append_nil_r, append_assoc. reflexivity. }
  set (st := scanSeg (S (String.length d)) base scanInit) in *.
  assert (Hscan : scan (d ++ "/" ++ base) 0 (String.length (d ++ "/" ++ base)) scanInit
                  = {| startDot := startDot st;
                       startPart := String.length d + 1;
                       endIdx := endIdx st;
                       matchedSlash := matchedSlash st;
                       preDotState := preDotState st |}).
  { rewrite Hpath at 2. rewrite !length_append. simpl String.length at 3.
    rewrite Nat.add_0_r. rewrite Hpath.
    rewrite scan_segment by (auto; lia). rewrite Hpre. cbn [scan]. simpl "<?".
    rewrite <- Hpath. change ("/" ++ base)%string with (String "/" base).
    rewrite get_append_here. simpl Ascii.eqb. cbn iota.
    fold st. rewrite Hm. reflexivity. }
  unfold parseNonEmpty. rewrite Hscan. cbn zeta.
  cbn [startDot endIdx startPart preDotState]. rewrite Hend.
  replace (String.length d + 1 =? 0)%nat with false
    by (symmetry; apply Nat.eqb_neq; lia).
  replace (0 <? String.length d + 1)%nat with true
    by (symmetry; apply Nat.ltb_lt; lia).
  cbn [andb].
  assert (Hname : slice (d ++ "/" ++ base) (String.length d + 1)
                        (S (String.length d) + String.length base) = base).
  { replace (String.length d + 1) with (String.length pre) by lia.
    replace (S (String.length d)) with (String.length pre) by lia.
    rewrite Hpath, append_nil_r.
    pose proof (slice_middle pre base "") as Hs. by rewrite append_nil_r in Hs. }
  f_equal.
  - replace (String.length d + 1 - 1) with (String.length d) by lia.
    apply slice_front.
  - destruct (startDot st) as [dot|]; [|exact Hname].
    destruct Hwhole as [|Hzero]; [discriminate|]. rewrite Hzero. exact Hname.
Qed.

(** A name without a dot, and a name whose only dot is the first
    character: the scan takes both whole, at any place in the path. *)
Lemma scanSeg_plain (n : string) (b : nat) :
  n <> "" -> freeOf "." n = true ->
  let st := scanSeg b n scanInit in
  endIdx st = Some (b + String.length n) /\ matchedSlash st = false
  /\ startPart st = 0 /\ (startDot st = None \/ preDotState st = 0%Z).
Proof.
  intros Hne Hdot. cbn zeta. rewrite scanSeg_extension by assumption. simpl. auto.
Qed.

Lemma scanSeg_dotfile (n : string) (b : nat) :
  n <> "" -> freeOf "." n = true ->
  let st := scanSeg b ("." ++ n) scanInit in
  endIdx st = Some (b + String.length ("." ++ n)) /\ matchedSlash st = false
  /\ startPart st = 0 /\ (startDot st = None \/ preDotState st = 0%Z).
Proof.
  intros Hne Hdot. cbn zeta. change ("." ++ n)%string with (String "." n).
  cbn [scanSeg]. rewrite scanSeg_extension by assumption.
  unfold scanChar. simpl. split; [f_equal; lia|auto].
Qed.

Lemma parse_whole_segments (dirs : list string) (base : string) :
  Forall segment dirs -> segment base ->
  (forall b, let st := scanSeg b base scanInit in
     endIdx st = Some (b + String.length base) /\ matchedSlash st = false
     /\ startPart st = 0 /\ (startDot st = None \/ preDotState st = 0%Z)) ->
  let p := parseString (join "/" (dirs ++ [base])) in
  compact (split "/" (dir p)) = dirs /\ name p = base.
Proof.
  intros Hdirs [Hne Hfree] Hwhole. cbn zeta.
  destruct dirs as [|d0 dirs'].
  - change (join "/" ([] ++ [base])) with base.
    destruct (Hwhole 0) as (Hend & _ & Hpart & Hdot).
    rewrite parse_whole_base by auto. simpl. auto.
  - rewrite join_snoc by congruence.
    destruct (Hwhole (S (String.length (join "/" (d0 :: dirs')))))
      as (Hend & Hm & _ & Hdot).
    rewrite parse_whole_dir by (auto using join_relative). cbn [dir name].
    split; [|reflexivity].
    rewrite split_join; [|congruence|].
    + apply compact_segments. eapply Forall_impl; [exact Hdirs|].
      by intros s [Hs _].
    + eapply Forall_impl; [exact Hdirs|]. by intros s [_ Hs].
Qed.

Section UrlPaths.
Context `{LowerCase}.

(** X13.  File paths without an extension.  For a path [dirs/n] whose
    base name [n] has no dot, the URL path is made of [dirs] and [n],
    [n] being left out when it is [index]; for a path [dirs/.n] (a dot
    file) the name is [.n], whole.  Both are lower-cased and prefixed
    with ["/"]. *)
Theorem url_path_without_extension (dirs : list string) (n : string) :
  Forall segment dirs -> segment n -> freeOf "." n = true ->
  urlPathFromFilePath (VStr (join "/" (dirs ++ [n])))
  = ([], Ok ("/" ++ toLowerCase
               (join "/" (dirs ++ if String.eqb n "index" then [] else [n])))%string)
  /\ urlPathFromFilePath (VStr (join "/" (dirs ++ [("." ++ n)%string])))
     = ([], Ok ("/" ++ toLowerCase (join "/" (dirs ++ [("." ++ n)%string])))%string).
Proof.
  intros Hdirs [Hne Hslash] Hdot. split.
  - rewrite urlPathFromFilePath_string. unfold urlSegments.
    destruct (parse_whole_segments dirs n Hdirs (conj Hne Hslash)) as [-> ->];
      [|reflexivity].
    intros b. by apply scanSeg_plain.
  - rewrite urlPathFromFilePath_string. unfold urlSegments.
    destruct (parse_whole_segments dirs ("." ++ n) Hdirs) as [-> ->].
    + split; [discriminate|exact Hslash].
    + intros b. by apply scanSeg_dotfile.
    + reflexivity.
Qed.

End UrlPaths.

Lemma url_path_without_extension_witness :
  @urlPathFromFilePath asciiLowerCase (VStr (join "/" (["Docs"] ++ ["README"])))
  = ([], Ok "/docs/readme")
  /\ @urlPathFromFilePath asciiLowerCase
       (VStr (join "/" (["Docs"] ++ [("." ++ "README")%string])))
     = ([], Ok "/docs/.readme").
Proof.
  apply (@url_path_without_extension asciiLowerCase ["Docs"] "README").
  - repeat constructor; discriminate.
  - split; [discriminate|reflexivity].
  - reflexivity.
Defined.

Lemma lowerAsciiString_append (a b : string) :
  lowerAsciiString (a ++ b) = (lowerAsciiString a ++ lowerAsciiString b)%string.
Proof. induction a as [|c a IH]; simpl; [reflexivity|]. by rewrite IH. Qed.

Lemma lowerAsciiString_join (segs : list string) :
  lowerAsciiString (join "/" segs) = join "/" (map lowerAsciiString segs).
Proof.
  induction segs as [|p [|q rest] IH]; [reflexivity..|].
  rewrite join_cons. cbn [map]. rewrite join_cons.
  rewrite !lowerAsciiString_append. by rewrite IH.
Qed.

Section Collisions.
Context `{LowerCase}.

(** X14.  Different files, one URL path.  With [n] other than [index]:
    the files [dirs/n.e] and [dirs/n/index.e'] have the same URL path,
    whatever the extensions.  Two paths [dirs/n.e] and [dirs'/n'.e'] of
    ASCII characters that differ only in the case of the letters [A] to
    [Z] have the same URL path, when [n'] is not [index] either.  The
    comparison with [index] is made before the lower-casing: an ASCII
    name that is [index] but for the case of its letters, such as
    [Index], is kept, and the URL path ends in [index]. *)
Theorem url_path_collisions (dirs : list string) (n e e' : string) :
  Forall segment dirs -> segment n -> n <> "index" ->
  e <> "" -> freeOf "/" e = true -> freeOf "." e = true ->
  e' <> "" -> freeOf "/" e' = true -> freeOf "." e' = true ->
  urlPathFromFilePath
    (VStr (join "/" ((dirs ++ [n]) ++ [("index" ++ "." ++ e')%string])))
  = urlPathFromFilePath (VStr (join "/" (dirs ++ [(n ++ "." ++ e)%string])))
  /\ (forall (dirs' : list string) (n' : string),
        Forall segment dirs' -> segment n' -> n' <> "index" ->
        isAscii (join "/" (dirs ++ [n])) = true ->
        isAscii (join "/" (dirs' ++ [n'])) = true ->
        map lowerAsciiString dirs' = map lowerAsciiString dirs ->
        lowerAsciiString n' = lowerAsciiString n ->
        urlPathFromFilePath (VStr (join "/" (dirs' ++ [(n' ++ "." ++ e')%string])))
        = urlPathFromFilePath (VStr (join "/" (dirs ++ [(n ++ "." ++ e)%string]))))
  /\ (isAscii (join "/" (dirs ++ [n])) = true ->
      lowerAsciiString n = "index" ->
      urlPathFromFilePath (VStr (join "/" (dirs ++ [(n ++ "." ++ e)%string])))
      = ([], Ok ("/" ++ join "/" (map lowerAsciiString dirs ++ ["index"]))%string)).
Proof.
  intros Hdirs Hn Hindex He Hes Hed He' Hes' Hed'.
  apply String.eqb_neq in Hindex.
  assert (Hurl : urlPathFromFilePath
                   (VStr (join "/" (dirs ++ [(n ++ "." ++ e)%string])))
                 = ([], Ok ("/" ++ toLowerCase (join "/" (dirs ++ [n])))%string)).
  { rewrite urlPathFromFilePath_string. unfold urlSegments.
    destruct (parse_segments dirs n e Hdirs Hn He Hes Hed) as [-> ->].
    by rewrite Hindex. }
  split; [|split].
  - rewrite Hurl, urlPathFromFilePath_string. unfold urlSegments.
    destruct (parse_segments (dirs ++ [n]) "index" e') as [-> ->]; auto.
    + apply Forall_app. split; [exact Hdirs|by constructor].
    + split; [discriminate|reflexivity].
    + simpl. by rewrite app_nil_r.
  - intros dirs' n' Hdirs' Hn' Hindex' Hascii Hascii' Hcase Hname.
    apply String.eqb_neq in Hindex'.
    rewrite Hurl, urlPathFromFilePath_string. unfold urlSegments.
    destruct (parse_segments dirs' n' e' Hdirs' Hn' He' Hes' Hed') as [-> ->].
    rewrite Hindex'. rewrite !toLowerCase_ascii by assumption.
    rewrite !lowerAsciiString_join, !map_app. cbn [map].
    by rewrite Hcase, Hname.
  - intros Hascii Hlower.
    rewrite Hurl, toLowerCase_ascii, lowerAsciiString_join, map_app by assumption.
    cbn [map]. by rewrite Hlower.
Qed.

End Collisions.

(** The files [Blog/Index.md], [Blog/Index/index.html] and
    [blog/INDEX.html] all have the URL path [/blog/index]. *)
Lemma url_path_collisions_witness :
  @urlPathFromFilePath asciiLowerCase (VStr "Blog/Index/index.html")
  = @urlPathFromFilePath asciiLowerCase (VStr "Blog/Index.md")
  /\ @urlPathFromFilePath asciiLowerCase (VStr "blog/INDEX.html")
     = @urlPathFromFilePath asciiLowerCase (VStr "Blog/Index.md")
  /\ @urlPathFromFilePath asciiLowerCase (VStr "Blog/Index.md")
     = ([], Ok "/blog/index").
Proof.
  destruct (@url_path_collisions asciiLowerCase ["Blog"] "Index" "md" "html")
    as (Hindex & Hcase & Hkept); try reflexivity; try discriminate.
  - repeat constructor; discriminate.
  - split; [discriminate|reflexivity].
  - split; [exact Hindex|]. split.
    + apply (Hcase ["blog"] "INDEX"); try reflexivity; try discriminate.
      * repeat constructor; discriminate.
      * split; [discriminate|reflexivity].
    + apply Hkept; reflexivity.
Defined.

(** ** [index.js]: [convertPathToPosix] *)

Lemma split_not_empty sep s : split sep s <> [].
Proof.
  destruct s as [|c s]; simpl; [discriminate|].
  destruct (Ascii.eqb c sep); [discriminate|]. by destruct (split sep s).
Qed.

(** Splitting at a character and joining with another replaces the one
    by the other. *)
Lemma join_split (sep : ascii) (s : string) :
  join "/" (split sep s) = replaceChar sep "/" s.
Proof.
  induction s as [|c s IH]; simpl; [reflexivity|].
  pose proof (split_not_empty sep s) as Hne.
  destruct (Ascii.eqb c sep).
  - destruct (split sep s) as [|h t] eqn:Hs; [done|].
    rewrite join_cons, IH. reflexivity.
  - destruct (split sep s) as [|h t] eqn:Hs; [done|].
    rewrite <- IH. destruct t as [|h' t']; [reflexivity|].
    rewrite !join_cons. reflexivity.
Qed.

Lemma replaceChar_free (a b : ascii) (s : string) :
  Ascii.eqb b a = false -> freeOf a (replaceChar a b s) = true.
Proof.
  intros Hba. induction s as [|c s IH]; simpl; [reflexivity|].
  destruct (Ascii.eqb c a) eqn:Hc; rewrite ?Hba, ?Hc; simpl; exact IH.
Qed.

Lemma replaceChar_length (a b : ascii) (s : string) :
  String.length (replaceChar a b s) = String.length s.
Proof. induction s as [|c s IH]; simpl; [reflexivity|]. by rewrite IH. Qed.

Lemma replaceChar_absent (a b : ascii) (s : string) :
  freeOf a s = true -> replaceChar a b s = s.
Proof.
  induction s as [|c s IH]; simpl; [reflexivity|].
  intros [Hc Hs]%andb_true_iff. apply negb_true_iff in Hc. rewrite Hc.
  by rewrite IH.
Qed.

Lemma replaceChar_truthy (a b : ascii) (s : string) :
  truthy (VStr (replaceChar a b s)) = truthy (VStr s).
Proof. by destruct s. Qed.

(** X15.  On a platform whose separator is not ["/"],
    [convertPathToPosix] returns a non-empty string with every separator
    replaced by ["/"] and every other character as it is: the result has
    the length of the path and no separator in it.  On a platform whose
    separator is ["/"] every value comes back as it is; so do, on any
    platform, the empty string and the other falsy values. *)
Theorem convertPathToPosix_replaces (sep : ascii) :
  (forall s, Ascii.eqb sep "/" = false -> s <> "" ->
     convertPathToPosix sep (VStr s) = ([], Ok (VStr (replaceChar sep "/" s)))
     /\ String.length (replaceChar sep "/" s) = String.length s
     /\ freeOf sep (replaceChar sep "/" s) = true)
  /\ (forall p, Ascii.eqb sep "/" = true \/ truthy p = false ->
        convertPathToPosix sep p = ([], Ok p)).
Proof.
  split.
  - intros s Hsep Hs. unfold convertPathToPosix. rewrite Hsep.
    destruct s as [|c s]; [done|]. cbn [truthy String.eqb negb].
    rewrite join_split. split; [reflexivity|].
    split; [apply replaceChar_length|]. apply replaceChar_free.
    by rewrite Ascii.eqb_sym.
  - intros p [Hsep|Hp]; unfold convertPathToPosix.
    + by rewrite Hsep.
    + rewrite Hp. by destruct (Ascii.eqb sep "/").
Qed.

Lemma convertPathToPosix_replaces_witness :
  convertPathToPosix "\" (VStr "content\blog\a.md") = ([], Ok (VStr "content/blog/a.md"))
  /\ String.length "content/blog/a.md" = String.length "content\blog\a.md"
  /\ freeOf "\" "content/blog/a.md" = true.
Proof.
  destruct (convertPathToPosix_replaces "\") as [Hstring _].
  apply (Hstring "content\blog\a.md"); [reflexivity|discriminate].
Defined.

(** X16.  [convertPathToPosix] is idempotent: whenever it returns, it
    returns its result unchanged when applied to it again, on every
    platform and for every value. *)
Theorem convertPathToPosix_idempotent (sep : ascii) (p : value) log r :
  convertPathToPosix sep p = (log, Ok r) ->
  convertPathToPosix sep r = ([], Ok r).
Proof.
  unfold convertPathToPosix. destruct (Ascii.eqb sep "/") eqn:Hsep.
  - by intros [= _ <-].
  - destruct (truthy p) eqn:Hp; cbn [negb].
    + destruct p as [| | | |s| |]; try discriminate. intros [= _ <-].
      rewrite join_split, replaceChar_truthy, Hp. cbn [negb].
      rewrite join_split, replaceChar_absent; [reflexivity|].
      apply replaceChar_free. by rewrite Ascii.eqb_sym.
    + intros [= _ <-]. by rewrite Hp.
Qed.

Lemma convertPathToPosix_idempotent_witness :
  convertPathToPosix "\" (VStr "content/blog/a.md") = ([], Ok (VStr "content/blog/a.md")).
Proof.
  apply (convertPathToPosix_idempotent "\" (VStr "content\blog\a.md") []).
  reflexivity.
Defined.

(** ** [index.js]: [transform] *)

Section TransformFacts.
Context `{PathSyntax} `{LowerCase} `{Sdk}.

Lemma transform_ok props xs context pluginOptions log r :
  List.NoDup (map fst props) ->
  lookup "objects" props = Some (VArr xs) ->
  transform (VObj props) context pluginOptions = (log, Ok r) ->
  exists added,
    transformed context pluginOptions = (log, Ok added)
    /\ r = VObj (assignKey "objects" (VArr (xs ++ spread added)) props).
Proof.
  intros Hnd Hobjects Hrun. unfold transform in Hrun.
  apply mbind_ok in Hrun as (l1 & added & l2 & Hadded & Hrun & ->).
  unfold prop in Hrun. cbn [isNil getProp] in Hrun.
  rewrite Hobjects, mret_bind in Hrun. cbn [default from_option id objectsConcat] in Hrun.
  rewrite mret_bind in Hrun. injection Hrun as <- <-.
  exists added. rewrite app_nil_r. split; [exact Hadded|].
  by rewrite assign_copy.
Qed.

Lemma transform_run props xs context pluginOptions log added :
  List.NoDup (map fst props) ->
  lookup "objects" props = Some (VArr xs) ->
  transformed context pluginOptions = (log, Ok added) ->
  transform (VObj props) context pluginOptions
  = (log, Ok (VObj (assignKey "objects" (VArr (xs ++ spread added)) props))).
Proof.
  intros Hnd Hobjects Hadded. unfold transform.
  rewrite (mbind_run _ _ _ _ Hadded).
  unfold prop. cbn [isNil getProp]. rewrite Hobjects, mret_bind.
  cbn [default from_option id objectsConcat]. rewrite mret_bind.
  cbn [fst snd mret M_ret ret]. rewrite app_nil_r. by rewrite assign_copy.
Qed.

(** X17.  When [transform] returns for a [data] whose [objects] is an
    array, the result is [data] with [objects] replaced, in its place,
    by the array followed by what the files have become: the objects
    already there are kept, in order and unchanged, and so is every
    other property of [data]. *)
Theorem transform_appends props xs context pluginOptions log r :
  List.NoDup (map fst props) ->
  lookup "objects" props = Some (VArr xs) ->
  transform (VObj props) context pluginOptions = (log, Ok r) ->
  exists added props',
    transformed context pluginOptions = (log, Ok added)
    /\ r = VObj props'
    /\ map fst props' = map fst props
    /\ lookup "objects" props' = Some (VArr (xs ++ spread added))
    /\ forall k, k <> "objects" -> lookup k props' = lookup k props.
Proof.
  intros Hnd Hobjects Hrun.
  destruct (transform_ok _ _ _ _ _ _ Hnd Hobjects Hrun) as (added & Hadded & ->).
  exists added. eexists. split; [exact Hadded|]. split; [reflexivity|].
  split; [|split].
  - apply assignKey_keys_present. apply lookup_is_Some. eauto.
  - by rewrite lookup_assignKey, String.eqb_refl.
  - intros k Hk. rewrite lookup_assignKey.
    destruct (String.eqb_spec "objects" k); congruence.
Qed.

(** X18.  [transform] is not idempotent.  In a plugin context without a
    configuration, or with the option [mergeDataModels] falsy, no value
    reachable from the files is written to: applied to its own result
    in the same plugin context, [transform] returns again, logs the same
    lines, and appends the same objects once more.  (With the merge on,
    [_.set] writes into values that the merged objects share with the
    files, and a second call may find other files.) *)
Theorem transform_again props xs context pluginOptions log r :
  truthy (getProp context "config") = false
  \/ truthy (getKey pluginOptions "mergeDataModels" (VBool true)) = false ->
  List.NoDup (map fst props) ->
  lookup "objects" props = Some (VArr xs) ->
  transform (VObj props) context pluginOptions = (log, Ok r) ->
  exists added,
    getProp r "objects" = VArr (xs ++ spread added)
    /\ exists r',
         transform r context pluginOptions = (log, Ok r')
         /\ getProp r' "objects" = VArr ((xs ++ spread added) ++ spread added).
Proof.
  intros _ Hnd Hobjects Hrun.
  destruct (transform_ok _ _ _ _ _ _ Hnd Hobjects Hrun) as (added & Hadded & ->).
  exists added.
  assert (Hthere : lookup "objects"
                     (assignKey "objects" (VArr (xs ++ spread added)) props)
                   = Some (VArr (xs ++ spread added))).
  { by rewrite lookup_assignKey, String.eqb_refl. }
  split; [cbn [getProp]; by rewrite Hthere|].
  eexists. split.
  - apply transform_run; [by apply assignKey_NoDup|exact Hthere|exact Hadded].
  - cbn [getProp]. by rewrite lookup_assignKey, String.eqb_refl.
Qed.

(** X19.  What [transform] appends.  Without a configuration in the
    plugin context, the files as they are and nothing is logged.  With
    one, an array with one object for every file, followed by the merged
    data object unless the option [mergeDataModels] is falsy; the merge
    is on when the option is not given. *)
Theorem transformed_objects context pluginOptions :
  (isNil context = false -> truthy (getProp context "config") = false ->
   transformed context pluginOptions = ([], Ok (getProp context "files")))
  /\ (forall log added,
        truthy (getProp context "config") = true ->
        transformed context pluginOptions = (log, Ok added) ->
        exists objects,
          added = VArr objects
          /\ length objects
             = length (elements (getProp context "files"))
               + (if truthy (getKey pluginOptions "mergeDataModels" (VBool true))
                  then 1 else 0))
  /\ (hasKey pluginOptions "mergeDataModels" = false ->
      truthy (getKey pluginOptions "mergeDataModels" (VBool true)) = true).
Proof.
  split; [|split].
  - intros Hcontext Hconfig. unfold transformed.
    rewrite !prop_defined, !mret_bind by assumption. by rewrite Hconfig.
  - intros log added Hconfig Hrun. unfold transformed in Hrun.
    apply mbind_ok in Hrun as (l1 & files & l2 & Hfiles & Hrun & ->).
    apply prop_ok in Hfiles as (Hcontext & -> & ->).
    rewrite prop_defined, mret_bind in Hrun by assumption.
    rewrite Hconfig in Hrun.
    apply mbind_ok in Hrun as (l3 & models & l4 & _ & Hrun & ->).
    apply mbind_ok in Hrun as (l5 & objects & l6 & Hmatch & Hret & ->).
    injection Hret as _ <-. exists objects. split; [reflexivity|].
    by destruct (output_counts _ _ _ _ _ Hmatch) as [-> _].
  - unfold hasKey, getKey. destruct (isNil pluginOptions); [reflexivity|].
    cbn [negb andb]. intros Hkey.
    destruct pluginOptions as [| | | |s|items|props]; try reflexivity.
    simpl in *. apply bool_decide_eq_false in Hkey.
    destruct (lookup "mergeDataModels" props); [|reflexivity].
    exfalso. apply Hkey. eauto.
Qed.

End TransformFacts.

Lemma transform_appends_witness :
  exists added props',
    @transformed dotSyntax asciiLowerCase sampleSdk pluginContext (VObj [])
    = ([Info "matching files to models..."; InfoMatched 1 1], Ok added)
    /\ pluginResult = VObj props'
    /\ map fst props' = map fst pluginData
    /\ lookup "objects" props' = Some (VArr ([VStr "earlier"] ++ spread added))
    /\ forall k, k <> "objects" -> lookup k props' = lookup k pluginData.
Proof.
  apply (@transform_appends dotSyntax asciiLowerCase sampleSdk pluginData [VStr "earlier"]
           pluginContext (VObj [])).
  - repeat constructor; simpl; intuition discriminate.
  - reflexivity.
  - vm_compute; reflexivity.
Defined.

Lemma transform_again_witness :
  exists added,
    getProp pluginResultUnmerged "objects" = VArr ([VStr "earlier"] ++ spread added)
    /\ exists r',
         @transform dotSyntax asciiLowerCase sampleSdk pluginResultUnmerged
           pluginContext (VObj [("mergeDataModels", VBool false)])
         = ([Info "matching files to models..."; InfoMatched 1 1], Ok r')
         /\ getProp r' "objects"
            = VArr (([VStr "earlier"] ++ spread added) ++ spread added).
Proof.
  apply (@transform_again dotSyntax asciiLowerCase sampleSdk pluginData [VStr "earlier"]
           pluginContext (VObj [("mergeDataModels", VBool false)])).
  - right. reflexivity.
  - repeat constructor; simpl; intuition discriminate.
  - reflexivity.
  - vm_compute; reflexivity.
Defined.

Lemma transformed_objects_witness :
  exists objects,
    VArr [sharedAsPageAnnotated; seed sourceName] = VArr objects
    /\ length objects
       = length (elements (getProp pluginContext "files"))
         + (if truthy (getKey (VObj []) "mergeDataModels" (VBool true)) then 1 else 0).
Proof.
  destruct (@transformed_objects dotSyntax asciiLowerCase sampleSdk pluginContext (VObj []))
    as (_ & Hconfig & _).
  apply (Hconfig [Info "matching files to models..."; InfoMatched 1 1]).
  - reflexivity.
  - vm_compute; reflexivity.
Defined.

(** ** Where the diagnostics of the annotation point *)

Lemma fst_bind {A B} (P : diag -> Prop) (m : M A) (f : A -> M B) :
  Forall P (fst m) -> (forall a, Forall P (fst (f a))) -> Forall P (fst (m ≫= f)).
Proof.
  destruct m as [l [a|e|]]; intros Hm Hf; try exact Hm.
  specialize (Hf a). unfold mbind, M_bind, bind. destruct (f a) as [l' r'].
  simpl in *. by apply Forall_app.
Qed.

Lemma fst_mapValuesM (P : diag -> Prop) (f : string -> value -> M value) props :
  Forall (fun kv => Forall P (fst (f (fst kv) (snd kv)))) props ->
  Forall P (fst (mapValuesM f props)).
Proof.
  induction 1 as [|[k v] props Hv _ IH]; [constructor|]. cbn [mapValuesM].
  apply fst_bind; [exact Hv|]. intros v'.
  apply fst_bind; [exact IH|]. intros rest'. constructor.
Qed.

Lemma fst_mapItemsM (P : diag -> Prop) (f : nat -> value -> M value) items idx :
  Forall (fun x => forall i, Forall P (fst (f i x))) items ->
  Forall P (fst (mapItemsM f idx items)).
Proof.
  intros Hall. revert idx.
  induction Hall as [|x items Hx _ IH]; intros idx; [constructor|]. cbn [mapItemsM].
  apply fst_bind; [apply Hx|]. intros x'.
  apply fst_bind; [apply IH|]. intros rest'. constructor.
Qed.

Lemma located_below c c' d :
  filePath c' = filePath c -> dataFieldPath c `prefix_of` dataFieldPath c' ->
  located c' d -> located c d.
Proof.
  intros Hfile Hpath. destruct d as [| | | |text loc]; try done.
  intros [Hf Hp]. split; [congruence|]. by etransitivity.
Qed.

Lemma located_here c text modelPath :
  located c (ErrorAt text (locationOf c modelPath)).
Proof. split; reflexivity. Qed.

Ltac located_log :=
  simpl; repeat first [apply Forall_nil_2 | apply Forall_cons_2; [apply located_here|]].

Section Located.
Context `{PathSyntax} `{LowerCase}.

Lemma modelPathOf_quiet model c : fst (modelPathOf model c) = [].
Proof.
  unfold modelPathOf. destruct (modelFieldPath c); [|reflexivity].
  unfold prop. by destruct (isNil model).
Qed.

Lemma urlPathOf_quiet t c : fst (urlPathOf t c) = [].
Proof.
  unfold urlPathOf. destruct (isStr t "page"); [|reflexivity].
  unfold urlPathFromFilePath, pathParse. by destruct (filePath c).
Qed.

Lemma prop_quiet v k : fst (prop v k) = [].
Proof. unfold prop. by destruct (isNil v). Qed.

(** X20.  Every line that the annotation of a value logs, whatever the
    outcome, is an error with a location: the location names the file
    that is being annotated, and its data path begins with the data path
    of the value. *)
Theorem diagnostics_located v :
  (forall fieldModel c, Forall (located c) (fst (mapObjectField v fieldModel c)))
  /\ (forall model c, Forall (located c) (fst (addMetadata v model c))).
Proof.
  assert (Hother : forall v model c,
            isPlainObject v = false -> Forall (located c) (fst (addMetadata v model c))).
  { intros v0 model c Hv. rewrite addMetadata_not_object by done.
    apply fst_bind; [by rewrite modelPathOf_quiet|]. intros modelPath.
    located_log. }
  assert (Hrestart : forall c d, located (restart c) d -> located c d).
  { intros c d. by apply located_below. }
  assert (Hfield : forall v,
            (forall model c, Forall (located c) (fst (addMetadata v model c))) ->
            (forall items, v = VArr items ->
               Forall (fun x => forall fm c,
                         Forall (located c) (fst (mapObjectField x fm c))) items) ->
            forall fm c, Forall (located c) (fst (mapObjectField v fm c))).
  { intros v0 Hadd Hitems fm c.
    assert (Hnamed : forall model,
              Forall (located c) (fst (addMetadata v0 model (restart c)))).
    { intros model. eapply Forall_impl; [apply Hadd|]. apply Hrestart. }
    destruct (isNil fm) eqn:Hnil; [rewrite mapObjectField_nil by done; constructor|].
    destruct (isStr (getProp fm "type") "object") eqn:Hobject.
    { rewrite mapObjectField_object by by apply isStr_eq. apply Hadd. }
    destruct (isStr (getProp fm "type") "model") eqn:Hmodel.
    { rewrite mapObjectField_model by by apply isStr_eq. cbn zeta.
      repeat match goal with
             | |- Forall _ (fst (if ?b then _ else _)) => destruct b
             end; try apply Hnamed; located_log. }
    destruct (isStr (getProp fm "type") "reference") eqn:Hreference.
    { rewrite mapObjectField_reference by by apply isStr_eq.
      destruct (_ && _); [apply Hnamed|constructor]. }
    destruct (isStr (getProp fm "type") "list") eqn:Hlist.
    { rewrite mapObjectField_list by by apply isStr_eq.
      destruct v0; try (by located_log).
      apply fst_bind; [|intros; constructor]. apply fst_mapItemsM.
      eapply Forall_impl; [exact (Hitems _ eq_refl)|]. intros x Hx i.
      eapply Forall_impl; [apply Hx|]. intros d.
      apply located_below; [reflexivity|]. by apply prefix_app_r. }
    rewrite mapObjectField_scalar by assumption. constructor. }
  induction v as [| | | | |items IH|props IH] using value_ind;
    try (split; [apply Hfield; [|discriminate]|]; intros model c; by apply Hother).
  - split; [|intros model c; by apply Hother].
    apply Hfield; [intros model c; by apply Hother|].
    intros items0 [= <-]. eapply Forall_impl; [exact IH|]. by intros x [Hx _].
  - assert (Hadd : forall model c,
              Forall (located c) (fst (addMetadata (VObj props) model c))).
    { intros model c. unfold addMetadata, addMetadataWith.
      apply fst_bind; [by rewrite modelPathOf_quiet|]. intros modelPath.
      apply fst_bind.
      - apply fst_mapValuesM. eapply Forall_impl; [exact IH|].
        intros [k v] [Hv _]. simpl. unfold processField.
        destruct (findByName _ k); [|constructor].
        eapply Forall_impl; [apply Hv|]. intros d.
        apply located_below; [reflexivity|]. by apply prefix_app_r.
      - intros props'. apply fst_bind; [by rewrite prop_quiet|]. intros t.
        apply fst_bind; [by rewrite urlPathOf_quiet|]. intros u. constructor. }
    split; [|exact Hadd]. apply Hfield; [exact Hadd|discriminate].
Qed.

End Located.

(** ** The schema index, and the tag that selects the objects to merge *)

Lemma find_app {A} (p : A -> bool) (l1 l2 : list A) :
  List.find p (l1 ++ l2)
  = match List.find p l1 with Some x => Some x | None => List.find p l2 end.
Proof.
  induction l1 as [|x l1 IH]; simpl; [reflexivity|]. by destruct (p x).
Qed.

Lemma keyBy_fold (key : value -> string) (models : list value) acc name :
  lookup name (fold_left (fun acc m => assignKey (key m) m acc) models acc)
  = match List.find (fun m => String.eqb (key m) name) (rev models) with
    | Some m => Some m
    | None => lookup name acc
    end.
Proof.
  revert acc. induction models as [|m models IH]; intros acc; simpl; [reflexivity|].
  rewrite IH, find_app, lookup_assignKey. simpl.
  destruct (List.find _ (rev models)); [reflexivity|].
  by destruct (String.eqb (key m) name).
Qed.

(** X21.  The schema index [modelsByName]: under a name it holds the
    last model of the list whose [name], converted to a property key, is
    that name, and nothing when there is none.  Of two models with the
    same name the later one is the one that fields resolve to; a model
    without a name is held under ["undefined"]. *)
Theorem schema_index_last_wins (models : value) (name : string) :
  lookup name (keyBy models "name")
  = List.find (fun m => String.eqb (toKey (getKey m "name" VUndefined)) name)
              (rev (elements models)).
Proof.
  unfold keyBy. rewrite keyBy_fold. by destruct (List.find _ _).
Qed.

Section DataTag.
Context `{PathSyntax} `{LowerCase}.

(** X22.  The tag by which [mergeDataModels] selects: an object
    annotated with a model that has a [type] matches
    [{__metadata: {modelType: 'data'}}] exactly when that type is
    ['data'], whatever [modelType] the object had. *)
Theorem annotated_as_data props model c log r :
  addMetadata (VObj props) model c = (log, Ok r) ->
  isNil (getProp model "type") = false ->
  isDataObject r = isStr (getProp model "type") "data".
Proof.
  intros Hrun Htype.
  apply addMetadata_object_ok in Hrun
    as (l0 & modelPath & l1 & props' & u & _ & _ & _ & _ & -> & _).
  destruct (attachMetadata_metadata props'
              (computedMetadata model (getProp model "type") u)) as (meta & Hmeta & Hkeys).
  assert (Hobject : exists result, attachMetadata props'
            (computedMetadata model (getProp model "type") u) = VObj result).
  { unfold attachMetadata. eauto. }
  destruct Hobject as [result Hresult]. rewrite Hresult in Hmeta |- *.
  cbn [getProp] in Hmeta. cbn [isDataObject].
  destruct (lookup "__metadata" result) as [m|]; [|discriminate].
  cbn [default from_option id] in Hmeta. subst m.
  rewrite Hkeys, lookup_rev_NoDup by apply computedMetadata_NoDup.
  unfold computedMetadata, omitNil. cbn [List.filter snd]. rewrite Htype.
  cbn [negb lookup]. by rewrite String.eqb_refl.
Qed.

End DataTag.

Lemma annotated_as_data_witness :
  isDataObject
    (VObj [("title", VStr "a");
           ("__metadata", VObj [("id", VStr "post.md"); ("modelName", VStr "post");
                                ("modelType", VStr "data")])])
  = isStr (getProp postModel "type") "data".
Proof.
  apply (@annotated_as_data dotSyntax asciiLowerCase
           [("title", VStr "a");
            ("__metadata", VObj [("id", VStr "post.md"); ("modelName", VStr "old")])]
           postModel (rootContext "post.md" []) []);
    [vm_compute; reflexivity|reflexivity].
Defined.

(** ** A list whose [items] is [null] *)

Section ItemsNull.
Context `{PathSyntax} `{LowerCase}.

(** X23.  The default [{type: 'string'}] of [_.get(fieldModel, 'items',
    ...)] stands in for a missing [items] only: for a field of type
    [list] whose [items] is [null], every element is dispatched on
    [null], and [fieldModel.type] raises a [TypeError] on the first one.
    An empty array comes back as it is. *)
Theorem list_items_null_raises fieldModel c :
  getProp fieldModel "type" = VStr "list" ->
  getProp fieldModel "items" = VNull ->
  mapObjectField (VArr []) fieldModel c = ([], Ok (VArr []))
  /\ forall item items,
       mapObjectField (VArr (item :: items)) fieldModel c
       = ([], Throw (TypeError "Cannot read property 'type'")).
Proof.
  intros Htype Hitems.
  assert (Hmodel : itemModelOf fieldModel = VNull).
  { unfold itemModelOf, getKey. rewrite Hitems.
    destruct (isNil fieldModel) eqn:Hnil; [|reflexivity].
    rewrite getProp_nil in Htype by done. discriminate. }
  split.
  - by rewrite (mapObjectField_list _ _ _ Htype).
  - intros item items. rewrite (mapObjectField_list _ _ _ Htype), Hmodel.
    cbn [mapItemsM]. by rewrite mapObjectField_nil.
Qed.

End ItemsNull.

Lemma list_items_null_raises_witness :
  @mapObjectField dotSyntax asciiLowerCase (VArr []) (VObj [("type", VStr "list"); ("items", VNull)])
    sectionContext = ([], Ok (VArr []))
  /\ forall item items,
       @mapObjectField dotSyntax asciiLowerCase (VArr (item :: items))
         (VObj [("type", VStr "list"); ("items", VNull)]) sectionContext
       = ([], Throw (TypeError "Cannot read property 'type'")).
Proof.
  apply (@list_items_null_raises dotSyntax asciiLowerCase); reflexivity.
Defined.

(** ** [transform] on data without objects *)

Section TransformRaises.
Context `{PathSyntax} `{LowerCase} `{Sdk}.

(** X24.  [transform] needs [data.objects]: when [data] is [null] or
    [undefined], or has no [objects] (or [null] for it), the files are
    matched and the lines of the matcher are logged, and then
    [data.objects.concat] raises a [TypeError]; nothing is returned. *)
Theorem transform_without_objects_raises data context pluginOptions log added :
  transformed context pluginOptions = (log, Ok added) ->
  isNil (getProp data "objects") = true ->
  exists e, transform data context pluginOptions = (log, Throw e).
Proof.
  intros Hadded Hnone. unfold transform. rewrite (mbind_run _ _ _ _ Hadded).
  unfold prop. destruct (isNil data).
  - eexists. cbn [fst snd throw mbind M_bind bind]. by rewrite app_nil_r.
  - rewrite mret_bind.
    destruct (getProp data "objects"); try discriminate;
      eexists; cbn [objectsConcat fst snd throw mbind M_bind bind];
      by rewrite app_nil_r.
Qed.

End TransformRaises.

Lemma transform_without_objects_raises_witness :
  exists e,
    @transform dotSyntax asciiLowerCase sampleSdk (VObj [("models", VArr [])]) pluginContext (VObj [])
    = ([Info "matching files to models..."; InfoMatched 1 1], Throw e).
Proof.
  apply (@transform_without_objects_raises dotSyntax asciiLowerCase sampleSdk
           (VObj [("models", VArr [])]) pluginContext (VObj [])
           [Info "matching files to models..."; InfoMatched 1 1]
           (VArr [sharedAsPageAnnotated; seed sourceName]));
    vm_compute; reflexivity.
Defined.
